(** * The volume-processing core of [dicom_converter.py]

    A shallow embedding of [perona_malik_gpu], [compute_chunk_minmax] and
    [convert_dicom_series] (file [src/medical/dicom_converter.py]) together
    with the properties the specification states about them.

    Modelling conventions.
    - A numpy/CuPy array is a nested list in row-major (z, y, x) order; the
      whole-array operations of the source (slicing, edge padding,
      element-wise arithmetic, reductions) are list combinators of the same
      name.  A well-formed ndarray is rectangular: [has_shape].
    - Voxel values are modelled twice.  In the first layer they are real
      numbers: float32 arithmetic is idealised as exact arithmetic on [R],
      and the volume is a float32 array, as the driver builds it, so that
      the casts to float32 change nothing.  In the second layer, the
      module [IEEE], they are binary floating-point numbers ([spec_float]
      of the Standard Library): the solver and the chunk reducer round
      as the source does, with signed zeros, infinities and NaN, and the
      float16 cast of the quantizer is the IEEE 754 conversion.
    - Python exceptions are the [inl] results of [result]; console output,
      directory creation and file writes are the events of the writer monad
      [M].
    - What the source obtains from other libraries (the float16 cast, the
      DICOM tag lookup, the SHA-256 digest) is a [Variable] of the section
      that uses it. *)

From Stdlib Require Import Reals Lra Lia ZArith Ascii String Sorted SpecFloat.
From stdpp Require Import base list strings.

(** ** Exceptions *)

Inductive exn : Type :=
| ChunkSizeNotMultipleOf16 (chunk_size : Z)
    (* ValueError "Chunk size must be a multiple of 16, got ..." *)
| ChunkSizeOutOfRange (chunk_size : Z)
    (* ValueError "Chunk size must be between 16 and 256, got ..." *)
| EmptyReduction
    (* ValueError of np.min / np.max on a zero-size array *)
| EmptyAxisPad
    (* ValueError of pad(mode='edge') on an axis of length 0 *)
| BroadcastError
    (* ValueError of an assignment whose shapes do not broadcast *)
| IndexError
    (* an index beyond the first axis of an array *)
| ZeroDivisionError.

(** The two [raise ValueError] of the chunk-size validation are the
    configuration errors of the conversion. *)
Definition is_configuration_error (e : exn) : bool :=
  match e with
  | ChunkSizeNotMultipleOf16 _ | ChunkSizeOutOfRange _ => true
  | _ => false
  end.

Definition result (A : Type) : Type := exn + A.

Definition Ok {A} (a : A) : result A := inr a.
Definition Raise {A} (e : exn) : result A := inl e.

Definition rbind {A B} (r : result A) (k : A → result B) : result B :=
  match r with
  | inl e => inl e
  | inr a => k a
  end.

Declare Scope result_scope.
Delimit Scope result_scope with result.
Notation "'try' x ⇐ r ; k" := (rbind r (λ x, k))
  (at level 10, x name, r at level 100, k at level 200,
   format "'[v' 'try'  x  ⇐  r ; '/' k ']'") : result_scope.
Open Scope result_scope.

(** A loop whose body may raise: [for x in xs: state = body(state, x)]. *)
Fixpoint for_each {S I} (body : S → I → result S) (xs : list I) (s : S)
  : result S :=
  match xs with
  | [] => Ok s
  | x :: xs' => rbind (body s x) (for_each body xs')
  end.

(** A list built element by element by a computation that may raise. *)
Fixpoint collect {I A} (f : I → result A) (xs : list I) : result (list A) :=
  match xs with
  | [] => Ok []
  | x :: xs' => rbind (f x) (λ a, rbind (collect f xs') (λ l, Ok (a :: l)))
  end.

(** ** Arrays *)

Module Ndarray.

(** Python slice bounds: [None] is the default, a negative index counts
    from the end, and an index beyond either end is clipped. *)
Definition slice_index (len : nat) (i : Z) : nat :=
  if (i <? 0)%Z then Z.to_nat (Z.max 0 (Z.of_nat len + i))
  else Nat.min (Z.to_nat i) len.

Definition py_slice {A} (bounds : option Z * option Z) (l : list A)
  : list A :=
  let n := length l in
  let a := from_option (slice_index n) 0 bounds.1 in
  let b := from_option (slice_index n) n bounds.2 in
  take (b - a) (drop a l).

(** The slices [l[a:b]] with natural bounds, [l[a:]], [l[:b]] and
    [l[a:b]] with integer bounds. *)
Definition range (a b : nat) : option Z * option Z :=
  (Some (Z.of_nat a), Some (Z.of_nat b)).
Definition from (a : Z) : option Z * option Z := (Some a, None).
Definition upto (b : Z) : option Z * option Z := (None, Some b).
Definition between (a b : Z) : option Z * option Z := (Some a, Some b).

(** [v[sz, sy, sx]]: basic indexing of a 3-D array by three slices. *)
Definition slice3 {A} (sz sy sx : option Z * option Z)
    (v : list (list (list A))) : list (list (list A)) :=
  (λ plane : list (list A), py_slice sx <$> py_slice sy plane)
    <$> py_slice sz v.

Definition map3 {A B} (f : A → B) (v : list (list (list A)))
  : list (list (list B)) :=
  (λ plane : list (list A), (λ row : list A, f <$> row) <$> plane) <$> v.

Definition zip3 {A B C} (f : A → B → C)
    (u : list (list (list A))) (v : list (list (list B)))
  : list (list (list C)) :=
  zip_with (zip_with (zip_with f)) u v.

(** All elements in row-major order (the order of a reduction over the
    whole array, and of [tofile]). *)
Definition ravel {A} (v : list (list (list A))) : list A :=
  concat (concat v).

(** [np.zeros((d, h, w))] or, in general, a constant array. *)
Definition full {A} (d h w : nat) (c : A) : list (list (list A)) :=
  replicate d (replicate h (replicate w c)).

(** [v.shape] *)
Definition shape3 {A} (v : list (list (list A))) : nat * nat * nat :=
  (length v, length (default [] (head v)),
   length (default [] (head (default [] (head v))))).

(** [v] is a rectangular array of shape [(d, h, w)]. *)
Definition has_shape {A} (v : list (list (list A))) (d h w : nat) : Prop :=
  length v = d ∧
  Forall (λ plane, length plane = h ∧ Forall (λ row, length row = w) plane) v.

(** [v[z, y, x]] *)
Definition get3 {A} (v : list (list (list A))) (z y x : nat) : option A :=
  plane ← v !! z; row ← plane !! y; row !! x.

(** [dst[:len(src)] = src], element by element with [assign]: the leading
    block of [dst] is overwritten, the rest is kept. *)
Fixpoint overlay {A B} (assign : A → B → A) (dst : list A) (src : list B)
  : list A :=
  match dst, src with
  | d :: dst', s :: src' => assign d s :: overlay assign dst' src'
  | _, _ => dst
  end.

(** [dst[:d, :h, :w] = src] for [src] of shape [(d, h, w)]. *)
Definition assign_block {A} (dst src : list (list (list A)))
  : list (list (list A)) :=
  overlay (overlay (overlay (λ _ s, s))) dst src.

(** One axis of [pad(a, 1, mode='edge')]: the first and the last element
    are replicated once; an empty axis cannot be extended. *)
Definition pad_edge1 {A} (l : list A) : result (list A) :=
  match l with
  | [] => Raise EmptyAxisPad
  | x :: _ => Ok (x :: l ++ [default x (last l)])
  end.

(** [pad(v, 1, mode='edge')] on a 3-D array. *)
Definition pad_edge {A} (v : list (list (list A)))
  : result (list (list (list A))) :=
  rbind (collect (λ plane, rbind (collect pad_edge1 plane) pad_edge1) v)
        pad_edge1.

(** [a[i]] *)
Definition index {A} (a : list A) (i : nat) : result A :=
  match a !! i with
  | Some x => Ok x
  | None => Raise IndexError
  end.

(** [np.min] and [np.max] of an array given by its elements. *)
Definition np_min (l : list R) : result R :=
  match l with
  | [] => Raise EmptyReduction
  | x :: l' => Ok (foldl Rmin x l')
  end.

Definition np_max (l : list R) : result R :=
  match l with
  | [] => Raise EmptyReduction
  | x :: l' => Ok (foldl Rmax x l')
  end.

End Ndarray.

Import Ndarray.

Definition Volume : Type := list (list (list R)).

(** ** The chunk reducer: [compute_chunk_minmax] *)

(** The array returned by [compute_chunk_minmax]: an ndarray of shape
    [(num_chunks_z, num_chunks_y, num_chunks_x, 2)]; the last axis, of
    length two, is the pair (min, max) of a cell. *)
Record ChunkGrid : Type := mkChunkGrid {
  num_chunks_z : nat;
  num_chunks_y : nat;
  num_chunks_x : nat;
  cells : list (list (list (R * R)))
}.

(** [grid[iz, iy, ix, 0]] and [grid[iz, iy, ix, 1]] *)
Definition cell (g : ChunkGrid) (iz iy ix : nat) : option (R * R) :=
  get3 (cells g) iz iy ix.

Definition total_chunks (g : ChunkGrid) : nat :=
  num_chunks_x g * num_chunks_y g * num_chunks_z g.

(** [a // b] on non-negative integers. *)
Definition floor_div (a b : nat) : result nat :=
  match b with
  | O => Raise ZeroDivisionError
  | S _ => Ok (a / b)
  end.

(** [((n + chunk_size - 1) // chunk_size) * chunk_size] *)
Definition round_up (n chunk_size : nat) : result nat :=
  try q ⇐ floor_div (n + chunk_size - 1) chunk_size;
  Ok (q * chunk_size).

(** [a[iz, iy, ix] = f(a[iz, iy, ix])] *)
Definition alter3 {A} (f : A → A) (iz iy ix : nat)
    (a : list (list (list A))) : list (list (list A)) :=
  alter (alter (alter f ix) iy) iz a.

(** The zero-extended copy made when a dimension is not a multiple of the
    chunk size: [np.zeros] of the padded shape with the volume assigned to
    its leading block. *)
Definition pad_volume (volume : Volume)
    (padded_depth padded_height padded_width : nat) : Volume :=
  assign_block (full padded_depth padded_height padded_width 0%R) volume.

(** The sub-array [volume[z_start:z_end, y_start:y_end, x_start:x_end]] of
    chunk [(iz, iy, ix)]. *)
Definition chunk_of (volume : Volume) (chunk_size iz iy ix : nat) : Volume :=
  let z_start := iz * chunk_size in
  let y_start := iy * chunk_size in
  let x_start := ix * chunk_size in
  let z_end := z_start + chunk_size in
  let y_end := y_start + chunk_size in
  let x_end := x_start + chunk_size in
  slice3 (range z_start z_end) (range y_start y_end) (range x_start x_end)
    volume.

(** The body of the innermost loop: the two assignments to
    [chunk_minmax[iz, iy, ix, 0]] and [chunk_minmax[iz, iy, ix, 1]].
    The extrema of float32 voxels are float32 values, which the float32
    array [chunk_minmax] holds as they are; [IEEE.chunk_step] has the
    rounding of other values. *)
Definition chunk_step (volume : Volume) (chunk_size : nat)
    (chunk_minmax : list (list (list (R * R)))) (iz iy ix : nat)
  : result (list (list (list (R * R)))) :=
  let chunk := chunk_of volume chunk_size iz iy ix in
  try lo ⇐ np_min (ravel chunk);
  let chunk_minmax := alter3 (λ c, (lo, c.2)) iz iy ix chunk_minmax in
  try hi ⇐ np_max (ravel chunk);
  Ok (alter3 (λ c, (c.1, hi)) iz iy ix chunk_minmax).

Definition compute_chunk_minmax (volume : Volume) (chunk_size : nat)
  : result ChunkGrid :=
  let '(depth, height, width) := shape3 volume in
  try padded_depth ⇐ round_up depth chunk_size;
  try padded_height ⇐ round_up height chunk_size;
  try padded_width ⇐ round_up width chunk_size;
  let volume :=
    if (depth <? padded_depth) || (height <? padded_height)
       || (width <? padded_width)
    then pad_volume volume padded_depth padded_height padded_width
    else volume in
  try num_chunks_z ⇐ floor_div padded_depth chunk_size;
  try num_chunks_y ⇐ floor_div padded_height chunk_size;
  try num_chunks_x ⇐ floor_div padded_width chunk_size;
  let chunk_minmax := full num_chunks_z num_chunks_y num_chunks_x (0%R, 0%R) in
  try chunk_minmax ⇐
    for_each (λ chunk_minmax iz,
      for_each (λ chunk_minmax iy,
        for_each (λ chunk_minmax ix,
          chunk_step volume chunk_size chunk_minmax iz iy ix)
          (seq 0 num_chunks_x) chunk_minmax)
        (seq 0 num_chunks_y) chunk_minmax)
      (seq 0 num_chunks_z) chunk_minmax;
  Ok (mkChunkGrid num_chunks_z num_chunks_y num_chunks_x chunk_minmax).

(** The loop nest of [compute_chunk_minmax] on its own, for the lemmas
    about it. *)
Definition chunk_loops (volume : Volume) (chunk_size nz ny nx : nat)
    (grid : list (list (list (R * R))))
  : result (list (list (list (R * R)))) :=
  for_each (λ chunk_minmax iz,
    for_each (λ chunk_minmax iy,
      for_each (λ chunk_minmax ix,
        chunk_step volume chunk_size chunk_minmax iz iy ix)
        (seq 0 nx) chunk_minmax)
      (seq 0 ny) chunk_minmax)
    (seq 0 nz) grid.

(** The index triples of a loop nest, in iteration order. *)
Definition nest_indices (nz ny nx : nat) : list (nat * (nat * nat)) :=
  iz ← seq 0 nz; pair iz <$> (iy ← seq 0 ny; pair iy <$> seq 0 nx).

(** The number of chunks along an axis of length [n], as the source
    computes it: [((n + chunk_size - 1) // chunk_size) * chunk_size
    // chunk_size]. *)
Definition chunk_count (n chunk_size : nat) : nat :=
  (n + chunk_size - 1) / chunk_size.

(** The pair that the two assignments of [chunk_step] leave in a cell:
    [np.min] and [np.max] of a non-empty chunk. *)
Definition extrema (l : list R) : R * R :=
  match l with
  | [] => (0%R, 0%R)
  | x :: l' => (foldl Rmin x l', foldl Rmax x l')
  end.

(** *** The specification's vocabulary *)

(** [k] is the ceiling of [n / c]: the least [k] with [n ≤ k * c]. *)
Definition is_ceiling (n c k : nat) : Prop :=
  n ≤ k * c ∧ ∀ k', n ≤ k' * c → k ≤ k'.

(** The value at [(z, y, x)] of the volume extended by zeros. *)
Definition padded_voxel (volume : Volume) (z y x : nat) : R :=
  default 0%R (get3 volume z y x).

(** Voxel [(z, y, x)] lies in the cube of cell [(iz, iy, ix)]. *)
Definition in_chunk (chunk_size iz iy ix z y x : nat) : Prop :=
  (iz * chunk_size ≤ z < iz * chunk_size + chunk_size) ∧
  (iy * chunk_size ≤ y < iy * chunk_size + chunk_size) ∧
  (ix * chunk_size ≤ x < ix * chunk_size + chunk_size).

(** [m] is the least, respectively the greatest, value of [f] on the
    voxels that satisfy [P]. *)
Definition is_min_over (P : nat → nat → nat → Prop)
    (f : nat → nat → nat → R) (m : R) : Prop :=
  (∃ z y x, P z y x ∧ f z y x = m) ∧ ∀ z y x, P z y x → (m <= f z y x)%R.

Definition is_max_over (P : nat → nat → nat → Prop)
    (f : nat → nat → nat → R) (m : R) : Prop :=
  (∃ z y x, P z y x ∧ f z y x = m) ∧ ∀ z y x, P z y x → (f z y x <= m)%R.

(** ** Console output and files: the monad [M] *)

(** 16-bit words of the persisted slice files. *)
Definition float16 : Type := N.

(** Values of the metadata dictionary. *)
Inductive json : Type :=
| JInt (n : Z)
| JFloat (x : R)
| JStr (s : string)
| JBool (b : bool)
| JList (l : list string).

(** The console lines that report on smoothing, on failure and on
    completion.  The progress lines of the source (scanning, loading,
    saving, chunk statistics) are not recorded. *)
Inductive message : Type :=
| CupyUnavailableReturningUnsmoothed
    (* "CuPy not available - returning unsmoothed volume" *)
| ApplyingSmoothing (iterations : Z)
    (* "Applying Perona-Malik smoothing on GPU (n iterations)..." *)
| IterationComplete (iteration : nat) (iterations : Z)
    (* "  Iteration i/n complete" *)
| SmoothingComplete
    (* "Smoothing complete" *)
| NoValidDicomFiles
    (* "No valid DICOM files found!" *)
| SmoothingRequestedButCupyUnavailable
    (* "Smoothing requested but CuPy not available - saving unsmoothed
       volume" *)
| ConversionComplete
    (* "Conversion complete!" *)
| SummarySmoothingApplied (smoothing_iterations : Z)
    (* "   Smoothing: Applied (n iterations)" *)
| SummarySmoothingSkipped.
    (* "   Smoothing: Skipped" *)

Inductive event : Type :=
| Stdout (m : message)
| Mkdir
    (* output_dir.mkdir(parents=True, exist_ok=True) *)
| WriteSlice (i : nat) (data : list (list float16))
    (* volume_f16[i].tofile("slice_%04d.raw") *)
| WriteChunkMinmax (data : list R)
    (* chunk_minmax.astype(np.float32).tofile("chunk_minmax.bin") *)
| WriteMetadata (metadata : list (string * json)).
    (* json.dump(metadata, "metadata.json") *)

(** A run: the events performed so far and, unless an exception was
    raised, a value.  The calls behind the events ([print], [mkdir],
    [tofile], [open], [json.dump]) are taken to succeed: an [OSError] of
    the file system is outside the model. *)
Definition M (A : Type) : Type := list event * result A.

Definition mret {A} (a : A) : M A := ([], Ok a).
Definition emit (e : event) : M () := ([e], Ok ()).
Definition print (m : message) : M () := emit (Stdout m).
Definition lift {A} (r : result A) : M A := ([], r).

Definition mbind {A B} (m : M A) (k : A → M B) : M B :=
  match m.2 with
  | inl e => (m.1, inl e)
  | inr a => (m.1 ++ (k a).1, (k a).2)
  end.

Declare Scope run_scope.
Delimit Scope run_scope with run.
Notation "'do' x ← m ; k" := (mbind m (λ x, k))
  (at level 10, x name, m at level 100, k at level 200,
   format "'[v' 'do'  x  ←  m ; '/' k ']'") : run_scope.
Notation "m ;; k" := (mbind m (λ _, k))
  (at level 100, k at level 200, right associativity,
   format "'[v' m ;; '/' k ']'") : run_scope.

(** [for x in xs: state = body(state, x)] with effects. *)
Fixpoint mfor_each {S I} (body : S → I → M S) (xs : list I) (s : S) : M S :=
  match xs with
  | [] => mret s
  | x :: xs' => mbind (body s x) (mfor_each body xs')
  end.

(** ** The diffusion solver: [perona_malik_gpu] *)

(** [exp(-(g / K) ** 2)] *)
Definition exponential_coefficient (K g : R) : R :=
  (exp (- (g / K) ^ 2))%R.

(** [1.0 / (1.0 + (g / K) ** 2)] *)
Definition rational_coefficient (K g : R) : R :=
  (1 / (1 + (g / K) ^ 2))%R.

(** The branch on [diffusion_type == 1]. *)
Definition diffusion_coefficient (diffusion_type : Z) (K g : R) : R :=
  if (diffusion_type =? 1)%Z then exponential_coefficient K g
  else rational_coefficient K g.

(** The arithmetic of one iteration: from the field [vol_gpu] to the
    expression [center + lambda_param * divergence]. *)
Definition diffusion_update (vol_gpu : Volume) (K lambda_param : R)
    (diffusion_type : Z) : result Volume :=
  try padded ⇐ pad_edge vol_gpu;
  let north := slice3 (upto (-2)) (between 1 (-1)) (between 1 (-1)) padded in
  let south := slice3 (from 2) (between 1 (-1)) (between 1 (-1)) padded in
  let west := slice3 (between 1 (-1)) (upto (-2)) (between 1 (-1)) padded in
  let east := slice3 (between 1 (-1)) (from 2) (between 1 (-1)) padded in
  let up := slice3 (between 1 (-1)) (between 1 (-1)) (upto (-2)) padded in
  let down := slice3 (between 1 (-1)) (between 1 (-1)) (from 2) padded in
  let center := vol_gpu in
  let grad_n := map3 Rabs (zip3 Rminus north center) in
  let grad_s := map3 Rabs (zip3 Rminus south center) in
  let grad_w := map3 Rabs (zip3 Rminus west center) in
  let grad_e := map3 Rabs (zip3 Rminus east center) in
  let grad_u := map3 Rabs (zip3 Rminus up center) in
  let grad_d := map3 Rabs (zip3 Rminus down center) in
  let c_n := map3 (diffusion_coefficient diffusion_type K) grad_n in
  let c_s := map3 (diffusion_coefficient diffusion_type K) grad_s in
  let c_w := map3 (diffusion_coefficient diffusion_type K) grad_w in
  let c_e := map3 (diffusion_coefficient diffusion_type K) grad_e in
  let c_u := map3 (diffusion_coefficient diffusion_type K) grad_u in
  let c_d := map3 (diffusion_coefficient diffusion_type K) grad_d in
  let divergence :=
    zip3 Rplus (zip3 Rplus (zip3 Rplus (zip3 Rplus (zip3 Rplus
      (zip3 Rmult c_n (zip3 Rminus north center))
      (zip3 Rmult c_s (zip3 Rminus south center)))
      (zip3 Rmult c_w (zip3 Rminus west center)))
      (zip3 Rmult c_e (zip3 Rminus east center)))
      (zip3 Rmult c_u (zip3 Rminus up center)))
      (zip3 Rmult c_d (zip3 Rminus down center)) in
  Ok (zip3 Rplus center (map3 (Rmult lambda_param) divergence)).

(** One pass of the loop body on the two buffers: the update is written
    into [output_gpu] in place, then the buffers are swapped. *)
Definition diffusion_iteration (K lambda_param : R) (diffusion_type : Z)
    (iterations : Z) (buffers : Volume * Volume) (iteration : nat)
  : M (Volume * Volume) :=
  let '(vol_gpu, output_gpu) := buffers in
  (do updated ← lift (diffusion_update vol_gpu K lambda_param diffusion_type);
   let output_gpu := assign_block output_gpu updated in
   let '(vol_gpu, output_gpu) := (output_gpu, vol_gpu) in
   print (IterationComplete (iteration + 1) iterations);;
   mret (vol_gpu, output_gpu))%run.

(** [perona_malik_gpu], with the module-level flag [HAS_CUPY] as its
    first argument.  [cp.asarray(volume, dtype=cp.float32)] and
    [cp.asnumpy] copy a float32 array between host and device and are
    the identity here; [IEEE.perona_malik_gpu] has the rounding of an
    array of another type. *)
Definition perona_malik_gpu (HAS_CUPY : bool) (volume : Volume)
    (iterations : Z) (K lambda_param : R) (diffusion_type : Z)
  : M Volume :=
  (if negb HAS_CUPY then
     print CupyUnavailableReturningUnsmoothed;;
     mret volume
   else
     print (ApplyingSmoothing iterations);;
     let vol_gpu := volume in
     let output_gpu := map3 (λ _, 0%R) vol_gpu in
     do buffers ← mfor_each
         (diffusion_iteration K lambda_param diffusion_type iterations)
         (seq 0 (Z.to_nat iterations)) (vol_gpu, output_gpu);
     let result := buffers.1 in
     print SmoothingComplete;;
     mret result)%run.

(** The properties claimed of a coefficient formula [c] on gradient
    magnitudes [g ≥ 0]: values in (0, 1], the value 1 exactly at 0, and
    strict decrease. *)
Definition coefficient_law (c : R → R) : Prop :=
  (∀ g, 0 <= g → 0 < c g <= 1)%R ∧
  (∀ g, 0 <= g → c g = 1 ↔ g = 0)%R ∧
  (∀ g1 g2, 0 <= g1 → g1 < g2 → c g2 < c g1)%R.

(** ** The conversion driver: [convert_dicom_series] *)

(** A DICOM dataset as the driver uses it: the stored pixel values, the
    two calibration attributes when present, and the tag lookup of
    [extract_metadata]'s helper [safe_get(ds, attr, default)]. *)
Record Dataset : Type := mkDataset {
  pixel_array : list (list Z);
  RescaleSlope : option R;
  RescaleIntercept : option R;
  safe_get : string → string → json
}.

(** [a.shape] of a 2-D array. *)
Definition shape2 {A} (a : list (list A)) : nat * nat :=
  (length a, length (default [] (head a))).

(** One axis of numpy broadcasting in an assignment: equal lengths, or a
    source axis of length one that is repeated. *)
Definition broadcast_axis {A} (n : nat) (l : list A) : result (list A) :=
  if decide (length l = n) then Ok l
  else match l with
       | [x] => Ok (replicate n x)
       | _ => Raise BroadcastError
       end.

(** The value stored by [volume[i] = data] into a slot of shape [(h, w)]. *)
Definition broadcast_to (h w : nat) (data : list (list R))
  : result (list (list R)) :=
  try rows ⇐ collect (broadcast_axis w) data;
  broadcast_axis h rows.

(** [min(global_min, slice_min)] and [max(global_max, slice_max)], where
    [None] is the initial [float('inf')], respectively [float('-inf')]. *)
Definition min_with (global_min : option R) (slice_min : R) : option R :=
  Some (from_option (λ m, Rmin m slice_min) slice_min global_min).
Definition max_with (global_max : option R) (slice_max : R) : option R :=
  Some (from_option (λ m, Rmax m slice_max) slice_max global_max).

(** The loading loop: [for i, ds in enumerate(sorted_files)]. *)
Definition load_slice (height width : nat)
    (state : Volume * option R * option R) (item : nat * Dataset)
  : result (Volume * option R * option R) :=
  let '(volume, global_min, global_max) := state in
  let '(i, ds) := item in
  let rescale_slope := default 1%R (RescaleSlope ds) in
  let rescale_intercept := default 0%R (RescaleIntercept ds) in
  let data :=
    (λ row : list Z, (λ p, IZR p * rescale_slope + rescale_intercept)%R <$> row)
      <$> pixel_array ds in
  try slice_min ⇐ np_min (concat data);
  try slice_max ⇐ np_max (concat data);
  let global_min := min_with global_min slice_min in
  let global_max := max_with global_max slice_max in
  try stored ⇐ broadcast_to height width data;
  Ok (<[i := stored]> volume, global_min, global_max).

(** [d[key] = value] on a dictionary kept in insertion order. *)
Fixpoint dict_set (key : string) (value : json) (d : list (string * json))
  : list (string * json) :=
  match d with
  | [] => [(key, value)]
  | (k, v) :: d' =>
      if decide (k = key) then (k, value) :: d'
      else (k, v) :: dict_set key value d'
  end.

Definition ascii_upper (c : ascii) : ascii :=
  let n := nat_of_ascii c in
  if (97 <=? n) && (n <=? 122) then ascii_of_nat (n - 32) else c.

Fixpoint upper (s : string) : string :=
  match s with
  | EmptyString => EmptyString
  | String c s' => String (ascii_upper c) (upper s')
  end.

(** [float(global_min)] as written by [json.dump]. *)
Definition json_of_extremum (negative : bool) (g : option R) : json :=
  match g with
  | Some x => JFloat x
  | None => JStr (if negative then "-Infinity" else "Infinity")
  end.

(** The branch of [convert_dicom_series] on [apply_smoothing] and
    [HAS_CUPY], on its own for the lemmas about it. *)
Definition smoothing_step (HAS_CUPY apply_smoothing : bool)
    (volume : Volume) (smoothing_iterations : Z) : M Volume :=
  if apply_smoothing && HAS_CUPY then
    perona_malik_gpu HAS_CUPY volume smoothing_iterations 50%R 0.1%R 2
  else if apply_smoothing && negb HAS_CUPY then
    mbind (print SmoothingRequestedButCupyUnavailable) (λ _, mret volume)
  else mret volume.

(** The events of the loop that saves the slices [indices] of
    [volume_f16]. *)
Definition slice_writes (volume_f16 : list (list (list float16)))
    (indices : list nat) : list event :=
  (λ i, WriteSlice i (default [] (volume_f16 !! i))) <$> indices.

Section Driver.

(** [np.float16(x)]: the library's cast of one value. *)
Variable astype_float16 : R → float16.
(** [hashlib.sha256(s.encode('utf-8')).hexdigest()] *)
Variable sha256_hexdigest : string → string.
(** [str(v)] of a tag value that is not a string. *)
Variable py_str : json → string.

(** [str(v)] and the text of [v] in an f-string: a string is itself. *)
Definition str_of (v : json) : string :=
  match v with
  | JStr s => s
  | _ => py_str v
  end.

Definition anonymize_identifier (identifier : json) : string :=
  let salt := "medical_volume_renderer" in
  match identifier with
  | JStr "" | JList [] => "UNKNOWN"
  | _ =>
      let hash_input := salt +:+ ":" +:+ str_of identifier in
      let hash_result := sha256_hexdigest hash_input in
      upper (substring 0 16 hash_result)
  end.

Definition extract_metadata (dicom_files : list Dataset)
    (global_min global_max : option R) (anonymize : bool)
  : list (string * json) :=
  match dicom_files with
  | [] => []
  | first_ds :: _ =>
      let pixel_array := pixel_array first_ds in
      let patient_name := safe_get first_ds "PatientName" "" in
      let patient_id := safe_get first_ds "PatientID" "" in
      let study_uid := safe_get first_ds "StudyInstanceUID" "" in
      let series_uid := safe_get first_ds "SeriesInstanceUID" "" in
      let '(patient_name, patient_id, study_uid, series_uid) :=
        if anonymize then
          (JStr ("ANON_" +:+ anonymize_identifier patient_name),
           JStr ("ID_" +:+ anonymize_identifier patient_id),
           JStr ("STUDY_" +:+
                 anonymize_identifier (JStr (substring 0 64 (str_of study_uid)))),
           JStr ("SERIES_" +:+
                 anonymize_identifier (JStr (substring 0 64 (str_of series_uid)))))
        else (patient_name, patient_id, study_uid, series_uid) in
      [ ("numSlices", JInt (Z.of_nat (length dicom_files)));
        ("width", JInt (Z.of_nat (shape2 pixel_array).2));
        ("height", JInt (Z.of_nat (shape2 pixel_array).1));
        ("format", JStr "float16");
        ("bytesPerVoxel", JInt 2);
        ("anonymized", JBool anonymize);
        ("patientName", patient_name);
        ("patientID", patient_id);
        ("patientBirthDate", safe_get first_ds "PatientBirthDate" "");
        ("patientSex", safe_get first_ds "PatientSex" "");
        ("studyDate", safe_get first_ds "StudyDate" "");
        ("studyTime", safe_get first_ds "StudyTime" "");
        ("studyDescription", safe_get first_ds "StudyDescription" "");
        ("studyInstanceUID", study_uid);
        ("seriesNumber", safe_get first_ds "SeriesNumber" "");
        ("seriesDescription", safe_get first_ds "SeriesDescription" "");
        ("seriesInstanceUID", series_uid);
        ("modality", safe_get first_ds "Modality" "");
        ("pixelSpacing", safe_get first_ds "PixelSpacing" "");
        ("sliceThickness", safe_get first_ds "SliceThickness" "");
        ("imageOrientationPatient",
           safe_get first_ds "ImageOrientationPatient" "");
        ("imagePositionPatient", safe_get first_ds "ImagePositionPatient" "");
        ("windowCenter", safe_get first_ds "WindowCenter" "");
        ("windowWidth", safe_get first_ds "WindowWidth" "");
        ("rescaleSlope", safe_get first_ds "RescaleSlope" "1.0");
        ("rescaleIntercept", safe_get first_ds "RescaleIntercept" "0.0");
        ("huMin", json_of_extremum false global_min);
        ("huMax", json_of_extremum true global_max) ]
  end.

(** The first statements of [convert_dicom_series]. *)
Definition validate_chunk_size (chunk_size : Z) : result () :=
  if negb (chunk_size `mod` 16 =? 0)%Z then
    Raise (ChunkSizeNotMultipleOf16 chunk_size)
  else if (chunk_size <? 16)%Z || (256 <? chunk_size)%Z then
    Raise (ChunkSizeOutOfRange chunk_size)
  else Ok ().

(** The contents of [chunk_minmax.bin]: the cells in row-major
    (z, y, x, channel) order. *)
Definition chunk_file (g : ChunkGrid) : list R :=
  c ← ravel (cells g); [c.1; c.2].

(** [convert_dicom_series], with the module-level flag [HAS_CUPY] as its
    first argument and, in place of [input_dir], the datasets that
    [sort_dicom_slices(read_dicom_files(input_dir))] yields. *)
Definition convert_dicom_series (HAS_CUPY : bool)
    (sorted_files : list Dataset) (apply_smoothing : bool)
    (smoothing_iterations : Z) (chunk_size : Z) (anonymize : bool)
  : M () :=
  (lift (validate_chunk_size chunk_size);;
   emit Mkdir;;
   match sorted_files with
   | [] =>
       print NoValidDicomFiles;;
       mret ()
   | first_ds :: _ =>
       let '(height, width) := shape2 (pixel_array first_ds) in
       let num_slices := length sorted_files in
       let volume := full num_slices height width 0%R in
       do loaded ← lift (for_each (load_slice height width)
                           (imap pair sorted_files) (volume, None, None));
       let '(volume, global_min, global_max) := loaded in
       do volume ←
         (if apply_smoothing && HAS_CUPY then
            perona_malik_gpu HAS_CUPY volume smoothing_iterations
              50%R 0.1%R 2
          else if apply_smoothing && negb HAS_CUPY then
            print SmoothingRequestedButCupyUnavailable;;
            mret volume
          else mret volume);
       do chunk_minmax ←
         lift (compute_chunk_minmax volume (Z.to_nat chunk_size));
       let volume_f16 := map3 astype_float16 volume in
       mfor_each (λ _ i,
           do slice ← lift (index volume_f16 i);
           emit (WriteSlice i slice))
         (seq 0 num_slices) ();;
       emit (WriteChunkMinmax (chunk_file chunk_minmax));;
       let metadata :=
         extract_metadata sorted_files global_min global_max anonymize in
       let metadata := dict_set "chunkSize" (JInt chunk_size) metadata in
       let metadata :=
         dict_set "numChunksX"
           (JInt (Z.of_nat (num_chunks_x chunk_minmax))) metadata in
       let metadata :=
         dict_set "numChunksY"
           (JInt (Z.of_nat (num_chunks_y chunk_minmax))) metadata in
       let metadata :=
         dict_set "numChunksZ"
           (JInt (Z.of_nat (num_chunks_z chunk_minmax))) metadata in
       let metadata :=
         dict_set "totalChunks"
           (JInt (Z.of_nat (num_chunks_z chunk_minmax
                            * num_chunks_y chunk_minmax
                            * num_chunks_x chunk_minmax))) metadata in
       emit (WriteMetadata metadata);;
       print ConversionComplete;;
       (if apply_smoothing && HAS_CUPY then
          print (SummarySmoothingApplied smoothing_iterations)
        else print SummarySmoothingSkipped)
   end)%run.

(** The dictionary that [convert_dicom_series] writes to
    [metadata.json]: the result of [extract_metadata] with the five chunk
    entries added. *)
Definition metadata_of (sorted_files : list Dataset)
    (global_min global_max : option R) (anonymize : bool) (chunk_size : Z)
    (chunk_minmax : ChunkGrid) : list (string * json) :=
  dict_set "totalChunks"
    (JInt (Z.of_nat (num_chunks_z chunk_minmax * num_chunks_y chunk_minmax
                     * num_chunks_x chunk_minmax)))
    (dict_set "numChunksZ" (JInt (Z.of_nat (num_chunks_z chunk_minmax)))
       (dict_set "numChunksY" (JInt (Z.of_nat (num_chunks_y chunk_minmax)))
          (dict_set "numChunksX" (JInt (Z.of_nat (num_chunks_x chunk_minmax)))
             (dict_set "chunkSize" (JInt chunk_size)
                (extract_metadata sorted_files global_min global_max
                   anonymize))))).

End Driver.

(** The keys of [metadata.json], in insertion order. *)
Definition metadata_keys : list string :=
  [ "numSlices"; "width"; "height"; "format"; "bytesPerVoxel"; "anonymized";
    "patientName"; "patientID"; "patientBirthDate"; "patientSex";
    "studyDate"; "studyTime"; "studyDescription"; "studyInstanceUID";
    "seriesNumber"; "seriesDescription"; "seriesInstanceUID"; "modality";
    "pixelSpacing"; "sliceThickness"; "imageOrientationPatient";
    "imagePositionPatient"; "windowCenter"; "windowWidth"; "rescaleSlope";
    "rescaleIntercept"; "huMin"; "huMax"; "chunkSize"; "numChunksX";
    "numChunksY"; "numChunksZ"; "totalChunks" ].

(** *** What a run leaves behind *)

Definition is_print (e : event) : bool :=
  match e with Stdout _ => true | _ => false end.

(** What a run leaves on disk: its events other than console lines. *)
Definition files_written (events : list event) : list event :=
  filter (λ e, is_print e = false) events.

(** The dictionaries written to [metadata.json] by a run. *)
Definition metadata_written (events : list event)
  : list (list (string * json)) :=
  omap (λ e, match e with WriteMetadata md => Some md | _ => None end) events.

(** What the caller of a run can see of its status: the value it returns
    (or the exception) and the metadata it wrote. *)
Definition reported_status (run : M ())
  : result () * list (list (string * json)) :=
  (run.2, metadata_written run.1).

(** ** Sample inputs *)

(** A 1 x 2 x 2 volume. *)
Definition sample_volume : Volume := [[[1%R; 2%R]; [3%R; 4%R]]].

(** A series of one 1 x 2 slice with stored values 0 and 100, no
    calibration attributes and no tags, and stand-ins for the three
    library functions. *)
Definition sample_dataset : Dataset :=
  mkDataset [[0; 100]]%Z None None (λ _ default, JStr default).
Definition example_astype_float16 (x : R) : float16 := 0%N.
Definition example_sha256_hexdigest (s : string) : string := s.
Definition example_py_str (v : json) : string :=
  match v with JStr s => s | _ => "" end.

(** The volume the driver loads from the sample series, as computed. *)
Definition sample_loaded : Volume :=
  [[[(IZR 0 * 1 + 0)%R; (IZR 100 * 1 + 0)%R]]].

(** A 3 x 3 x 3 volume of zeros with a one at its centre. *)
Definition unit_impulse : Volume :=
  [ [[0; 0; 0]; [0; 0; 0]; [0; 0; 0]];
    [[0; 0; 0]; [0; 1; 0]; [0; 0; 0]];
    [[0; 0; 0]; [0; 0; 0]; [0; 0; 0]] ]%R.

(** ** The series as data *)

(** [a] is a rectangular 2-D array of shape [(h, w)]. *)
Definition has_shape2 {A} (a : list (list A)) (h w : nat) : Prop :=
  length a = h ∧ Forall (λ row, length row = w) a.

(** A 2-D array as numpy has it: all rows of one length. *)
Definition rectangular {A} (a : list (list A)) : Prop :=
  has_shape2 a (shape2 a).1 (shape2 a).2.

(** The value in Hounsfield units of a stored pixel value of a slice:
    [p * rescale_slope + rescale_intercept], with the defaults 1 and 0. *)
Definition hounsfield (ds : Dataset) (p : Z) : R :=
  (IZR p * default 1 (RescaleSlope ds) + default 0 (RescaleIntercept ds))%R.

(** The array [data] of a slice in the loading loop. *)
Definition hu_data (ds : Dataset) : list (list R) :=
  (λ row : list Z, hounsfield ds <$> row) <$> pixel_array ds.

(** [d.get(key)] on a dictionary kept in insertion order. *)
Fixpoint dict_get (key : string) (d : list (string * json)) : option json :=
  match d with
  | [] => None
  | (k, v) :: d' => if decide (k = key) then Some v else dict_get key d'
  end.

(** What the loading loop has established after the first [k] slices of
    [files]: the volume keeps its shape, plane [i < k] holds the data of
    slice [i] as stored into a slot of shape [(h, w)], and the running
    extrema are those of the data of the slices seen. *)
Definition loaded_upto (files : list Dataset) (h w k : nat)
    (state : Volume * option R * option R) : Prop :=
  let '(volume, global_min, global_max) := state in
  has_shape volume (length files) h w ∧
  (∀ i ds, i < k → files !! i = Some ds →
     ∃ stored, volume !! i = Some stored ∧
               broadcast_to h w (hu_data ds) = Ok stored) ∧
  (k = 0 → global_min = None ∧ global_max = None) ∧
  (0 < k →
   ∃ lo hi,
     global_min = Some lo ∧ global_max = Some hi ∧
     (∃ i ds, i < k ∧ files !! i = Some ds ∧ lo ∈ concat (hu_data ds)) ∧
     (∃ i ds, i < k ∧ files !! i = Some ds ∧ hi ∈ concat (hu_data ds)) ∧
     (∀ i ds a, i < k → files !! i = Some ds → a ∈ concat (hu_data ds) →
        (lo <= a <= hi)%R)).

(** A series all of whose slices have the shape [(h, w)]. *)
Definition uniform_series (h w : nat) (files : list Dataset) : Prop :=
  Forall (λ ds, has_shape2 (pixel_array ds) h w) files.

(** A slice of shape 1 x 3, which does not fit a volume of 1 x 2
    slices. *)
Definition mismatched_dataset : Dataset :=
  mkDataset [[1; 2; 3]]%Z None None (λ _ default, JStr default).

(** A stand-in for SHA-256 with digests of the right length. *)
Definition example_digest64 (s : string) : string :=
  "0123456789abcdef0123456789abcdef0123456789abcdef0123456789abcdef".

(** ** Sorting the slices: [sort_dicom_slices] *)

(** The attributes of a dataset that [get_sort_key] reads, as numbers;
    [None] is an attribute that is absent or is [None].  A position is a
    multi-valued element, which pydicom hands over as a list: its first
    two values and the others.  (An element with one value is handed
    over as the value itself, not as a list; such a position is outside
    the model.) *)
Record SortAttributes : Type := mkSortAttributes {
  InstanceNumber : option R;
  SliceLocation : option R;
  ImagePositionPatient : option (R * R * list R)
}.

(** The nested function [get_sort_key]: the attributes in order of
    preference, then 0. *)
Definition get_sort_key (ds : SortAttributes) : result R :=
  match InstanceNumber ds with
  | Some instance_number => Ok instance_number
  | None =>
      match SliceLocation ds with
      | Some slice_location => Ok slice_location
      | None =>
          match ImagePositionPatient ds with
          | Some (x, y, others) => index (x :: y :: others) 2
          | None => Ok 0%R
          end
      end
  end.

(** Equality of keys is decidable (classically, as the order of the reals
    is). *)
#[global] Instance Req_decision : EqDecision R := Req_dec_T.

(** [sorted(items, key=...)] on items paired with their keys: Python's
    sort is stable, so that items with equal keys keep their order; an
    item goes in front of the first item of the sorted rest whose key is
    not smaller. *)
Fixpoint insert_by_key {A} (item : R * A) (sorted : list (R * A))
  : list (R * A) :=
  match sorted with
  | [] => [item]
  | other :: sorted' =>
      if Rle_dec item.1 other.1 then item :: other :: sorted'
      else other :: insert_by_key item sorted'
  end.

Definition sorted_by_key {A} (items : list (R * A)) : list (R * A) :=
  foldr insert_by_key [] items.

(** [sort_dicom_slices], for datasets of any type [A] whose sorting
    attributes [attributes] reads: the keys are computed first, in
    order, and the first key that raises ends the call. *)
Definition sort_dicom_slices {A} (attributes : A → SortAttributes)
    (dicom_files : list A) : result (list A) :=
  try keys ⇐ collect (λ ds, get_sort_key (attributes ds)) dicom_files;
  let sorted_files := (sorted_by_key (zip keys dicom_files)).*2 in
  Ok sorted_files.

(** Three datasets with instance numbers 3, 1 and 2. *)
Definition sample_attributes : list SortAttributes :=
  [ mkSortAttributes (Some 3%R) None None;
    mkSortAttributes (Some 1%R) None None;
    mkSortAttributes (Some 2%R) None None ].

(** Two datasets without any of the three attributes, told apart by a
    number, and one whose position has two components only. *)
Definition unkeyed_attributes : list (nat * SortAttributes) :=
  [ (7, mkSortAttributes None None None);
    (4, mkSortAttributes None None None) ].
Definition short_position : SortAttributes :=
  mkSortAttributes None None (Some (0%R, 0%R, [])).

(** ** The command line: [main] *)

(** [args], as [parser.parse_args()] returns it. *)
Record Arguments : Type := mkArguments {
  args_input : string;
  args_output : string;
  args_no_smooth : bool;
  args_iterations : Z;
  args_chunk_size : Z;
  args_no_anonymize : bool
}.

(** What [main] itself prints. *)
Inductive main_message : Type :=
| ChunkSizeMustBeMultipleOf16 (chunk_size : Z)
| ChunkSizeMustBeBetween16And256 (chunk_size : Z)
| InputDirectoryDoesNotExist
| InputPathIsNotADirectory
| WillNotBeAnonymized
    (* the warning between two rules, and the prompt of input() *)
| ConversionCancelled
| Banner (chunk_size : Z) (smoothing : option Z) (anonymize : bool)
| ErrorDuringConversion (e : exn).
    (* the error line and the traceback *)

(** The events of a run of [main]: its own lines and the events of the
    conversion it calls. *)
Inductive main_event : Type :=
| Line (m : main_message)
| Conversion (e : event).

(** How a run of [main] ends: it returns, or [sys.exit(code)]. *)
Inductive outcome : Type :=
| Returned
| Exited (code : Z).

Definition ascii_lower (c : ascii) : ascii :=
  let n := nat_of_ascii c in
  if (65 <=? n) && (n <=? 90) then ascii_of_nat (n + 32) else c.

Fixpoint lower (s : string) : string :=
  match s with
  | EmptyString => EmptyString
  | String c s' => String (ascii_lower c) (lower s')
  end.

Section Main.
Variable astype_float16 : R → float16.
Variable sha256_hexdigest : string → string.
Variable py_str : json → string.

(** [main], after the arguments are parsed.  [HAS_CUPY] is the
    module-level flag; [input_exists] and [input_is_dir] are the answers
    of [input_dir.exists()] and [input_dir.is_dir()]; [response] is what
    [input()] returns if it is called; [sorted_files] are the datasets
    that reading and sorting the input directory yields. *)
Definition main (HAS_CUPY : bool) (args : Arguments)
    (input_exists input_is_dir : bool) (response : string)
    (sorted_files : list Dataset) : list main_event * outcome :=
  if negb (args_chunk_size args `mod` 16 =? 0)%Z then
    ([Line (ChunkSizeMustBeMultipleOf16 (args_chunk_size args))], Exited 1)
  else if (args_chunk_size args <? 16)%Z || (256 <? args_chunk_size args)%Z
  then
    ([Line (ChunkSizeMustBeBetween16And256 (args_chunk_size args))], Exited 1)
  else if negb input_exists then
    ([Line InputDirectoryDoesNotExist], Exited 1)
  else if negb input_is_dir then
    ([Line InputPathIsNotADirectory], Exited 1)
  else
    let anonymize := negb (args_no_anonymize args) in
    let warning := if negb anonymize then [Line WillNotBeAnonymized] else [] in
    if negb anonymize
       && negb (bool_decide (lower response ∈ ["yes"; "y"])) then
      (warning ++ [Line ConversionCancelled], Exited 0)
    else
      let banner :=
        Line (Banner (args_chunk_size args)
                (if args_no_smooth args then None
                 else Some (args_iterations args))
                anonymize) in
      let run :=
        convert_dicom_series astype_float16 sha256_hexdigest py_str HAS_CUPY
          sorted_files (negb (args_no_smooth args)) (args_iterations args)
          (args_chunk_size args) anonymize in
      match run.2 with
      | inr _ => (warning ++ banner :: (Conversion <$> run.1), Returned)
      | inl e =>
          (warning ++ banner :: (Conversion <$> run.1)
             ++ [Line (ErrorDuringConversion e)],
           Exited 1)
      end.

End Main.

(** The command line of a run that keeps the patient's identifiers. *)
Definition sample_arguments : Arguments :=
  mkArguments "in" "out" true 5 32 true.

(** The metadata that the run of [main] on [sample_arguments], with the
    answer "YES" and the one-slice series, writes. *)
Definition sample_metadata : list (string * json) :=
  match (main example_astype_float16 example_sha256_hexdigest example_py_str
           false sample_arguments true true "YES" [sample_dataset]).1 !! 5
  with
  | Some (Conversion (WriteMetadata metadata)) => metadata
  | _ => []
  end.

(** ** Binary floating point: the module [IEEE] *)

(** The second layer of the model.  A floating-point number is a
    [spec_float]: a signed zero, a signed infinity, NaN, or a finite
    number [± m * 2 ^ e]; a binary format is given by its precision and
    its exponent bound: (11, 16) for float16, (24, 128) for float32,
    (53, 1024) for float64 and Python's floats.  The functions of the
    source that compute with voxels are modelled again, with the
    rounding of every operation; they keep their names inside the
    module. *)
Module IEEE.

(** [x.astype(dtype)] and [asarray(x, dtype=dtype)] on one value: the
    nearest value of the binary format of precision [prec] and exponent
    bound [emax], ties to even; zeros, infinities and NaN are kept. *)
Definition astype (prec emax : Z) (x : spec_float) : spec_float :=
  match x with
  | S754_finite s m e => binary_round prec emax s m e
  | _ => x
  end.

Definition as_float16 : spec_float → spec_float := astype 11 16.
Definition as_float32 : spec_float → spec_float := astype 24 128.
Definition as_float64 : spec_float → spec_float := astype 53 1024.

(** The Python float (binary64) nearest to [m * 2 ^ e]. *)
Definition py_float (m e : Z) : spec_float :=
  binary_normalize 53 1024 m e false.

(** The float32 value nearest to [m * 2 ^ e]. *)
Definition float32 (m e : Z) : spec_float :=
  binary_normalize 24 128 m e false.

Definition is_finite (x : spec_float) : bool :=
  match x with
  | S754_zero _ | S754_finite _ _ _ => true
  | S754_infinity _ | S754_nan => false
  end.

(** Arrays of floating-point numbers. *)
Definition Volume : Type := list (list (list spec_float)).

(** Float32 arithmetic, as CuPy and numpy perform it on float32 arrays. *)
Definition add : spec_float → spec_float → spec_float := SFadd 24 128.
Definition sub : spec_float → spec_float → spec_float := SFsub 24 128.
Definition mul : spec_float → spec_float → spec_float := SFmul 24 128.
Definition div : spec_float → spec_float → spec_float := SFdiv 24 128.
Definition one : spec_float := SFone 24 128.
Definition zero : spec_float := S754_zero false.

(** [x ** 2], as the float32 product [x * x]. *)
Definition square (x : spec_float) : spec_float := mul x x.

Section Solver.

(** [cp.exp] on one float32 value. *)
Variable cp_exp : spec_float → spec_float.

(** [exp(-(g / K) ** 2)]; the Python float [K] meets the float32 array
    as a float32 scalar. *)
Definition exponential_coefficient (K g : spec_float) : spec_float :=
  cp_exp (SFopp (square (div g (as_float32 K)))).

(** [1.0 / (1.0 + (g / K) ** 2)] *)
Definition rational_coefficient (K g : spec_float) : spec_float :=
  div one (add one (square (div g (as_float32 K)))).

(** The branch on [diffusion_type == 1]. *)
Definition diffusion_coefficient (diffusion_type : Z) (K g : spec_float)
  : spec_float :=
  if (diffusion_type =? 1)%Z then exponential_coefficient K g
  else rational_coefficient K g.

(** The arithmetic of one iteration, in float32: from the field
    [vol_gpu] to the expression [center + lambda_param * divergence]. *)
Definition diffusion_update (vol_gpu : Volume) (K lambda_param : spec_float)
    (diffusion_type : Z) : result Volume :=
  try padded ⇐ pad_edge vol_gpu;
  let north := slice3 (upto (-2)) (between 1 (-1)) (between 1 (-1)) padded in
  let south := slice3 (from 2) (between 1 (-1)) (between 1 (-1)) padded in
  let west := slice3 (between 1 (-1)) (upto (-2)) (between 1 (-1)) padded in
  let east := slice3 (between 1 (-1)) (from 2) (between 1 (-1)) padded in
  let up := slice3 (between 1 (-1)) (between 1 (-1)) (upto (-2)) padded in
  let down := slice3 (between 1 (-1)) (between 1 (-1)) (from 2) padded in
  let center := vol_gpu in
  let grad_n := map3 SFabs (zip3 sub north center) in
  let grad_s := map3 SFabs (zip3 sub south center) in
  let grad_w := map3 SFabs (zip3 sub west center) in
  let grad_e := map3 SFabs (zip3 sub east center) in
  let grad_u := map3 SFabs (zip3 sub up center) in
  let grad_d := map3 SFabs (zip3 sub down center) in
  let c_n := map3 (diffusion_coefficient diffusion_type K) grad_n in
  let c_s := map3 (diffusion_coefficient diffusion_type K) grad_s in
  let c_w := map3 (diffusion_coefficient diffusion_type K) grad_w in
  let c_e := map3 (diffusion_coefficient diffusion_type K) grad_e in
  let c_u := map3 (diffusion_coefficient diffusion_type K) grad_u in
  let c_d := map3 (diffusion_coefficient diffusion_type K) grad_d in
  let divergence :=
    zip3 add (zip3 add (zip3 add (zip3 add (zip3 add
      (zip3 mul c_n (zip3 sub north center))
      (zip3 mul c_s (zip3 sub south center)))
      (zip3 mul c_w (zip3 sub west center)))
      (zip3 mul c_e (zip3 sub east center)))
      (zip3 mul c_u (zip3 sub up center)))
      (zip3 mul c_d (zip3 sub down center)) in
  Ok (zip3 add center (map3 (mul (as_float32 lambda_param)) divergence)).

(** One pass of the loop body on the two buffers. *)
Definition diffusion_iteration (K lambda_param : spec_float)
    (diffusion_type : Z) (iterations : Z) (buffers : Volume * Volume)
    (iteration : nat) : M (Volume * Volume) :=
  let '(vol_gpu, output_gpu) := buffers in
  (do updated ← lift (diffusion_update vol_gpu K lambda_param diffusion_type);
   let output_gpu := assign_block output_gpu updated in
   let '(vol_gpu, output_gpu) := (output_gpu, vol_gpu) in
   print (IterationComplete (iteration + 1) iterations);;
   mret (vol_gpu, output_gpu))%run.

(** [perona_malik_gpu] on an array of any floating-point type:
    [cp.asarray(volume, dtype=cp.float32)] rounds every voxel to float32
    before the loop, and the loop computes in float32. *)
Definition perona_malik_gpu (HAS_CUPY : bool) (volume : Volume)
    (iterations : Z) (K lambda_param : spec_float) (diffusion_type : Z)
  : M Volume :=
  (if negb HAS_CUPY then
     print CupyUnavailableReturningUnsmoothed;;
     mret volume
   else
     print (ApplyingSmoothing iterations);;
     let vol_gpu := map3 as_float32 volume in
     let output_gpu := map3 (λ _, zero) vol_gpu in
     do buffers ← mfor_each
         (diffusion_iteration K lambda_param diffusion_type iterations)
         (seq 0 (Z.to_nat iterations)) (vol_gpu, output_gpu);
     let result := buffers.1 in
     print SmoothingComplete;;
     mret result)%run.

End Solver.

(** [np.minimum] and [np.maximum] on two values: a NaN wins. *)
Definition minimum (a b : spec_float) : spec_float :=
  match a, b with
  | S754_nan, _ | _, S754_nan => S754_nan
  | _, _ => if SFltb b a then b else a
  end.

Definition maximum (a b : spec_float) : spec_float :=
  match a, b with
  | S754_nan, _ | _, S754_nan => S754_nan
  | _, _ => if SFltb a b then b else a
  end.

Definition np_min (l : list spec_float) : result spec_float :=
  match l with
  | [] => Raise EmptyReduction
  | x :: l' => Ok (foldl minimum x l')
  end.

Definition np_max (l : list spec_float) : result spec_float :=
  match l with
  | [] => Raise EmptyReduction
  | x :: l' => Ok (foldl maximum x l')
  end.

(** The float32 array returned by [compute_chunk_minmax]. *)
Record ChunkGrid : Type := mkChunkGrid {
  num_chunks_z : nat;
  num_chunks_y : nat;
  num_chunks_x : nat;
  cells : list (list (list (spec_float * spec_float)))
}.

Definition cell (g : ChunkGrid) (iz iy ix : nat)
  : option (spec_float * spec_float) :=
  get3 (cells g) iz iy ix.

Definition total_chunks (g : ChunkGrid) : nat :=
  num_chunks_x g * num_chunks_y g * num_chunks_z g.

(** [np.zeros] of the padded shape and of the type of the volume, with
    the volume assigned to its leading block. *)
Definition pad_volume (volume : Volume)
    (padded_depth padded_height padded_width : nat) : Volume :=
  assign_block (full padded_depth padded_height padded_width zero) volume.

Definition chunk_of (volume : Volume) (chunk_size iz iy ix : nat) : Volume :=
  let z_start := iz * chunk_size in
  let y_start := iy * chunk_size in
  let x_start := ix * chunk_size in
  let z_end := z_start + chunk_size in
  let y_end := y_start + chunk_size in
  let x_end := x_start + chunk_size in
  slice3 (range z_start z_end) (range y_start y_end) (range x_start x_end)
    volume.

(** The two assignments into [chunk_minmax], an array of float32: the
    extrema of the chunk are rounded to float32 when they are stored. *)
Definition chunk_step (volume : Volume) (chunk_size : nat)
    (chunk_minmax : list (list (list (spec_float * spec_float))))
    (iz iy ix : nat)
  : result (list (list (list (spec_float * spec_float)))) :=
  let chunk := chunk_of volume chunk_size iz iy ix in
  try lo ⇐ np_min (ravel chunk);
  let chunk_minmax :=
    alter3 (λ c, (as_float32 lo, c.2)) iz iy ix chunk_minmax in
  try hi ⇐ np_max (ravel chunk);
  Ok (alter3 (λ c, (c.1, as_float32 hi)) iz iy ix chunk_minmax).

(** [compute_chunk_minmax] on an array of any floating-point type. *)
Definition compute_chunk_minmax (volume : Volume) (chunk_size : nat)
  : result ChunkGrid :=
  let '(depth, height, width) := shape3 volume in
  try padded_depth ⇐ round_up depth chunk_size;
  try padded_height ⇐ round_up height chunk_size;
  try padded_width ⇐ round_up width chunk_size;
  let volume :=
    if (depth <? padded_depth) || (height <? padded_height)
       || (width <? padded_width)
    then pad_volume volume padded_depth padded_height padded_width
    else volume in
  try num_chunks_z ⇐ floor_div padded_depth chunk_size;
  try num_chunks_y ⇐ floor_div padded_height chunk_size;
  try num_chunks_x ⇐ floor_div padded_width chunk_size;
  let chunk_minmax := full num_chunks_z num_chunks_y num_chunks_x (zero, zero) in
  try chunk_minmax ⇐
    for_each (λ chunk_minmax iz,
      for_each (λ chunk_minmax iy,
        for_each (λ chunk_minmax ix,
          chunk_step volume chunk_size chunk_minmax iz iy ix)
          (seq 0 num_chunks_x) chunk_minmax)
        (seq 0 num_chunks_y) chunk_minmax)
      (seq 0 num_chunks_z) chunk_minmax;
  Ok (mkChunkGrid num_chunks_z num_chunks_y num_chunks_x chunk_minmax).

End IEEE.

(** The real number that a finite floating-point value denotes. *)
Definition float_value (x : spec_float) : R :=
  match x with
  | S754_finite s m e => (IZR (cond_Zopp s (Zpos m)) * powerRZ 2 e)%R
  | _ => 0%R
  end.

(** The reals that are float32 values. *)
Definition is_float32 (a : R) : Prop :=
  ∃ x, valid_binary 24 128 x = true ∧ IEEE.is_finite x = true ∧
       float_value x = a.

(** The unit in the last place of float16 at a finite value: the gap
    between the float16 values around it. *)
Definition ulp_float16 (x : spec_float) : R :=
  match x with
  | S754_finite _ m e => powerRZ 2 (fexp 11 16 (Zpos (digits2_pos m) + e))
  | _ => powerRZ 2 (-24)
  end.

(** A stand-in for [cp.exp] in the examples: the polynomial
    [1 + x + x * x / 2] in float32, which is 1 at both zeros. *)
Definition example_exp (x : spec_float) : spec_float :=
  IEEE.add IEEE.one
    (IEEE.add x (IEEE.mul (IEEE.mul x x) (IEEE.float32 1 (-1)))).

(** The Python floats 0.1, 0.7, 0.001 and 50.0, and the float32 value
    100.0. *)
Definition py_0_1 : spec_float := IEEE.py_float 3602879701896397 (-55).
Definition py_0_7 : spec_float := IEEE.py_float 6305039478318694 (-53).
Definition py_50 : spec_float := IEEE.py_float 50 0.
Definition float32_100 : spec_float := IEEE.float32 100 0.

(** [mrs] is what [k] right shifts leave of the mantissa [m0]: the
    quotient by [2 ^ k], with the round bit and the sticky bit that
    locate the remainder against half of [2 ^ k]. *)
Definition shifted (m0 k : Z) (mrs : shr_record) : Prop :=
  (0 ≤ shr_m mrs)%Z ∧
  ∃ t : Z,
    (0 ≤ t < 2 ^ k)%Z ∧
    (2 * m0 = 2 * (shr_m mrs * 2 ^ k)
              + (if shr_r mrs then 2 ^ k else 0) + t)%Z ∧
    (shr_s mrs = true ↔ (0 < t)%Z).


(** [float32_literal n] proves that the integer [n], of small magnitude,
    is a float32 value. *)
Ltac float32_literal n :=
  exists (IEEE.float32 n 0);
  split; [reflexivity|split; [reflexivity|]];
  vm_compute IEEE.float32; simpl; lra.

(** ** Index-level descriptions *)

(** The index of an axis of length [n] that position [i] of the
    edge-padded axis (of length [n + 2]) repeats. *)
Definition edge_index (n i : nat) : nat := Nat.min (i - 1) (n - 1).

(** The voxel [volume[z, y, x]] as a number (zero where there is none). *)
Definition voxel (volume : Volume) (z y x : nat) : R :=
  default 0%R (get3 volume z y x).

(** The term [c * (neighbour - center)] of the divergence, with [c] the
    coefficient of the gradient magnitude [abs(neighbour - center)]. *)
Definition flux (diffusion_type : Z) (K center neighbour : R) : R :=
  (diffusion_coefficient diffusion_type K (Rabs (neighbour - center))
   * (neighbour - center))%R.

(** One update of the voxel [(z, y, x)] of a [(d, h, w)] volume, written
    with indices: a neighbour index that leaves the volume is clamped to
    the nearest index inside ([z - 1] is [0] at [z = 0]). *)
Definition stencil_update (volume : Volume) (d h w : nat)
    (K lambda_param : R) (diffusion_type : Z) (z y x : nat) : R :=
  let center := voxel volume z y x in
  let north := voxel volume (z - 1) y x in
  let south := voxel volume (Nat.min (z + 1) (d - 1)) y x in
  let west := voxel volume z (y - 1) x in
  let east := voxel volume z (Nat.min (y + 1) (h - 1)) x in
  let up := voxel volume z y (x - 1) in
  let down := voxel volume z y (Nat.min (x + 1) (w - 1)) in
  (center + lambda_param *
     (flux diffusion_type K center north + flux diffusion_type K center south
      + flux diffusion_type K center west + flux diffusion_type K center east
      + flux diffusion_type K center up + flux diffusion_type K center down))%R.

(** [n] updates in a row, each on the result of the one before. *)
Fixpoint iterate_update (n : nat) (volume : Volume) (K lambda_param : R)
    (diffusion_type : Z) : result Volume :=
  match n with
  | 0 => Ok volume
  | S n' =>
      try updated ⇐ diffusion_update volume K lambda_param diffusion_type;
      iterate_update n' updated K lambda_param diffusion_type
  end.

(** The progress lines of the passes [xs] of a run of [iterations]. *)
Definition progress_lines (iterations : Z) (xs : list nat) : list event :=
  (λ iteration, Stdout (IterationComplete (iteration + 1) iterations)) <$> xs.

(** The sum of the elements of a list, and of all voxels of a volume
    ([volume.sum()]). *)
Definition list_sum (l : list R) : R := foldr Rplus 0%R l.
Definition voxel_sum (volume : Volume) : R := list_sum (ravel volume).

(** [f 0 + ... + f (n - 1)] *)
Fixpoint sum_below (n : nat) (f : nat → R) : R :=
  match n with
  | 0 => 0%R
  | S n' => (sum_below n' f + f n')%R
  end.

(** Every voxel of [volume] lies in the interval [[lo, hi]]. *)
Definition within (lo hi : R) (volume : Volume) : Prop :=
  ∀ z y x a, get3 volume z y x = Some a → (lo <= a <= hi)%R.

(** * Properties *)

(** ** Results and loops *)

Lemma for_each_app {S I} (body : S → I → result S) (xs ys : list I) (s : S) :
  for_each body (xs ++ ys) s
  = rbind (for_each body xs s) (for_each body ys).
Proof.
  revert s; induction xs as [|x xs IH]; intros s; simpl; [done|].
  destruct (body s x) as [e|s']; simpl; [done|apply IH].
Qed.

(** A loop nest is one loop over the pairs of indices in iteration order. *)
Lemma for_each_nest {S I J} (body : S → I → J → result S)
    (xs : list I) (ys : list J) (s : S) :
  for_each (λ s x, for_each (λ s y, body s x y) ys s) xs s
  = for_each (λ s p, body s p.1 p.2) (x ← xs; pair x <$> ys) s.
Proof.
  revert s; induction xs as [|x xs IH]; intros s; simpl; [done|].
  rewrite for_each_app.
  assert (Hin : ∀ s, for_each (λ s y, body s x y) ys s
                     = for_each (λ s p, body s p.1 p.2) (pair x <$> ys) s).
  { clear. induction ys as [|y ys IHy]; intros s; simpl; [done|].
    destruct (body s x y); simpl; [done|apply IHy]. }
  rewrite Hin. destruct (for_each _ (pair x <$> ys) s); simpl; [done|apply IH].
Qed.

Lemma for_each_ext {S I} (f g : S → I → result S) (xs : list I) (s : S) :
  (∀ s x, x ∈ xs → f s x = g s x) → for_each f xs s = for_each g xs s.
Proof.
  revert s; induction xs as [|x xs IH]; intros s Hfg; simpl; [done|].
  rewrite Hfg by left. destruct (g s x); simpl; [done|].
  apply IH. intros; apply Hfg; by right.
Qed.

(** A loop whose every pass stores into the slot [key i] a value that
    depends on the slot only: when the slots exist the loop does not raise,
    the visited slots hold their values and the others are unchanged. *)
Section PointUpdates.
Context {S K V I : Type} `{EqDecision K}.
Variable get : S → K → option V.
Variable body : S → I → result S.
Variable key : I → K.
Variable value : K → V.
Hypothesis body_spec : ∀ s i,
  is_Some (get s (key i)) →
  ∃ s', body s i = Ok s' ∧
        ∀ k, get s' k = if decide (k = key i) then Some (value k)
                        else get s k.

Lemma for_each_point_updates (xs : list I) (s : S) :
  (∀ i, i ∈ xs → is_Some (get s (key i))) →
  ∃ s', for_each body xs s = Ok s' ∧
        (∀ i, i ∈ xs → get s' (key i) = Some (value (key i))) ∧
        (∀ k, (∀ i, i ∈ xs → key i ≠ k) → get s' k = get s k).
Proof.
  revert s; induction xs as [|x xs IH]; intros s Hdef; simpl.
  { exists s; split_and!; [done| |done]. intros i Hi; inversion Hi. }
  destruct (body_spec s x) as (s1 & -> & Hs1); [apply Hdef; left|]; simpl.
  destruct (IH s1) as (s' & -> & Hset & Hother).
  { intros i Hi. rewrite Hs1. case_decide; [done|]. apply Hdef. by right. }
  exists s'; split_and!; [done| |].
  - intros i Hi.
    destruct (decide (Exists (λ j, key j = key i) xs)) as [Hex|Hnex].
    + apply Exists_exists in Hex as (j & Hj & Hjk).
      rewrite <- Hjk. by apply Hset.
    + rewrite Hother.
      * rewrite Hs1. apply elem_of_cons in Hi as [->|Hi].
        -- by rewrite decide_True.
        -- exfalso. apply Hnex, Exists_exists. eauto.
      * intros j Hj Hjk. apply Hnex, Exists_exists. eauto.
  - intros k Hk. rewrite Hother; [|intros i Hi; apply Hk; by right].
    rewrite Hs1. rewrite decide_False; [done|].
    intros ->. by apply (Hk x); [left|].
Qed.
End PointUpdates.

(** ** Arrays *)

(** The array operations on small arrays of numbers, as numpy computes
    them. *)
Example py_slice_examples :
  py_slice (upto (-2)) [1; 2; 3; 4; 5] = [1; 2; 3] ∧
  py_slice (between 1 (-1)) [1; 2; 3; 4; 5] = [2; 3; 4] ∧
  py_slice (from 2) [1; 2; 3; 4; 5] = [3; 4; 5] ∧
  py_slice (range 2 4) [1; 2; 3; 4; 5] = [3; 4] ∧
  py_slice (range 3 9) [1; 2; 3; 4; 5] = [4; 5] ∧
  py_slice (range 4 2) [1; 2; 3; 4; 5] = [].
Proof. by vm_compute. Qed.

Example pad_edge_example :
  pad_edge [[[1; 2]; [3; 4]]]
  = Ok [[[1; 1; 2; 2]; [1; 1; 2; 2]; [3; 3; 4; 4]; [3; 3; 4; 4]];
        [[1; 1; 2; 2]; [1; 1; 2; 2]; [3; 3; 4; 4]; [3; 3; 4; 4]];
        [[1; 1; 2; 2]; [1; 1; 2; 2]; [3; 3; 4; 4]; [3; 3; 4; 4]]] ∧
  pad_edge ([[]] : list (list (list nat))) = Raise EmptyAxisPad.
Proof. by vm_compute. Qed.

Example neighbour_views_example :
  let padded :=
    [[[0; 0; 0]; [0; 1; 0]; [0; 0; 0]];
     [[0; 2; 0]; [3; 4; 5]; [0; 6; 0]];
     [[0; 0; 0]; [0; 7; 0]; [0; 0; 0]]] in
  slice3 (upto (-2)) (between 1 (-1)) (between 1 (-1)) padded = [[[1]]] ∧
  slice3 (from 2) (between 1 (-1)) (between 1 (-1)) padded = [[[7]]] ∧
  slice3 (between 1 (-1)) (upto (-2)) (between 1 (-1)) padded = [[[2]]] ∧
  slice3 (between 1 (-1)) (from 2) (between 1 (-1)) padded = [[[6]]] ∧
  slice3 (between 1 (-1)) (between 1 (-1)) (upto (-2)) padded = [[[3]]] ∧
  slice3 (between 1 (-1)) (between 1 (-1)) (from 2) padded = [[[5]]].
Proof. by vm_compute. Qed.

Example assign_block_example :
  assign_block (full 2 3 4 0) [[[1; 2]; [3; 4]]]
  = [[[1; 2; 0; 0]; [3; 4; 0; 0]; [0; 0; 0; 0]];
     [[0; 0; 0; 0]; [0; 0; 0; 0]; [0; 0; 0; 0]]].
Proof. by vm_compute. Qed.

Example dict_set_example :
  dict_set "b" (JInt 5) [("a", JInt 1); ("b", JInt 2)]
  = [("a", JInt 1); ("b", JInt 5)] ∧
  dict_set "c" (JInt 5) [("a", JInt 1); ("b", JInt 2)]
  = [("a", JInt 1); ("b", JInt 2); ("c", JInt 5)].
Proof. by vm_compute. Qed.

Example upper_example : upper "3fa9c0de" = "3FA9C0DE".
Proof. by vm_compute. Qed.

Lemma py_slice_range {A} (l : list A) (a b : nat) :
  a ≤ b → b ≤ length l → py_slice (range a b) l = take (b - a) (drop a l).
Proof.
  intros Hab Hb. unfold py_slice, range, slice_index; simpl.
  destruct (Z.ltb_spec (Z.of_nat a) 0), (Z.ltb_spec (Z.of_nat b) 0);
    try lia.
  rewrite !Nat2Z.id. by rewrite !Nat.min_l by lia.
Qed.

Lemma length_py_slice_range {A} (l : list A) (a b : nat) :
  a ≤ b → b ≤ length l → length (py_slice (range a b) l) = b - a.
Proof.
  intros. rewrite py_slice_range, length_take, length_drop by done. lia.
Qed.

Lemma lookup_py_slice_range {A} (l : list A) (a b i : nat) :
  a ≤ b → b ≤ length l → i < b - a →
  py_slice (range a b) l !! i = l !! (a + i).
Proof.
  intros. rewrite py_slice_range, lookup_take_lt, lookup_drop by done. done.
Qed.

Lemma elem_of_concat {A} (a : A) (ls : list (list A)) :
  a ∈ concat ls ↔ ∃ l, a ∈ l ∧ l ∈ ls.
Proof.
  induction ls as [|l ls IH]; simpl.
  - split; [intros H; inversion H|intros (l & _ & H); inversion H].
  - rewrite elem_of_app, IH. split.
    + intros [H|(l' & ? & ?)]; [exists l; split; [done|left]|].
      exists l'; split; [done|by right].
    + intros (l' & Ha & Hl). apply elem_of_cons in Hl as [->|Hl]; eauto.
Qed.

Section ArrayFacts.
Context {A : Type}.
Implicit Types (l : list A) (v : list (list (list A))).

Lemma has_shape_lookup v d h w z plane :
  has_shape v d h w → v !! z = Some plane →
  z < d ∧ length plane = h ∧ Forall (λ row, length row = w) plane.
Proof.
  intros [Hd Hv] Hz. split; [rewrite <- Hd; by eapply lookup_lt_Some|].
  by eapply (Forall_lookup_1 _ _ _ _ Hv).
Qed.

Lemma get3_Some_lt v d h w z y x a :
  has_shape v d h w → get3 v z y x = Some a → z < d ∧ y < h ∧ x < w.
Proof.
  intros Hv. unfold get3.
  destruct (v !! z) as [plane|] eqn:Hz; simpl; [|done].
  destruct (has_shape_lookup _ _ _ _ _ _ Hv Hz) as (? & Hh & Hrows).
  destruct (plane !! y) as [row|] eqn:Hy; simpl; [|done].
  intros Hx. split_and!; [done| |].
  - rewrite <- Hh. by eapply lookup_lt_Some.
  - rewrite <- (Forall_lookup_1 _ _ _ _ Hrows Hy). by eapply lookup_lt_Some.
Qed.

Lemma get3_is_Some v d h w z y x :
  has_shape v d h w → z < d → y < h → x < w → is_Some (get3 v z y x).
Proof.
  intros Hv Hz Hy Hx. unfold get3.
  destruct (lookup_lt_is_Some_2 v z) as [plane Hp]; [by rewrite (proj1 Hv)|].
  rewrite Hp; simpl.
  destruct (has_shape_lookup _ _ _ _ _ _ Hv Hp) as (_ & Hh & Hrows).
  destruct (lookup_lt_is_Some_2 plane y) as [row Hr]; [by rewrite Hh|].
  rewrite Hr; simpl. apply lookup_lt_is_Some_2.
  by rewrite (Forall_lookup_1 _ _ _ _ Hrows Hr).
Qed.

(** Two arrays of one shape with the same elements are equal. *)
Lemma has_shape_ext u v d h w :
  has_shape u d h w → has_shape v d h w →
  (∀ z y x, z < d → y < h → x < w → get3 u z y x = get3 v z y x) → u = v.
Proof.
  intros Hu Hv Heq. apply list_eq; intros z.
  destruct (decide (z < d)) as [Hz|Hz].
  2:{ rewrite !lookup_ge_None_2; [done|rewrite (proj1 Hv); lia
                                   |rewrite (proj1 Hu); lia]. }
  destruct (lookup_lt_is_Some_2 u z) as [pu Hpu]; [by rewrite (proj1 Hu)|].
  destruct (lookup_lt_is_Some_2 v z) as [pv Hpv]; [by rewrite (proj1 Hv)|].
  rewrite Hpu, Hpv; f_equal.
  destruct (has_shape_lookup _ _ _ _ _ _ Hu Hpu) as (_ & Hhu & Hru).
  destruct (has_shape_lookup _ _ _ _ _ _ Hv Hpv) as (_ & Hhv & Hrv).
  apply list_eq; intros y.
  destruct (decide (y < h)) as [Hy|Hy].
  2:{ rewrite !lookup_ge_None_2; [done|lia|lia]. }
  destruct (lookup_lt_is_Some_2 pu y) as [ru Hyu]; [by rewrite Hhu|].
  destruct (lookup_lt_is_Some_2 pv y) as [rv Hyv]; [by rewrite Hhv|].
  rewrite Hyu, Hyv; f_equal.
  pose proof (Forall_lookup_1 _ _ _ _ Hru Hyu) as Hwu.
  pose proof (Forall_lookup_1 _ _ _ _ Hrv Hyv) as Hwv.
  simpl in Hwu, Hwv.
  apply list_eq; intros x.
  destruct (decide (x < w)) as [Hx|Hx].
  2:{ rewrite !lookup_ge_None_2; [done|lia|lia]. }
  specialize (Heq z y x Hz Hy Hx). unfold get3 in Heq.
  by rewrite Hpu, Hpv in Heq; simpl in Heq; rewrite Hyu, Hyv in Heq.
Qed.

Lemma has_shape_full d h w (c : A) : has_shape (full d h w c) d h w.
Proof.
  split; [apply length_replicate|].
  apply Forall_replicate; split; [apply length_replicate|].
  apply Forall_replicate, length_replicate.
Qed.

Lemma get3_full d h w (c : A) z y x :
  z < d → y < h → x < w → get3 (full d h w c) z y x = Some c.
Proof.
  intros. unfold get3, full.
  rewrite lookup_replicate_2 by done; simpl.
  rewrite lookup_replicate_2 by done; simpl.
  by rewrite lookup_replicate_2.
Qed.

(** The shape read by [v.shape] when the array has at least one row. *)
Lemma shape3_has_shape v d h w :
  has_shape v d h w → 0 < d → 0 < h → shape3 v = (d, h, w).
Proof.
  intros [Hd Hv] Hd0 Hh0. unfold shape3.
  destruct v as [|plane v]; simpl in *; [lia|].
  apply Forall_cons in Hv as [[Hh Hrows] _].
  destruct plane as [|row plane]; simpl in *; [lia|].
  apply Forall_cons in Hrows as [Hw _]. by rewrite Hd, Hh, Hw.
Qed.

(** Slicing a block that lies inside the array. *)
Lemma has_shape_slice3 v d h w za zb ya yb xa xb :
  has_shape v d h w →
  za ≤ zb → zb ≤ d → ya ≤ yb → yb ≤ h → xa ≤ xb → xb ≤ w →
  has_shape (slice3 (range za zb) (range ya yb) (range xa xb) v)
            (zb - za) (yb - ya) (xb - xa).
Proof.
  intros [Hd Hv] ??????. unfold slice3. split.
  { rewrite length_fmap. apply length_py_slice_range; lia. }
  apply Forall_fmap. rewrite py_slice_range by lia.
  apply Forall_take, Forall_drop.
  eapply Forall_impl; [exact Hv|]. intros plane [Hh Hrows]; simpl. split.
  { rewrite length_fmap. apply length_py_slice_range; lia. }
  apply Forall_fmap. rewrite py_slice_range by lia.
  apply Forall_take, Forall_drop.
  eapply Forall_impl; [exact Hrows|]. intros row Hw; simpl in *.
  apply length_py_slice_range; lia.
Qed.

Lemma get3_slice3 v d h w za zb ya yb xa xb i j k :
  has_shape v d h w →
  za ≤ zb → zb ≤ d → ya ≤ yb → yb ≤ h → xa ≤ xb → xb ≤ w →
  i < zb - za → j < yb - ya → k < xb - xa →
  get3 (slice3 (range za zb) (range ya yb) (range xa xb) v) i j k
  = get3 v (za + i) (ya + j) (xa + k).
Proof.
  intros Hv ?????? Hi Hj Hk. unfold get3, slice3.
  rewrite list_lookup_fmap, lookup_py_slice_range
    by (rewrite ?(proj1 Hv); lia).
  destruct (v !! (za + i)) as [plane|] eqn:Hp; simpl; [|done].
  destruct (has_shape_lookup _ _ _ _ _ _ Hv Hp) as (_ & Hh & Hrows).
  rewrite list_lookup_fmap, lookup_py_slice_range by lia.
  destruct (plane !! (ya + j)) as [row|] eqn:Hr; simpl; [|done].
  pose proof (Forall_lookup_1 _ _ _ _ Hrows Hr) as Hw; simpl in Hw.
  by rewrite lookup_py_slice_range by lia.
Qed.

(** The elements of an array in row-major order are its entries. *)
Lemma elem_of_ravel v a :
  a ∈ ravel v ↔ ∃ z y x, get3 v z y x = Some a.
Proof.
  unfold ravel, get3. rewrite elem_of_concat. split.
  - intros (row & Ha & Hrow). apply elem_of_concat in Hrow
      as (plane & Hrow & Hplane).
    apply list_elem_of_lookup in Hplane as [z Hz].
    apply list_elem_of_lookup in Hrow as [y Hy].
    apply list_elem_of_lookup in Ha as [x Hx].
    exists z, y, x. by rewrite Hz; simpl; rewrite Hy.
  - intros (z & y & x & H).
    destruct (v !! z) as [plane|] eqn:Hz; simpl in H; [|done].
    destruct (plane !! y) as [row|] eqn:Hy; simpl in H; [|done].
    exists row. split; [by eapply list_elem_of_lookup_2|].
    apply elem_of_concat. exists plane.
    split; by eapply list_elem_of_lookup_2.
Qed.

Lemma length_ravel v d h w :
  has_shape v d h w → length (ravel v) = d * h * w.
Proof.
  intros [Hd Hv]. unfold ravel. subst d.
  induction Hv as [|plane v [Hh Hrows] _ IH]; simpl; [done|].
  rewrite concat_app, length_app, IH. clear IH.
  assert (length (concat plane) = h * w) as ->; [|lia].
  subst h. induction Hrows as [|row plane Hw _ IH]; simpl; [done|].
  rewrite length_app, IH, Hw. lia.
Qed.

End ArrayFacts.

Lemma lookup_overlay {A B} (f : A → B → A) (dst : list A) (src : list B) i :
  overlay f dst src !! i
  = (λ d, from_option (f d) d (src !! i)) <$> dst !! i.
Proof.
  revert src i; induction dst as [|d dst IH]; intros src i; [by destruct src|].
  destruct src as [|s src].
  - change (overlay f (d :: dst) []) with (d :: dst).
    rewrite lookup_nil; simpl. by destruct (_ !! i).
  - destruct i as [|i]; simpl; [done|apply IH].
Qed.

Lemma length_overlay {A B} (f : A → B → A) (dst : list A) (src : list B) :
  length (overlay f dst src) = length dst.
Proof.
  revert src; induction dst as [|d dst IH]; intros [|s src]; simpl; auto.
Qed.

Lemma Forall_overlay {A B} (P : A → Prop) (f : A → B → A) dst src :
  Forall P dst → (∀ d s, P d → P (f d s)) → Forall P (overlay f dst src).
Proof.
  intros Hdst Hf. revert src.
  induction Hdst as [|d dst Hd Hdst IH]; intros [|s src]; simpl;
    try constructor; auto.
Qed.

Section BlockFacts.
Context {A : Type}.
Implicit Types (u v : list (list (list A))).

Lemma get3_assign_block u v z y x :
  get3 (assign_block u v) z y x
  = (λ d, default d (get3 v z y x)) <$> get3 u z y x.
Proof.
  unfold get3, assign_block. rewrite lookup_overlay.
  destruct (u !! z) as [pu|]; simpl; [|done].
  destruct (v !! z) as [pv|]; simpl; [|by destruct (_ ≫= _)].
  rewrite lookup_overlay.
  destruct (pu !! y) as [ru|]; simpl; [|done].
  destruct (pv !! y) as [rv|]; simpl; [|by destruct (_ !! _)].
  rewrite lookup_overlay.
  destruct (ru !! x) as [d|]; simpl; [|done].
  by destruct (rv !! x).
Qed.

Lemma has_shape_assign_block u v d h w :
  has_shape u d h w → has_shape (assign_block u v) d h w.
Proof.
  intros [Hd Hu]. unfold assign_block. split; [by rewrite length_overlay|].
  apply Forall_overlay; [done|]. intros pu pv [Hh Hrows].
  split; [by rewrite length_overlay|].
  apply Forall_overlay; [done|]. intros ru rv Hw; simpl in *.
  by rewrite length_overlay.
Qed.

(** An assignment over the whole destination stores the source. *)
Lemma assign_block_same_shape u v d h w :
  has_shape u d h w → has_shape v d h w → assign_block u v = v.
Proof.
  intros Hu Hv.
  apply (has_shape_ext _ _ d h w); [by apply has_shape_assign_block|done|].
  intros z y x Hz Hy Hx. rewrite get3_assign_block.
  destruct (get3_is_Some u d h w z y x) as [a ->]; [done..|].
  destruct (get3_is_Some v d h w z y x) as [b ->]; done.
Qed.

Lemma get3_alter3 (f : A → A) iz iy ix u z y x :
  get3 (alter3 f iz iy ix u) z y x
  = if decide ((z, y, x) = (iz, iy, ix)) then f <$> get3 u z y x
    else get3 u z y x.
Proof.
  unfold get3, alter3. rewrite list_lookup_alter.
  destruct (decide (iz = z)) as [->|Hz].
  2:{ rewrite decide_False by congruence. done. }
  destruct (u !! z) as [plane|]; simpl; [|by case_decide].
  rewrite list_lookup_alter.
  destruct (decide (iy = y)) as [->|Hy].
  2:{ rewrite decide_False by congruence. done. }
  destruct (plane !! y) as [row|]; simpl; [|by case_decide].
  rewrite list_lookup_alter.
  destruct (decide (ix = x)) as [->|Hx].
  2:{ rewrite decide_False by congruence. done. }
  by rewrite decide_True.
Qed.

Lemma has_shape_alter3 (f : A → A) iz iy ix u d h w :
  has_shape u d h w → has_shape (alter3 f iz iy ix u) d h w.
Proof.
  intros [Hd Hu]. unfold alter3. split; [by rewrite length_alter|].
  apply Forall_alter; [done|]. intros plane _ [Hh Hrows].
  split; [by rewrite length_alter|].
  apply Forall_alter; [done|]. intros row _ Hw. by rewrite length_alter.
Qed.

End BlockFacts.

(** ** Reductions *)

Lemma foldl_Rmin_spec (x : R) (l : list R) :
  foldl Rmin x l ∈ x :: l ∧ ∀ y, y ∈ x :: l → (foldl Rmin x l <= y)%R.
Proof.
  revert x; induction l as [|a l IH]; intros x; simpl.
  { split; [left|]. intros y Hy. apply list_elem_of_singleton in Hy as ->. lra. }
  destruct (IH (Rmin x a)) as [Hin Hle]. split.
  - apply elem_of_cons in Hin as [->|Hin].
    + apply Rmin_case; [left|right; left].
    + by do 2 right.
  - intros y Hy.
    apply elem_of_cons in Hy as [->|Hy];
      [|apply elem_of_cons in Hy as [->|Hy]].
    + etrans; [apply Hle; left|apply Rmin_l].
    + etrans; [apply Hle; left|apply Rmin_r].
    + apply Hle. by right.
Qed.

Lemma foldl_Rmax_spec (x : R) (l : list R) :
  foldl Rmax x l ∈ x :: l ∧ ∀ y, y ∈ x :: l → (y <= foldl Rmax x l)%R.
Proof.
  revert x; induction l as [|a l IH]; intros x; simpl.
  { split; [left|]. intros y Hy. apply list_elem_of_singleton in Hy as ->. lra. }
  destruct (IH (Rmax x a)) as [Hin Hle]. split.
  - apply elem_of_cons in Hin as [->|Hin].
    + apply Rmax_case; [left|right; left].
    + by do 2 right.
  - intros y Hy.
    apply elem_of_cons in Hy as [->|Hy];
      [|apply elem_of_cons in Hy as [->|Hy]].
    + etrans; [apply Rmax_l|apply Hle; left].
    + etrans; [apply Rmax_r|apply Hle; left].
    + apply Hle. by right.
Qed.

Lemma np_min_spec (l : list R) (m : R) :
  np_min l = Ok m → m ∈ l ∧ ∀ y, y ∈ l → (m <= y)%R.
Proof.
  destruct l as [|x l]; simpl; [done|]. intros [= <-]. apply foldl_Rmin_spec.
Qed.

Lemma np_max_spec (l : list R) (m : R) :
  np_max l = Ok m → m ∈ l ∧ ∀ y, y ∈ l → (y <= m)%R.
Proof.
  destruct l as [|x l]; simpl; [done|]. intros [= <-]. apply foldl_Rmax_spec.
Qed.

Lemma np_min_Ok (l : list R) : 0 < length l → ∃ m, np_min l = Ok m.
Proof. destruct l; simpl; [lia|eauto]. Qed.

Lemma np_max_Ok (l : list R) : 0 < length l → ∃ m, np_max l = Ok m.
Proof. destruct l; simpl; [lia|eauto]. Qed.

(** ** The chunk reducer *)

(** [chunk_count n c] is the ceiling of [n / c]: the least number of
    chunks that cover [n] voxels. *)
Lemma chunk_count_ceil (n c : nat) :
  0 < c → n ≤ chunk_count n c * c ∧ chunk_count n c * c < n + c.
Proof.
  intros Hc. unfold chunk_count.
  pose proof (Nat.div_mod (n + c - 1) c ltac:(lia)) as Hdm.
  pose proof (Nat.mod_upper_bound (n + c - 1) c ltac:(lia)). nia.
Qed.

Lemma chunk_count_least (n c k : nat) :
  0 < c → n ≤ k * c → chunk_count n c ≤ k.
Proof.
  intros Hc Hk. destruct (chunk_count_ceil n c Hc) as [_ Hlt]. nia.
Qed.

Lemma round_up_Ok (n c : nat) :
  0 < c → round_up n c = Ok (chunk_count n c * c).
Proof. intros Hc. unfold round_up, floor_div. by destruct c; [lia|]. Qed.

Lemma floor_div_mul (q c : nat) : 0 < c → floor_div (q * c) c = Ok q.
Proof.
  intros Hc. unfold floor_div. destruct c; [lia|].
  by rewrite Nat.div_mul by lia.
Qed.

Lemma extrema_np (l : list R) :
  0 < length l →
  np_min l = Ok (extrema l).1 ∧ np_max l = Ok (extrema l).2.
Proof. destruct l; simpl; [lia|done]. Qed.

Lemma extrema_spec (l : list R) :
  0 < length l →
  ((extrema l).1 ∈ l ∧ ∀ y, y ∈ l → ((extrema l).1 <= y)%R) ∧
  ((extrema l).2 ∈ l ∧ ∀ y, y ∈ l → (y <= (extrema l).2)%R).
Proof.
  destruct l as [|x l]; simpl; [lia|]. intros _.
  split; [apply foldl_Rmin_spec|apply foldl_Rmax_spec].
Qed.

Section ChunkReducer.
Variable chunk_size : nat.
Hypothesis chunk_size_pos : 0 < chunk_size.

Lemma has_shape_chunk_of (volume : Volume) d h w iz iy ix :
  has_shape volume d h w →
  (iz + 1) * chunk_size ≤ d → (iy + 1) * chunk_size ≤ h →
  (ix + 1) * chunk_size ≤ w →
  has_shape (chunk_of volume chunk_size iz iy ix)
            chunk_size chunk_size chunk_size.
Proof.
  intros Hv Hz Hy Hx. unfold chunk_of.
  pose proof (has_shape_slice3 volume d h w
    (iz * chunk_size) (iz * chunk_size + chunk_size)
    (iy * chunk_size) (iy * chunk_size + chunk_size)
    (ix * chunk_size) (ix * chunk_size + chunk_size) Hv) as Hs.
  replace (iz * chunk_size + chunk_size - iz * chunk_size)
    with chunk_size in Hs by lia.
  replace (iy * chunk_size + chunk_size - iy * chunk_size)
    with chunk_size in Hs by lia.
  replace (ix * chunk_size + chunk_size - ix * chunk_size)
    with chunk_size in Hs by lia.
  apply Hs; lia.
Qed.

Lemma get3_chunk_of (volume : Volume) d h w iz iy ix i j k :
  has_shape volume d h w →
  (iz + 1) * chunk_size ≤ d → (iy + 1) * chunk_size ≤ h →
  (ix + 1) * chunk_size ≤ w →
  i < chunk_size → j < chunk_size → k < chunk_size →
  get3 (chunk_of volume chunk_size iz iy ix) i j k
  = get3 volume (iz * chunk_size + i) (iy * chunk_size + j)
                (ix * chunk_size + k).
Proof.
  intros Hv Hz Hy Hx Hi Hj Hk. unfold chunk_of.
  apply (get3_slice3 volume d h w); try done; lia.
Qed.

Lemma chunk_of_nonempty (volume : Volume) d h w iz iy ix :
  has_shape volume d h w →
  (iz + 1) * chunk_size ≤ d → (iy + 1) * chunk_size ≤ h →
  (ix + 1) * chunk_size ≤ w →
  0 < length (ravel (chunk_of volume chunk_size iz iy ix)).
Proof.
  intros Hv Hz Hy Hx.
  rewrite (length_ravel _ chunk_size chunk_size chunk_size)
    by by eapply has_shape_chunk_of.
  nia.
Qed.

(** One pass of the innermost loop stores the extrema of its chunk and
    touches no other cell. *)
Lemma chunk_step_spec (volume : Volume) nz ny nx
    (grid : list (list (list (R * R)))) iz iy ix :
  has_shape volume (nz * chunk_size) (ny * chunk_size) (nx * chunk_size) →
  iz < nz → iy < ny → ix < nx →
  is_Some (get3 grid iz iy ix) →
  ∃ grid',
    chunk_step volume chunk_size grid iz iy ix = Ok grid' ∧
    ∀ z y x,
      get3 grid' z y x
      = if decide ((z, y, x) = (iz, iy, ix))
        then Some (extrema (ravel (chunk_of volume chunk_size z y x)))
        else get3 grid z y x.
Proof.
  intros Hv Hz Hy Hx [c Hc]. unfold chunk_step.
  destruct (extrema_np (ravel (chunk_of volume chunk_size iz iy ix)))
    as [-> ->].
  { eapply chunk_of_nonempty; [done|nia..]. }
  simpl. eexists; split; [reflexivity|]. intros z y x.
  rewrite !get3_alter3. case_decide as Heq; [|done].
  injection Heq as -> -> ->. rewrite Hc; simpl. by destruct (extrema _).
Qed.

Lemma chunk_step_shape (volume : Volume)
    (grid grid' : list (list (list (R * R)))) nz ny nx iz iy ix :
  has_shape grid nz ny nx →
  chunk_step volume chunk_size grid iz iy ix = Ok grid' →
  has_shape grid' nz ny nx.
Proof.
  intros Hg. unfold chunk_step.
  destruct (np_min _); simpl; [done|].
  destruct (np_max _); simpl; [done|].
  intros [= <-]. by do 2 apply has_shape_alter3.
Qed.

End ChunkReducer.

Lemma for_each_invariant {S I} (P : S → Prop) (body : S → I → result S)
    (xs : list I) (s s' : S) :
  (∀ s i s', P s → body s i = Ok s' → P s') →
  P s → for_each body xs s = Ok s' → P s'.
Proof.
  intros Hbody. revert s; induction xs as [|x xs IH]; intros s Hs; simpl.
  { by intros [= <-]. }
  destruct (body s x) as [e|s1] eqn:Hb; simpl; [done|].
  apply IH. by eapply Hbody.
Qed.

Lemma elem_of_nest_indices nz ny nx q :
  q ∈ nest_indices nz ny nx ↔ q.1 < nz ∧ q.2.1 < ny ∧ q.2.2 < nx.
Proof.
  unfold nest_indices. destruct q as [iz [iy ix]]; simpl.
  rewrite list_elem_of_bind. split.
  - intros (z & Hq & Hz). apply list_elem_of_fmap in Hq as (p & Heq & Hp).
    apply list_elem_of_bind in Hp as (y & Hp & Hy).
    apply list_elem_of_fmap in Hp as (x & Heq' & Hx). simplify_eq.
    apply elem_of_seq in Hz, Hy, Hx. lia.
  - intros (Hz & Hy & Hx). exists iz. split; [|apply elem_of_seq; lia].
    apply list_elem_of_fmap. exists (iy, ix). split; [done|].
    apply list_elem_of_bind. exists iy. split; [|apply elem_of_seq; lia].
    apply list_elem_of_fmap. exists ix. split; [done|apply elem_of_seq; lia].
Qed.

Section ChunkLoops.
Variable chunk_size : nat.
Hypothesis chunk_size_pos : 0 < chunk_size.
Variables (volume : Volume) (nz ny nx : nat).
Hypothesis volume_shape :
  has_shape volume (nz * chunk_size) (ny * chunk_size) (nx * chunk_size).

Lemma chunk_loops_flat grid :
  chunk_loops volume chunk_size nz ny nx grid
  = for_each (λ g q, chunk_step volume chunk_size g q.1 q.2.1 q.2.2)
      (nest_indices nz ny nx) grid.
Proof.
  unfold chunk_loops, nest_indices.
  rewrite <- (for_each_nest
    (λ g iz p, chunk_step volume chunk_size g iz p.1 p.2)).
  apply for_each_ext. intros g iz _.
  apply (for_each_nest (λ g iy ix, chunk_step volume chunk_size g iz iy ix)).
Qed.

Lemma chunk_loops_spec grid :
  has_shape grid nz ny nx →
  ∃ grid',
    chunk_loops volume chunk_size nz ny nx grid = Ok grid' ∧
    has_shape grid' nz ny nx ∧
    ∀ iz iy ix, iz < nz → iy < ny → ix < nx →
      get3 grid' iz iy ix
      = Some (extrema (ravel (chunk_of volume chunk_size iz iy ix))).
Proof.
  intros Hgrid. rewrite chunk_loops_flat.
  pose (get := λ (g : list (list (list (R * R)))) (k : nat * nat * nat),
          if decide (k.1.1 < nz ∧ k.1.2 < ny ∧ k.2 < nx)
          then get3 g k.1.1 k.1.2 k.2 else None).
  destruct (for_each_point_updates get
              (λ g q, chunk_step volume chunk_size g q.1 q.2.1 q.2.2)
              (λ q : nat * (nat * nat), (q.1, q.2.1, q.2.2))
              (λ k, extrema (ravel (chunk_of volume chunk_size k.1.1 k.1.2 k.2)))
              ) with (xs := nest_indices nz ny nx) (s := grid)
    as (grid' & Hrun & Hset & _).
  - intros g [iz [iy ix]]; unfold get; simpl.
    case_decide as Hin; [|by intros [? ?]]. intros Hsome.
    destruct (chunk_step_spec chunk_size chunk_size_pos volume nz ny nx
                g iz iy ix) as (g' & Hg' & Hget); [done|lia..|done|].
    exists g'. split; [done|]. intros [[z y] x]; simpl.
    rewrite Hget.
    destruct (decide ((z, y, x) = (iz, iy, ix))) as [[= -> -> ->]|Hne].
    + case_decide; [done|tauto].
    + by case_decide.
  - intros [iz [iy ix]] Hq. apply elem_of_nest_indices in Hq; simpl in Hq.
    unfold get; cbn [fst snd]. case_decide; [|tauto].
    apply (get3_is_Some grid nz ny nx); [done|lia..].
  - exists grid'. split; [done|]. split.
    + eapply (for_each_invariant (λ g, has_shape g nz ny nx));
        [|exact Hgrid|exact Hrun].
      intros g q g' Hg Hstep.
      eapply chunk_step_shape; [exact Hg|exact Hstep].
    + intros iz iy ix Hz Hy Hx.
      specialize (Hset (iz, (iy, ix))). unfold get in Hset.
      cbn [fst snd] in Hset. case_decide; [|tauto]. apply Hset.
      apply elem_of_nest_indices; simpl; lia.
Qed.

End ChunkLoops.

Lemma has_shape_pad_volume (volume : Volume) pd ph pw :
  has_shape (pad_volume volume pd ph pw) pd ph pw.
Proof. apply has_shape_assign_block, has_shape_full. Qed.

Lemma get3_pad_volume (volume : Volume) pd ph pw z y x :
  z < pd → y < ph → x < pw →
  get3 (pad_volume volume pd ph pw) z y x = Some (padded_voxel volume z y x).
Proof.
  intros. unfold pad_volume. rewrite get3_assign_block, get3_full by done.
  done.
Qed.

Lemma pad_volume_same_shape (volume : Volume) d h w :
  has_shape volume d h w → pad_volume volume d h w = volume.
Proof.
  intros Hv. eapply assign_block_same_shape; [apply has_shape_full|done].
Qed.

Lemma compute_chunk_minmax_spec (volume : Volume) d h w chunk_size :
  has_shape volume d h w → 0 < d → 0 < h → 0 < w → 0 < chunk_size →
  let nz := chunk_count d chunk_size in
  let ny := chunk_count h chunk_size in
  let nx := chunk_count w chunk_size in
  let padded :=
    pad_volume volume (nz * chunk_size) (ny * chunk_size) (nx * chunk_size) in
  ∃ grid,
    compute_chunk_minmax volume chunk_size = Ok grid ∧
    num_chunks_z grid = nz ∧ num_chunks_y grid = ny ∧ num_chunks_x grid = nx ∧
    has_shape (cells grid) nz ny nx ∧
    ∀ iz iy ix, iz < nz → iy < ny → ix < nx →
      cell grid iz iy ix
      = Some (extrema (ravel (chunk_of padded chunk_size iz iy ix))).
Proof.
  intros Hv Hd Hh Hw Hc nz ny nx padded.
  unfold compute_chunk_minmax.
  rewrite (shape3_has_shape volume d h w) by done.
  rewrite !round_up_Ok by done; simpl.
  rewrite !floor_div_mul by done; simpl.
  fold nz ny nx.
  assert (Hpad : (if (d <? nz * chunk_size) || (h <? ny * chunk_size)
                     || (w <? nx * chunk_size)
                  then pad_volume volume (nz * chunk_size) (ny * chunk_size)
                         (nx * chunk_size)
                  else volume) = padded).
  { destruct (_ || _) eqn:Hcond; [done|].
    apply orb_false_elim in Hcond as [Hcond Hx].
    apply orb_false_elim in Hcond as [Hz Hy].
    apply Nat.ltb_ge in Hz, Hy, Hx.
    pose proof (chunk_count_ceil d chunk_size Hc) as [? _].
    pose proof (chunk_count_ceil h chunk_size Hc) as [? _].
    pose proof (chunk_count_ceil w chunk_size Hc) as [? _].
    unfold padded.
    replace (nz * chunk_size) with d by (unfold nz; lia).
    replace (ny * chunk_size) with h by (unfold ny; lia).
    replace (nx * chunk_size) with w by (unfold nx; lia).
    symmetry. by apply pad_volume_same_shape. }
  rewrite Hpad.
  destruct (chunk_loops_spec chunk_size Hc padded nz ny nx
              (has_shape_pad_volume _ _ _ _)
              (full nz ny nx (0%R, 0%R)) (has_shape_full _ _ _ _))
    as (grid' & Hrun & Hshape & Hcells).
  unfold chunk_loops in Hrun. rewrite Hrun; simpl.
  eexists; split; [reflexivity|]. simpl. by split_and!.
Qed.

Lemma chunk_count_is_ceiling (n c : nat) :
  0 < c → is_ceiling n c (chunk_count n c).
Proof.
  intros Hc. split; [apply chunk_count_ceil, Hc|].
  intros k' Hk'. by apply chunk_count_least.
Qed.

(** The cube of a cell, read off the padded volume. *)
Lemma chunk_extrema_of_padded (volume : Volume) pd ph pw c iz iy ix :
  0 < c → (iz + 1) * c ≤ pd → (iy + 1) * c ≤ ph → (ix + 1) * c ≤ pw →
  let chunk := chunk_of (pad_volume volume pd ph pw) c iz iy ix in
  is_min_over (in_chunk c iz iy ix) (padded_voxel volume)
    (extrema (ravel chunk)).1 ∧
  is_max_over (in_chunk c iz iy ix) (padded_voxel volume)
    (extrema (ravel chunk)).2.
Proof.
  intros Hc Hz Hy Hx chunk.
  pose proof (has_shape_pad_volume volume pd ph pw) as Hp.
  assert (Hget : ∀ i j k, i < c → j < c → k < c →
            get3 chunk i j k
            = Some (padded_voxel volume (iz * c + i) (iy * c + j) (ix * c + k))).
  { intros i j k Hi Hj Hk. unfold chunk.
    rewrite (get3_chunk_of c Hc _ pd ph pw) by done.
    apply get3_pad_volume; nia. }
  assert (Hshape : has_shape chunk c c c)
    by by eapply (has_shape_chunk_of c Hc).
  assert (Helem : ∀ a, a ∈ ravel chunk ↔
            ∃ z y x, in_chunk c iz iy ix z y x ∧ padded_voxel volume z y x = a).
  { intros a. rewrite elem_of_ravel. split.
    - intros (i & j & k & Hijk).
      destruct (get3_Some_lt _ _ _ _ _ _ _ _ Hshape Hijk) as (Hi & Hj & Hk).
      rewrite Hget in Hijk by done. injection Hijk as <-.
      eexists _, _, _. split; [|done]. unfold in_chunk; lia.
    - intros (z & y & x & (Hzc & Hyc & Hxc) & <-).
      exists (z - iz * c), (y - iy * c), (x - ix * c).
      rewrite Hget by lia. do 2 f_equal; lia. }
  destruct (extrema_spec (ravel chunk)) as [[Hlo Hlob] [Hhi Hhib]].
  { eapply (chunk_of_nonempty c Hc); [exact Hp|done..]. }
  split; (split; [by apply Helem|]).
  - intros z y x Hin. apply Hlob, Helem. eauto.
  - intros z y x Hin. apply Hhib, Helem. eauto.
Qed.

(** A voxel of the padded volume lies in the cube of exactly one cell. *)
Lemma in_chunk_unique (c nz ny nx z y x : nat) :
  0 < c → z < nz * c → y < ny * c → x < nx * c →
  ∃ iz iy ix,
    (iz < nz ∧ iy < ny ∧ ix < nx ∧ in_chunk c iz iy ix z y x) ∧
    ∀ iz' iy' ix', in_chunk c iz' iy' ix' z y x →
      (iz', iy', ix') = (iz, iy, ix).
Proof.
  intros Hc Hz Hy Hx. exists (z / c), (y / c), (x / c).
  pose proof (Nat.div_mod z c ltac:(lia)).
  pose proof (Nat.div_mod y c ltac:(lia)).
  pose proof (Nat.div_mod x c ltac:(lia)).
  pose proof (Nat.mod_upper_bound z c ltac:(lia)).
  pose proof (Nat.mod_upper_bound y c ltac:(lia)).
  pose proof (Nat.mod_upper_bound x c ltac:(lia)).
  split.
  - unfold in_chunk. split_and!; nia.
  - intros iz' iy' ix' (Hz' & Hy' & Hx').
    f_equal; [f_equal|]; nia.
Qed.


(** The voxels of the zero-padded copy of a float32 volume are float32
    values, and so are its extrema over any set of positions: the
    float32 array of the cells stores them as they are. *)
Lemma is_float32_0 : is_float32 0.
Proof. by exists (S754_zero false). Qed.

Lemma is_float32_padded_voxel (volume : Volume) (z y x : nat) :
  (∀ z y x a, get3 volume z y x = Some a → is_float32 a) →
  is_float32 (padded_voxel volume z y x).
Proof.
  intros Hvoxels. unfold padded_voxel.
  destruct (get3 volume z y x) as [a|] eqn:Ha; simpl.
  - by apply (Hvoxels z y x).
  - apply is_float32_0.
Qed.

Lemma is_float32_extrema (volume : Volume) (P : nat → nat → nat → Prop)
    (lo hi : R) :
  (∀ z y x a, get3 volume z y x = Some a → is_float32 a) →
  is_min_over P (padded_voxel volume) lo →
  is_max_over P (padded_voxel volume) hi →
  is_float32 lo ∧ is_float32 hi.
Proof.
  intros Hvoxels [(z & y & x & _ & <-) _] [(z' & y' & x' & _ & <-) _].
  split; by apply is_float32_padded_voxel.
Qed.

(** C2.  For a volume of float32 voxels with at least one voxel and a
    positive chunk edge length (every valid one included),
    [compute_chunk_minmax] returns a grid in which each cell holds the
    minimum and the maximum of the zero-padded volume over the cube of
    that cell, two float32 values, and every voxel position of the padded
    volume lies in the cube of exactly one cell. *)
Theorem chunk_extrema_correct (volume : Volume) (d h w chunk_size : nat) :
  has_shape volume d h w → 0 < d → 0 < h → 0 < w → 0 < chunk_size →
  (∀ z y x a, get3 volume z y x = Some a → is_float32 a) →
  ∃ grid,
    compute_chunk_minmax volume chunk_size = Ok grid ∧
    (d ≤ num_chunks_z grid * chunk_size ∧ h ≤ num_chunks_y grid * chunk_size ∧
     w ≤ num_chunks_x grid * chunk_size) ∧
    (∀ iz iy ix,
       iz < num_chunks_z grid → iy < num_chunks_y grid →
       ix < num_chunks_x grid →
       ∃ lo hi,
         cell grid iz iy ix = Some (lo, hi) ∧
         is_float32 lo ∧ is_float32 hi ∧
         is_min_over (in_chunk chunk_size iz iy ix) (padded_voxel volume) lo ∧
         is_max_over (in_chunk chunk_size iz iy ix) (padded_voxel volume) hi) ∧
    (∀ z y x,
       z < num_chunks_z grid * chunk_size →
       y < num_chunks_y grid * chunk_size →
       x < num_chunks_x grid * chunk_size →
       ∃ iz iy ix,
         (iz < num_chunks_z grid ∧ iy < num_chunks_y grid ∧
          ix < num_chunks_x grid ∧ in_chunk chunk_size iz iy ix z y x) ∧
         ∀ iz' iy' ix', in_chunk chunk_size iz' iy' ix' z y x →
           (iz', iy', ix') = (iz, iy, ix)).
Proof.
  intros Hv Hd Hh Hw Hc Hvoxels.
  destruct (compute_chunk_minmax_spec volume d h w chunk_size)
    as (grid & Hrun & Hnz & Hny & Hnx & Hshape & Hcells); [done..|].
  exists grid. rewrite Hnz, Hny, Hnx. split_and!; [done| | | | |].
  - apply chunk_count_ceil, Hc.
  - apply chunk_count_ceil, Hc.
  - apply chunk_count_ceil, Hc.
  - intros iz iy ix Hz Hy Hx. rewrite Hcells by done.
    destruct (chunk_extrema_of_padded volume
                (chunk_count d chunk_size * chunk_size)
                (chunk_count h chunk_size * chunk_size)
                (chunk_count w chunk_size * chunk_size)
                chunk_size iz iy ix) as [Hlo Hhi]; [done|nia..|].
    destruct (is_float32_extrema _ _ _ _ Hvoxels Hlo Hhi) as [Hflo Hfhi].
    eexists _, _. split; [by rewrite <- surjective_pairing|done].
  - intros z y x Hz Hy Hx. by apply in_chunk_unique.
Qed.

(** C3.  The grid has [ceil(D/C)], [ceil(H/C)] and [ceil(W/C)] cells along
    its axes and their product in total; a 48 x 48 x 48 volume with
    chunks of edge 16 gives 3 x 3 x 3 = 27 cells. *)
Theorem chunk_grid_sizing (volume : Volume) (d h w chunk_size : nat) :
  has_shape volume d h w → 0 < d → 0 < h → 0 < w → 0 < chunk_size →
  ∃ grid,
    compute_chunk_minmax volume chunk_size = Ok grid ∧
    is_ceiling d chunk_size (num_chunks_z grid) ∧
    is_ceiling h chunk_size (num_chunks_y grid) ∧
    is_ceiling w chunk_size (num_chunks_x grid) ∧
    has_shape (cells grid)
      (num_chunks_z grid) (num_chunks_y grid) (num_chunks_x grid) ∧
    length (ravel (cells grid))
      = num_chunks_z grid * num_chunks_y grid * num_chunks_x grid ∧
    total_chunks grid = length (ravel (cells grid)) ∧
    ((d, h, w) = (48, 48, 48) → chunk_size = 16 →
     (num_chunks_z grid, num_chunks_y grid, num_chunks_x grid) = (3, 3, 3) ∧
     total_chunks grid = 27).
Proof.
  intros Hv Hd Hh Hw Hc.
  destruct (compute_chunk_minmax_spec volume d h w chunk_size)
    as (grid & Hrun & Hnz & Hny & Hnx & Hshape & _); [done..|].
  exists grid. rewrite Hnz, Hny, Hnx.
  pose proof (length_ravel _ _ _ _ Hshape) as Hlen.
  split_and!; try done; try by apply chunk_count_is_ceiling.
  - unfold total_chunks. rewrite Hlen, Hnz, Hny, Hnx. lia.
  - intros [= -> -> ->] ->. unfold total_chunks.
    rewrite Hnz, Hny, Hnx. by vm_compute.
Qed.


Lemma has_shape_sample_volume : has_shape sample_volume 1 2 2.
Proof. split; [done|]. repeat constructor. Qed.

Lemma is_float32_sample_volume (z y x : nat) (a : R) :
  get3 sample_volume z y x = Some a → is_float32 a.
Proof.
  destruct z as [|z]; [|done]. destruct y as [|[|y]]; [| |done];
    (destruct x as [|[|x]]; [| |done]); intros [= <-].
  - float32_literal 1%Z.
  - float32_literal 2%Z.
  - float32_literal 3%Z.
  - float32_literal 4%Z.
Qed.


Lemma padded_voxel_sample_bounds z y x :
  (0 <= padded_voxel sample_volume z y x <= 4)%R.
Proof.
  unfold padded_voxel, get3, sample_volume.
  destruct z as [|z]; simpl; [|lra].
  destruct y as [|[|y]]; simpl; [| |lra].
  - destruct x as [|[|x]]; simpl; lra.
  - destruct x as [|[|x]]; simpl; lra.
Qed.

(** With chunks of edge 16 the sample volume is one cell; the padding
    pulls its minimum to zero, its maximum is the largest voxel. *)
Lemma chunk_extrema_correct_witness :
  has_shape sample_volume 1 2 2 ∧ 0 < 16 ∧
  is_float32 1 ∧ is_float32 2 ∧ is_float32 3 ∧ is_float32 4 ∧
  ∃ grid, compute_chunk_minmax sample_volume 16 = Ok grid ∧
          cell grid 0 0 0 = Some (0%R, 4%R).
Proof.
  split; [apply has_shape_sample_volume|]. split; [lia|].
  split; [float32_literal 1%Z|]. split; [float32_literal 2%Z|].
  split; [float32_literal 3%Z|]. split; [float32_literal 4%Z|].
  destruct (chunk_extrema_correct sample_volume 1 2 2 16
              has_shape_sample_volume ltac:(lia) ltac:(lia) ltac:(lia)
              ltac:(lia) is_float32_sample_volume)
    as (grid & Hrun & (Hz & Hy & Hx) & Hcells & _).
  exists grid. split; [exact Hrun|].
  destruct (Hcells 0 0 0 ltac:(lia) ltac:(lia) ltac:(lia))
    as (lo & hi & -> & _ & _ & [(z & y & x & _ & Hlo) Hlob]
        & [(z' & y' & x' & _ & Hhi) Hhib]).
  assert (Hin : ∀ y x, y < 16 → x < 16 → in_chunk 16 0 0 0 0 y x)
    by (unfold in_chunk; lia).
  pose proof (Hlob 0 0 2 (Hin 0 2 ltac:(lia) ltac:(lia))) as Hlo0.
  pose proof (Hhib 0 1 1 (Hin 1 1 ltac:(lia) ltac:(lia))) as Hhi4.
  pose proof (padded_voxel_sample_bounds z y x) as Hb.
  pose proof (padded_voxel_sample_bounds z' y' x') as Hb'.
  rewrite Hlo in Hb. rewrite Hhi in Hb'.
  unfold padded_voxel, get3, sample_volume in Hlo0, Hhi4; simpl in Hlo0, Hhi4.
  f_equal. f_equal; lra.
Defined.

Lemma chunk_grid_sizing_witness :
  has_shape (full 48 48 48 100%R) 48 48 48 ∧ 0 < 16 ∧
  ∃ grid, compute_chunk_minmax (full 48 48 48 100%R) 16 = Ok grid ∧
          (num_chunks_z grid, num_chunks_y grid, num_chunks_x grid) = (3, 3, 3) ∧
          total_chunks grid = 27.
Proof.
  split; [apply has_shape_full|]. split; [lia|].
  destruct (chunk_grid_sizing (full 48 48 48 100%R) 48 48 48 16
              (has_shape_full _ _ _ _) ltac:(lia) ltac:(lia) ltac:(lia)
              ltac:(lia))
    as (grid & Hrun & _ & _ & _ & _ & _ & _ & Hex).
  exists grid. split; [exact Hrun|]. by apply Hex.
Defined.


(** ** The diffusion coefficient *)

Section Coefficients.
Local Open Scope R_scope.
Variable K : R.
Hypothesis K_pos : 0 < K.

Lemma ratio_sqr_nonneg g : 0 <= (g / K) ^ 2.
Proof. apply pow2_ge_0. Qed.

Lemma ratio_sqr_zero g : (g / K) ^ 2 = 0 ↔ g = 0.
Proof.
  split.
  - intros H. assert (g / K = 0) as Hq by nra.
    apply (Rmult_eq_compat_r K) in Hq. unfold Rdiv in Hq.
    rewrite Rmult_assoc, Rinv_l, Rmult_1_r, Rmult_0_l in Hq by lra. done.
  - intros ->. unfold Rdiv. rewrite Rmult_0_l. simpl. lra.
Qed.

Lemma ratio_sqr_increasing g1 g2 :
  0 <= g1 → g1 < g2 → (g1 / K) ^ 2 < (g2 / K) ^ 2.
Proof.
  intros H1 H12.
  assert (0 < / K) as HiK by by apply Rinv_0_lt_compat.
  assert (0 <= g1 / K) by (unfold Rdiv; nra).
  assert (g1 / K < g2 / K) by (unfold Rdiv; nra).
  nra.
Qed.

Lemma exponential_coefficient_law :
  coefficient_law (exponential_coefficient K).
Proof.
  unfold coefficient_law, exponential_coefficient. split_and!.
  - intros g Hg. split; [apply exp_pos|].
    pose proof (ratio_sqr_nonneg g) as Hu.
    destruct (Req_dec ((g / K) ^ 2) 0) as [->|Hne].
    + rewrite Ropp_0, exp_0. lra.
    + left. rewrite <- exp_0. apply exp_increasing. lra.
  - intros g Hg. split.
    + intros Hexp. apply ratio_sqr_zero.
      pose proof (ratio_sqr_nonneg g) as Hu.
      destruct (Req_dec ((g / K) ^ 2) 0) as [|Hne]; [done|].
      assert (exp (- (g / K) ^ 2) < exp 0) by (apply exp_increasing; lra).
      rewrite exp_0 in *. lra.
    + intros ->. replace ((0 / K) ^ 2) with 0 by (symmetry; by apply ratio_sqr_zero).
      by rewrite Ropp_0, exp_0.
  - intros g1 g2 H1 H12. apply exp_increasing.
    pose proof (ratio_sqr_increasing g1 g2 H1 H12). lra.
Qed.

Lemma rational_coefficient_law :
  coefficient_law (rational_coefficient K).
Proof.
  unfold coefficient_law, rational_coefficient. split_and!.
  - intros g Hg. pose proof (ratio_sqr_nonneg g) as Hu. split.
    + apply Rdiv_lt_0_compat; lra.
    + apply (Rmult_le_reg_r (1 + (g / K) ^ 2)); [lra|].
      unfold Rdiv. rewrite Rmult_assoc, Rinv_l by lra. lra.
  - intros g Hg. pose proof (ratio_sqr_nonneg g) as Hu. split.
    + intros H1. apply ratio_sqr_zero.
      apply (Rmult_eq_compat_r (1 + (g / K) ^ 2)) in H1.
      unfold Rdiv in H1. rewrite Rmult_assoc, Rinv_l in H1 by lra. lra.
    + intros ->. replace ((0 / K) ^ 2) with 0 by (symmetry; by apply ratio_sqr_zero).
      rewrite Rplus_0_r. unfold Rdiv. rewrite Rinv_1. lra.
  - intros g1 g2 H1 H12.
    pose proof (ratio_sqr_nonneg g1) as Hu1.
    pose proof (ratio_sqr_increasing g1 g2 H1 H12) as Hu.
    unfold Rdiv at 1 3. rewrite !Rmult_1_l.
    apply Rinv_lt_contravar; [nra|lra].
Qed.

End Coefficients.

(** ** Runs *)

Lemma mbind_result {A B} (m : M A) (k : A → M B) :
  (mbind m k).2 = match m.2 with inl e => inl e | inr a => (k a).2 end.
Proof. unfold mbind. by destruct m.2. Qed.

Lemma mbind_events {A B} (m : M A) (k : A → M B) :
  (mbind m k).1 = m.1 ++ match m.2 with inl _ => [] | inr a => (k a).1 end.
Proof. unfold mbind. destruct m.2; simpl; [by rewrite app_nil_r|done]. Qed.

(** A loop in [M] whose passes keep an invariant returns, with the
    invariant. *)
Lemma mfor_each_invariant {S I} (P : S → Prop) (body : S → I → M S)
    (xs : list I) (s : S) :
  (∀ s i, P s → ∃ s', (body s i).2 = Ok s' ∧ P s') →
  P s → ∃ s', (mfor_each body xs s).2 = Ok s' ∧ P s'.
Proof.
  intros Hbody. revert s; induction xs as [|x xs IH]; intros s Hs; simpl.
  { by exists s. }
  rewrite mbind_result. destruct (Hbody s x Hs) as (s1 & -> & Hs1).
  by apply IH.
Qed.

(** ** Constant fields *)

Section ConstantFields.
Context {A : Type}.

Lemma py_slice_upto_replicate (n : nat) (x : A) :
  py_slice (upto (-2)) (replicate (n + 2) x) = replicate n x.
Proof.
  unfold py_slice, upto, slice_index. cbn [fst snd from_option].
  rewrite length_replicate, drop_replicate, take_replicate.
  change (-2 <? 0)%Z with true. f_equal. lia.
Qed.

Lemma py_slice_between_replicate (n : nat) (x : A) :
  py_slice (between 1 (-1)) (replicate (n + 2) x) = replicate n x.
Proof.
  unfold py_slice, between, slice_index. cbn [fst snd from_option].
  rewrite length_replicate, drop_replicate, take_replicate.
  change (1 <? 0)%Z with false. change (-1 <? 0)%Z with true.
  change (Z.to_nat 1) with 1. f_equal. lia.
Qed.

Lemma py_slice_from_replicate (n : nat) (x : A) :
  py_slice (from 2) (replicate (n + 2) x) = replicate n x.
Proof.
  unfold py_slice, from, slice_index. cbn [fst snd from_option].
  rewrite length_replicate, drop_replicate, take_replicate.
  change (2 <? 0)%Z with false. change (Z.to_nat 2) with 2. f_equal. lia.
Qed.

Lemma pad_edge1_replicate (n : nat) (x : A) :
  0 < n → pad_edge1 (replicate n x) = Ok (replicate (n + 2) x).
Proof.
  intros Hn. destruct n as [|n]; [lia|]. unfold pad_edge1; simpl.
  f_equal. f_equal.
  assert (last (x :: replicate n x) = Some x) as ->.
  { clear. induction n as [|n IH]; [done|]. simpl in *.
    by destruct (replicate n x). }
  simpl. replace (n + 2) with (S (S n)) by lia.
  by rewrite replicate_S_end.
Qed.

Lemma collect_replicate {B} (f : A → result B) (n : nat) (x : A) (y : B) :
  f x = Ok y → collect f (replicate n x) = Ok (replicate n y).
Proof.
  intros Hf. induction n as [|n IH]; simpl; [done|]. by rewrite Hf, IH.
Qed.

End ConstantFields.

Lemma pad_edge_full {A} (d h w : nat) (c : A) :
  0 < d → 0 < h → 0 < w →
  pad_edge (full d h w c) = Ok (full (d + 2) (h + 2) (w + 2) c).
Proof.
  intros Hd Hh Hw. unfold pad_edge, full.
  rewrite (collect_replicate _ d _ (replicate (h + 2) (replicate (w + 2) c))).
  - simpl. by apply pad_edge1_replicate.
  - rewrite (collect_replicate _ h _ (replicate (w + 2) c))
      by by apply pad_edge1_replicate.
    simpl. by apply pad_edge1_replicate.
Qed.

Lemma map3_full {A B} (f : A → B) (d h w : nat) (c : A) :
  map3 f (full d h w c) = full d h w (f c).
Proof. unfold map3, full. by rewrite !fmap_replicate. Qed.

Lemma zip3_full {A B C} (f : A → B → C) (d h w : nat) (a : A) (b : B) :
  zip3 f (full d h w a) (full d h w b) = full d h w (f a b).
Proof. unfold zip3, full. by rewrite !zip_with_replicate. Qed.

(** The six neighbour views of a padded constant field. *)
Lemma neighbours_full {A} (d h w : nat) (c : A) :
  let padded := full (d + 2) (h + 2) (w + 2) c in
  slice3 (upto (-2)) (between 1 (-1)) (between 1 (-1)) padded = full d h w c ∧
  slice3 (from 2) (between 1 (-1)) (between 1 (-1)) padded = full d h w c ∧
  slice3 (between 1 (-1)) (upto (-2)) (between 1 (-1)) padded = full d h w c ∧
  slice3 (between 1 (-1)) (from 2) (between 1 (-1)) padded = full d h w c ∧
  slice3 (between 1 (-1)) (between 1 (-1)) (upto (-2)) padded = full d h w c ∧
  slice3 (between 1 (-1)) (between 1 (-1)) (from 2) padded = full d h w c.
Proof.
  unfold slice3, full; simpl.
  rewrite ?py_slice_upto_replicate, ?py_slice_between_replicate,
    ?py_slice_from_replicate, !fmap_replicate.
  rewrite ?py_slice_upto_replicate, ?py_slice_between_replicate,
    ?py_slice_from_replicate, !fmap_replicate.
  rewrite ?py_slice_upto_replicate, ?py_slice_between_replicate,
    ?py_slice_from_replicate.
  done.
Qed.

(** One update leaves a constant field as it is. *)
Lemma diffusion_update_full (d h w : nat) (c K lambda_param : R)
    (diffusion_type : Z) :
  0 < d → 0 < h → 0 < w →
  diffusion_update (full d h w c) K lambda_param diffusion_type
  = Ok (full d h w c).
Proof.
  intros Hd Hh Hw. unfold diffusion_update.
  rewrite pad_edge_full by done; simpl.
  destruct (neighbours_full d h w c) as (-> & -> & -> & -> & -> & ->).
  rewrite !zip3_full, !map3_full, !zip3_full, !map3_full, !zip3_full.
  do 2 f_equal. ring.
Qed.

(** ** The diffusion solver *)

(** Without CuPy the solver is the identity and prints one warning. *)
Lemma perona_malik_gpu_unavailable (volume : Volume) (iterations : Z)
    (K lambda_param : R) (diffusion_type : Z) :
  perona_malik_gpu false volume iterations K lambda_param diffusion_type
  = ([Stdout CupyUnavailableReturningUnsmoothed], Ok volume).
Proof. reflexivity. Qed.

(** The value returned with CuPy: the first buffer after the loop. *)
Lemma perona_malik_gpu_result (volume : Volume) (iterations : Z)
    (K lambda_param : R) (diffusion_type : Z) :
  (perona_malik_gpu true volume iterations K lambda_param diffusion_type).2
  = match (mfor_each
             (diffusion_iteration K lambda_param diffusion_type iterations)
             (seq 0 (Z.to_nat iterations))
             (volume, map3 (λ _, 0%R) volume)).2 with
    | inl e => inl e
    | inr buffers => Ok buffers.1
    end.
Proof.
  unfold perona_malik_gpu. cbn [negb]. rewrite !mbind_result. cbn [print emit snd].
  by destruct (mfor_each _ _ _).2.
Qed.

Lemma diffusion_iteration_result (K lambda_param : R) (diffusion_type : Z)
    (iterations : Z) (vol_gpu output_gpu : Volume) (iteration : nat) :
  (diffusion_iteration K lambda_param diffusion_type iterations
     (vol_gpu, output_gpu) iteration).2
  = match diffusion_update vol_gpu K lambda_param diffusion_type with
    | inl e => inl e
    | inr updated => Ok (assign_block output_gpu updated, vol_gpu)
    end.
Proof.
  unfold diffusion_iteration. rewrite mbind_result. cbn [lift snd].
  by destruct (diffusion_update _ _ _ _).
Qed.

Lemma perona_malik_gpu_full (HAS_CUPY : bool) (d h w : nat) (c : R)
    (iterations : Z) (K lambda_param : R) (diffusion_type : Z) :
  0 < d → 0 < h → 0 < w →
  (perona_malik_gpu HAS_CUPY (full d h w c) iterations K lambda_param
     diffusion_type).2
  = Ok (full d h w c).
Proof.
  intros Hd Hh Hw. destruct HAS_CUPY; [|done].
  rewrite perona_malik_gpu_result.
  match goal with
  | |- match ?run.2 with _ => _ end = _ =>
      assert (∃ buffers, run.2 = Ok buffers ∧ buffers.1 = full d h w c)
        as (buffers & -> & Hfst)
  end; [|simpl; by rewrite Hfst].
  destruct (mfor_each_invariant
              (λ buffers : Volume * Volume,
                 buffers.1 = full d h w c ∧ has_shape buffers.2 d h w)
              (diffusion_iteration K lambda_param diffusion_type iterations)
              (seq 0 (Z.to_nat iterations))
              (full d h w c, map3 (λ _, 0%R) (full d h w c)))
    as (buffers & Hrun & Hfst & _).
  - intros [vol_gpu output_gpu] i [Hvol Hout]; simpl in Hvol, Hout.
    subst vol_gpu. rewrite diffusion_iteration_result.
    rewrite diffusion_update_full by done.
    eexists; split; [reflexivity|]. simpl. split.
    + eapply assign_block_same_shape; [exact Hout|apply has_shape_full].
    + apply has_shape_full.
  - simpl. split; [done|]. rewrite map3_full. apply has_shape_full.
  - exists buffers. split; [exact Hrun|exact Hfst].
Qed.

(** The grid of a constant cube reduced in one chunk. *)
Lemma compute_chunk_minmax_full (n : nat) (c : R) :
  0 < n →
  ∃ grid,
    compute_chunk_minmax (full n n n c) n = Ok grid ∧
    (num_chunks_z grid, num_chunks_y grid, num_chunks_x grid) = (1, 1, 1) ∧
    cell grid 0 0 0 = Some (c, c).
Proof.
  intros Hn.
  assert (Hcount : chunk_count n n = 1).
  { destruct (chunk_count_ceil n n Hn). nia. }
  destruct (compute_chunk_minmax_spec (full n n n c) n n n n)
    as (grid & Hrun & Hnz & Hny & Hnx & _ & Hcells);
    [apply has_shape_full|done..|].
  rewrite Hcount in *. exists grid. split; [done|]. split; [congruence|].
  rewrite Hcells by lia.
  destruct (chunk_extrema_of_padded (full n n n c) (1 * n) (1 * n) (1 * n)
              n 0 0 0) as [[(z & y & x & Hin & Hlo) _] [(z' & y' & x' & Hin' & Hhi) _]];
    [done|lia..|].
  assert (Hc : ∀ z y x, in_chunk n 0 0 0 z y x →
                        padded_voxel (full n n n c) z y x = c).
  { intros ??? (? & ? & ?). unfold padded_voxel.
    by rewrite get3_full by lia. }
  rewrite Hc in Hlo, Hhi by done.
  destruct (extrema _); simpl in *. by subst.
Qed.

(** A volume all of whose voxels equal [c] is the constant array. *)
Lemma constant_volume_full (volume : Volume) (d h w : nat) (c : R) :
  has_shape volume d h w →
  (∀ z y x, z < d → y < h → x < w → get3 volume z y x = Some c) →
  volume = full d h w c.
Proof.
  intros Hv Hc. apply (has_shape_ext _ _ d h w); [done|apply has_shape_full|].
  intros z y x Hz Hy Hx. by rewrite Hc, get3_full.
Qed.

(** C10.  Without CuPy the solver returns the volume it was given, for
    every volume, iteration count and parameter set; its only effect is
    the warning on the console. *)
Theorem unavailable_backend_skips_smoothing (volume : Volume)
    (iterations : Z) (K lambda_param : R) (diffusion_type : Z) :
  perona_malik_gpu false volume iterations K lambda_param diffusion_type
  = ([Stdout CupyUnavailableReturningUnsmoothed], Ok volume).
Proof. reflexivity. Qed.

(** ** The conversion driver *)

Lemma mbind_lift_Ok {A B} (a : A) (k : A → M B) : mbind (lift (Ok a)) k = k a.
Proof. unfold mbind, lift; simpl. by destruct (k a). Qed.

Lemma mbind_lift_Raise {A B} (e : exn) (k : A → M B) :
  mbind (lift (Raise e)) k = ([], inl e).
Proof. done. Qed.

Lemma mbind_mret {A B} (a : A) (k : A → M B) : mbind (mret a) k = k a.
Proof. unfold mbind, mret; simpl. by destruct (k a). Qed.

Lemma mbind_emit {B} (e : event) (k : () → M B) :
  mbind (emit e) k = (e :: (k ()).1, (k ()).2).
Proof. done. Qed.

Lemma mbind_pair {A B} (events : list event) (a : A) (k : A → M B) :
  mbind (events, Ok a) k = (events ++ (k a).1, (k a).2).
Proof. done. Qed.

Section DriverFacts.
Variable astype_float16 : R → float16.
Variable sha256_hexdigest : string → string.
Variable py_str : json → string.

Abbreviation convert :=
  (convert_dicom_series astype_float16 sha256_hexdigest py_str).

Lemma write_slices_run (volume_f16 : list (list (list float16))) indices :
  (∀ i, i ∈ indices → i < length volume_f16) →
  mfor_each (λ (_ : ()) i,
      mbind (lift (index volume_f16 i)) (λ slice, emit (WriteSlice i slice)))
    indices ()
  = (slice_writes volume_f16 indices, Ok ()).
Proof.
  induction indices as [|i indices IH]; intros Hin; [done|].
  cbn [mfor_each]. unfold index at 1.
  destruct (lookup_lt_is_Some_2 volume_f16 i) as [slice Hs]; [apply Hin; left|].
  rewrite Hs. rewrite mbind_lift_Ok, mbind_emit.
  rewrite IH by (intros; apply Hin; by right).
  unfold slice_writes; simpl. by rewrite Hs.
Qed.

(** A run that gets past validation, loading, smoothing and the chunk
    reduction performs exactly these effects. *)
Lemma convert_run HAS_CUPY first rest apply_smoothing smoothing_iterations
    chunk_size anonymize height width loaded global_min global_max
    events volume grid :
  validate_chunk_size chunk_size = Ok () →
  shape2 (pixel_array first) = (height, width) →
  for_each (load_slice height width) (imap pair (first :: rest))
    (full (S (length rest)) height width 0%R, None, None)
  = Ok (loaded, global_min, global_max) →
  smoothing_step HAS_CUPY apply_smoothing loaded smoothing_iterations
  = (events, Ok volume) →
  compute_chunk_minmax volume (Z.to_nat chunk_size) = Ok grid →
  length volume = S (length rest) →
  convert HAS_CUPY (first :: rest) apply_smoothing smoothing_iterations
    chunk_size anonymize
  = (Mkdir :: events
       ++ slice_writes (map3 astype_float16 volume) (seq 0 (S (length rest)))
       ++ [ WriteChunkMinmax (chunk_file grid);
            WriteMetadata
              (metadata_of sha256_hexdigest py_str (first :: rest)
                 global_min global_max anonymize chunk_size grid);
            Stdout ConversionComplete;
            Stdout (if apply_smoothing && HAS_CUPY
                   then SummarySmoothingApplied smoothing_iterations
                   else SummarySmoothingSkipped) ],
     Ok ()).
Proof.
  intros Hvalid Hshape Hload Hsmooth Hchunk Hlen.
  unfold convert_dicom_series.
  rewrite Hvalid, mbind_lift_Ok, mbind_emit. rewrite Hshape.
  cbn [length]. rewrite Hload, mbind_lift_Ok.
  fold (smoothing_step HAS_CUPY apply_smoothing loaded smoothing_iterations).
  rewrite Hsmooth, mbind_pair. cbn [fst snd].
  rewrite Hchunk, mbind_lift_Ok.
  rewrite write_slices_run.
  2:{ intros i Hi. apply elem_of_seq in Hi.
      unfold map3. rewrite length_fmap. lia. }
  rewrite mbind_pair, !mbind_emit. cbn [fst snd].
  unfold metadata_of. by destruct (apply_smoothing && HAS_CUPY).
Qed.

Lemma convert_invalid HAS_CUPY sorted_files apply_smoothing
    smoothing_iterations chunk_size anonymize e :
  validate_chunk_size chunk_size = Raise e →
  convert HAS_CUPY sorted_files apply_smoothing smoothing_iterations
    chunk_size anonymize
  = ([], inl e).
Proof. intros Hvalid. unfold convert_dicom_series. by rewrite Hvalid. Qed.

Lemma convert_no_files HAS_CUPY apply_smoothing smoothing_iterations
    chunk_size anonymize :
  validate_chunk_size chunk_size = Ok () →
  convert HAS_CUPY [] apply_smoothing smoothing_iterations chunk_size
    anonymize
  = ([Mkdir; Stdout NoValidDicomFiles], Ok ()).
Proof. intros Hvalid. unfold convert_dicom_series. by rewrite Hvalid. Qed.

Lemma convert_load_error HAS_CUPY first rest apply_smoothing
    smoothing_iterations chunk_size anonymize height width e :
  validate_chunk_size chunk_size = Ok () →
  shape2 (pixel_array first) = (height, width) →
  for_each (load_slice height width) (imap pair (first :: rest))
    (full (S (length rest)) height width 0%R, None, None)
  = Raise e →
  convert HAS_CUPY (first :: rest) apply_smoothing smoothing_iterations
    chunk_size anonymize
  = ([Mkdir], inl e).
Proof.
  intros Hvalid Hshape Hload. unfold convert_dicom_series.
  rewrite Hvalid, mbind_lift_Ok, mbind_emit. rewrite Hshape.
  cbn [length]. by rewrite Hload.
Qed.

Lemma convert_chunk_error HAS_CUPY first rest apply_smoothing
    smoothing_iterations chunk_size anonymize height width loaded
    global_min global_max events volume e :
  validate_chunk_size chunk_size = Ok () →
  shape2 (pixel_array first) = (height, width) →
  for_each (load_slice height width) (imap pair (first :: rest))
    (full (S (length rest)) height width 0%R, None, None)
  = Ok (loaded, global_min, global_max) →
  smoothing_step HAS_CUPY apply_smoothing loaded smoothing_iterations
  = (events, Ok volume) →
  compute_chunk_minmax volume (Z.to_nat chunk_size) = Raise e →
  convert HAS_CUPY (first :: rest) apply_smoothing smoothing_iterations
    chunk_size anonymize
  = (Mkdir :: events, inl e).
Proof.
  intros Hvalid Hshape Hload Hsmooth Hchunk.
  unfold convert_dicom_series.
  rewrite Hvalid, mbind_lift_Ok, mbind_emit. rewrite Hshape.
  cbn [length]. rewrite Hload, mbind_lift_Ok.
  fold (smoothing_step HAS_CUPY apply_smoothing loaded smoothing_iterations).
  rewrite Hsmooth, mbind_pair. cbn [fst snd].
  rewrite Hchunk. cbn. by rewrite app_nil_r.
Qed.

(** Loading fills the slots of the volume and keeps its length. *)
Lemma load_length height width items state loaded global_min global_max :
  for_each (load_slice height width) items state
  = Ok (loaded, global_min, global_max) →
  length loaded = length state.1.1.
Proof.
  intros Hload.
  apply (for_each_invariant
           (λ s : Volume * option R * option R,
              length s.1.1 = length state.1.1)
           _ _ _ _) in Hload; [done| |done].
  intros [[v gmin] gmax] [i ds] s' Hs. unfold load_slice.
  destruct (np_min _); simpl; [done|].
  destruct (np_max _); simpl; [done|].
  destruct (broadcast_to _ _ _); simpl; [done|].
  intros [= <-]. cbn [fst snd] in *. rewrite <- Hs. apply length_insert.
Qed.

Lemma metadata_of_keys first rest global_min global_max anonymize
    chunk_size grid :
  (metadata_of sha256_hexdigest py_str (first :: rest) global_min
     global_max anonymize chunk_size grid).*1
  = metadata_keys.
Proof. by destruct anonymize. Qed.

End DriverFacts.

Lemma validate_chunk_size_Ok (chunk_size : Z) :
  (chunk_size `mod` 16 = 0 ∧ 16 ≤ chunk_size ≤ 256)%Z →
  validate_chunk_size chunk_size = Ok ().
Proof.
  intros [Hmod [Hlo Hhi]]. unfold validate_chunk_size.
  rewrite Hmod; simpl.
  destruct (Z.ltb_spec chunk_size 16), (Z.ltb_spec 256 chunk_size);
    simpl; (done || lia).
Qed.

Lemma validate_chunk_size_Raise (chunk_size : Z) :
  (chunk_size `mod` 16 ≠ 0 ∨ chunk_size < 16 ∨ 256 < chunk_size)%Z →
  ∃ e, validate_chunk_size chunk_size = Raise e ∧
       is_configuration_error e = true.
Proof.
  intros Hbad. unfold validate_chunk_size.
  destruct (Z.eqb_spec (chunk_size `mod` 16) 0) as [Hmod|Hmod]; simpl;
    [|by eexists].
  destruct (Z.ltb_spec chunk_size 16), (Z.ltb_spec 256 chunk_size);
    simpl; try by eexists.
  lia.
Qed.

(** C7.  A chunk size that is not a multiple of 16 or lies outside
    [16, 256] makes [convert_dicom_series] raise a configuration error
    before its first effect: no directory is created, nothing is written
    or printed.  For a multiple of 16 between 16 and 256 the validation
    passes and the run goes on to create the output directory. *)
Theorem chunk_size_validation
    (astype_float16 : R → float16) (sha256_hexdigest : string → string)
    (py_str : json → string) (HAS_CUPY : bool) (sorted_files : list Dataset)
    (apply_smoothing : bool) (smoothing_iterations chunk_size : Z)
    (anonymize : bool) :
  let run :=
    convert_dicom_series astype_float16 sha256_hexdigest py_str HAS_CUPY
      sorted_files apply_smoothing smoothing_iterations chunk_size anonymize in
  ((chunk_size `mod` 16 ≠ 0 ∨ chunk_size < 16 ∨ 256 < chunk_size)%Z →
   ∃ e, run = ([], Raise e) ∧ is_configuration_error e = true) ∧
  ((chunk_size `mod` 16 = 0 ∧ 16 ≤ chunk_size ≤ 256)%Z →
   validate_chunk_size chunk_size = Ok () ∧
   ∃ events, run.1 = Mkdir :: events).
Proof.
  intros run. split.
  - intros Hbad. destruct (validate_chunk_size_Raise _ Hbad) as (e & He & Hc).
    exists e. split; [|done]. by apply convert_invalid.
  - intros Hgood. pose proof (validate_chunk_size_Ok _ Hgood) as Hvalid.
    split; [done|]. unfold run, convert_dicom_series.
    rewrite Hvalid, mbind_lift_Ok, mbind_emit. by eexists.
Qed.

Lemma files_written_slice_writes volume_f16 indices :
  files_written (slice_writes volume_f16 indices)
  = slice_writes volume_f16 indices.
Proof.
  unfold files_written, slice_writes.
  induction indices as [|i indices IH]; [done|].
  rewrite fmap_cons, filter_cons_True by done. by rewrite IH.
Qed.

Lemma metadata_written_slice_writes volume_f16 indices :
  metadata_written (slice_writes volume_f16 indices) = [].
Proof.
  unfold metadata_written, slice_writes.
  induction indices as [|i indices IH]; [done|]. by rewrite fmap_cons.
Qed.

Lemma print_not_in_slice_writes m volume_f16 indices :
  Stdout m ∉ slice_writes volume_f16 indices.
Proof.
  unfold slice_writes. intros Hin.
  by apply list_elem_of_fmap in Hin as (i & Heq & _).
Qed.

Lemma smoothing_step_without_cupy (apply_smoothing : bool) (volume : Volume)
    (smoothing_iterations : Z) :
  smoothing_step false apply_smoothing volume smoothing_iterations
  = (if apply_smoothing then [Stdout SmoothingRequestedButCupyUnavailable]
     else [], Ok volume).
Proof. by destruct apply_smoothing. Qed.

(** C1 (amended).  Without CuPy the solver prints a warning and returns
    the volume it was given, with no status value.  A run of the driver
    with smoothing requested then has the outcome of a run with smoothing
    disabled and writes the very same files: the degradation is reported
    on the console only.  The run never prints that smoothing was
    applied; when it completes on a non-empty series it has printed the
    warning, its last line is "Smoothing: Skipped", and the one metadata
    dictionary it wrote has the fixed keys [metadata_keys], none of which
    concerns smoothing. *)
Theorem degraded_mode_reported_on_console_only
    (astype_float16 : R → float16) (sha256_hexdigest : string → string)
    (py_str : json → string) (sorted_files : list Dataset)
    (smoothing_iterations chunk_size : Z) (anonymize : bool) :
  let degraded :=
    convert_dicom_series astype_float16 sha256_hexdigest py_str false
      sorted_files true smoothing_iterations chunk_size anonymize in
  let disabled :=
    convert_dicom_series astype_float16 sha256_hexdigest py_str false
      sorted_files false smoothing_iterations chunk_size anonymize in
  (∀ volume iterations K lambda_param diffusion_type,
     perona_malik_gpu false volume iterations K lambda_param diffusion_type
     = ([Stdout CupyUnavailableReturningUnsmoothed], Ok volume)) ∧
  degraded.2 = disabled.2 ∧
  files_written degraded.1 = files_written disabled.1 ∧
  (∀ n, Stdout (SummarySmoothingApplied n) ∉ degraded.1) ∧
  (sorted_files ≠ [] → degraded.2 = Ok () →
   Stdout SmoothingRequestedButCupyUnavailable ∈ degraded.1 ∧
   last degraded.1 = Some (Stdout SummarySmoothingSkipped) ∧
   ∃ metadata,
     metadata_written degraded.1 = [metadata] ∧
     metadata.*1 = metadata_keys).
Proof.
  intros degraded disabled. subst degraded disabled.
  split; [reflexivity|].
  destruct (validate_chunk_size chunk_size) as [e|[]] eqn:Hvalid.
  { rewrite !convert_invalid with (e:=e) by done. simpl.
    split_and!; [done|done|intros n Hn; inversion Hn|done]. }
  destruct sorted_files as [|first rest].
  { rewrite !convert_no_files by done. simpl. split_and!; [done|done| |done].
    intros n Hn. apply elem_of_cons in Hn as [?|Hn]; [done|].
    by apply list_elem_of_singleton in Hn. }
  destruct (shape2 (pixel_array first)) as [height width] eqn:Hshape.
  destruct (for_each (load_slice height width) (imap pair (first :: rest))
              (full (S (length rest)) height width 0%R, None, None))
    as [e|[[loaded global_min] global_max]] eqn:Hload.
  { rewrite !convert_load_error with (height:=height) (width:=width) (e:=e)
      by done.
    simpl. split_and!; [done|done| |done].
    intros n Hn. by apply list_elem_of_singleton in Hn. }
  pose proof (load_length _ _ _ _ _ _ _ Hload) as Hlen; simpl in Hlen.
  unfold full in Hlen. rewrite length_replicate in Hlen.
  destruct (compute_chunk_minmax loaded (Z.to_nat chunk_size))
    as [e|grid] eqn:Hchunk.
  { rewrite convert_chunk_error
      with (height:=height) (width:=width) (loaded:=loaded)
           (global_min:=global_min) (global_max:=global_max)
           (volume:=loaded) (e:=e)
           (events:=[Stdout SmoothingRequestedButCupyUnavailable])
      by done.
    rewrite convert_chunk_error
      with (height:=height) (width:=width) (loaded:=loaded)
           (global_min:=global_min) (global_max:=global_max)
           (volume:=loaded) (e:=e) (events:=[])
      by done.
    simpl. split_and!; [done| |  |done].
    - unfold files_written. by rewrite filter_cons_True, filter_cons_False.
    - intros n Hn. apply elem_of_cons in Hn as [?|Hn]; [done|].
      by apply list_elem_of_singleton in Hn. }
  rewrite convert_run
    with (height:=height) (width:=width) (loaded:=loaded)
         (global_min:=global_min) (global_max:=global_max)
         (volume:=loaded) (grid:=grid)
         (events:=[Stdout SmoothingRequestedButCupyUnavailable])
    by done.
  rewrite convert_run
    with (height:=height) (width:=width) (loaded:=loaded)
         (global_min:=global_min) (global_max:=global_max)
         (volume:=loaded) (grid:=grid) (events:=[])
    by done.
  cbn [fst snd andb app].
  set (writes := slice_writes _ _).
  set (metadata := metadata_of _ _ _ _ _ _ _ _).
  split_and!.
  - done.
  - unfold files_written.
    rewrite filter_cons_True by done.
    by rewrite (filter_cons_False _ (Stdout _)) by done.
  - intros n Hn. apply elem_of_cons in Hn as [?|Hn]; [done|].
    apply elem_of_cons in Hn as [?|Hn]; [done|].
    apply elem_of_app in Hn as [Hn|Hn];
      [by apply print_not_in_slice_writes in Hn|].
    repeat (apply elem_of_cons in Hn as [?|Hn]; [done|]). inversion Hn.
  - intros _ _. split_and!.
    + right; left.
    + rewrite 2!app_comm_cons, last_app. done.
    + exists metadata. split; [|apply metadata_of_keys].
      rewrite 2!app_comm_cons. unfold metadata_written. rewrite omap_app.
      change (omap _ (Mkdir :: Stdout _ :: writes))
        with (metadata_written writes).
      unfold writes. by rewrite metadata_written_slice_writes.
Qed.

(** ** A one-slice series *)

Lemma sample_loaded_value : sample_loaded = [[[0%R; 100%R]]].
Proof. unfold sample_loaded. repeat f_equal; lra. Qed.

Lemma sample_load :
  for_each (load_slice 1 2) (imap pair [sample_dataset])
    (full 1 1 2 0%R, None, None)
  = Ok (sample_loaded,
        Some (Rmin (IZR 0 * 1 + 0) (IZR 100 * 1 + 0)),
        Some (Rmax (IZR 0 * 1 + 0) (IZR 100 * 1 + 0))).
Proof. reflexivity. Qed.

(** One iteration of the solver on the loaded volume, with the
    parameters of the driver: 0 and 100 become 2 and 98. *)
Lemma sample_smoothing :
  perona_malik_gpu true [[[0%R; 100%R]]] 1 50 0.1 2
  = ([Stdout (ApplyingSmoothing 1); Stdout (IterationComplete 1 1);
      Stdout SmoothingComplete],
     Ok [[[2%R; 98%R]]]).
Proof.
  lazy -[IZR Rabs Rdiv Rplus Rmult Ropp Rinv].
  do 2 f_equal. repeat f_equal.
  - replace (0 + - 0)%R with 0%R by lra.
    replace (100 + - 0)%R with 100%R by lra.
    rewrite Rabs_R0, (Rabs_pos_eq 100) by lra. field.
  - replace (100 + - (100))%R with 0%R by lra.
    replace (0 + - (100))%R with (-100)%R by lra.
    rewrite Rabs_R0, (Rabs_left (-100)) by lra. field.
Qed.

Lemma has_shape_sample_loaded : has_shape sample_loaded 1 1 2.
Proof. split; [done|]. repeat constructor. Qed.

Lemma has_shape_sample_smoothed : has_shape ([[[2%R; 98%R]]] : Volume) 1 1 2.
Proof. split; [done|]. repeat constructor. Qed.

(** The run on the sample series, chunk size 16, smoothing requested with
    one iteration: its effects and the chunk counts it reports. *)
Lemma sample_run (HAS_CUPY : bool) :
  ∃ events grid,
    convert_dicom_series example_astype_float16 example_sha256_hexdigest
      example_py_str HAS_CUPY [sample_dataset] true 1 16 true
    = (events, Ok ()) ∧
    (num_chunks_z grid, num_chunks_y grid, num_chunks_x grid) = (1, 1, 1) ∧
    metadata_written events
    = [metadata_of example_sha256_hexdigest example_py_str [sample_dataset]
         (Some (Rmin (IZR 0 * 1 + 0) (IZR 100 * 1 + 0)))
         (Some (Rmax (IZR 0 * 1 + 0) (IZR 100 * 1 + 0))) true 16 grid] ∧
    last events
    = Some (Stdout (if HAS_CUPY then SummarySmoothingApplied 1
                   else SummarySmoothingSkipped)).
Proof.
  set (volume := if HAS_CUPY then ([[[2%R; 98%R]]] : Volume) else sample_loaded).
  assert (Hshape : has_shape volume 1 1 2).
  { destruct HAS_CUPY; [apply has_shape_sample_smoothed
                       |apply has_shape_sample_loaded]. }
  destruct (compute_chunk_minmax_spec volume 1 1 2 16 Hshape)
    as (grid & Hchunk & Hnz & Hny & Hnx & _); [lia..|].
  eexists _, grid. split; [|split; [|split]].
  - eapply (convert_run _ _ _ HAS_CUPY sample_dataset [] true 1 16 true 1 2
              sample_loaded _ _
              (if HAS_CUPY
               then [Stdout (ApplyingSmoothing 1); Stdout (IterationComplete 1 1);
                     Stdout SmoothingComplete]
               else [Stdout SmoothingRequestedButCupyUnavailable])
              volume grid);
      [done|done|exact sample_load| |exact Hchunk|by destruct HAS_CUPY].
    unfold smoothing_step, volume. destruct HAS_CUPY; cbn [andb negb].
    + rewrite sample_loaded_value. exact sample_smoothing.
    + reflexivity.
  - by rewrite Hnz, Hny, Hnx.
  - unfold metadata_written. rewrite app_comm_cons, !omap_app.
    change (omap _ (slice_writes ?v ?i))
      with (metadata_written (slice_writes v i)).
    rewrite metadata_written_slice_writes.
    by destruct HAS_CUPY.
  - rewrite app_comm_cons, app_assoc, last_app. by destruct HAS_CUPY.
Qed.

(** C1, as stated, fails.  On the sample series the solver would turn the
    voxels 0 and 100 into 2 and 98; the run without CuPy and the run with
    CuPy both complete, return the same value and write the same
    metadata, although only the second one smoothed the volume: nothing
    computed from what the caller receives tells the two runs apart. *)
Lemma degraded_mode_not_flagged :
  let run HAS_CUPY :=
    convert_dicom_series example_astype_float16 example_sha256_hexdigest
      example_py_str HAS_CUPY [sample_dataset] true 1 16 true in
  (∃ global_min global_max,
     for_each (load_slice 1 2) (imap pair [sample_dataset])
       (full 1 1 2 0%R, None, None)
     = Ok ([[[0%R; 100%R]]], global_min, global_max)) ∧
  (perona_malik_gpu true [[[0%R; 100%R]]] 1 50 0.1 2).2 = Ok [[[2%R; 98%R]]] ∧
  (perona_malik_gpu false [[[0%R; 100%R]]] 1 50 0.1 2).2
  = Ok [[[0%R; 100%R]]] ∧
  (run false).2 = Ok () ∧ (run true).2 = Ok () ∧
  last (run true).1 = Some (Stdout (SummarySmoothingApplied 1)) ∧
  reported_status (run false) = reported_status (run true) ∧
  ∀ flag : result () * list (list (string * json)) → bool,
    flag (reported_status (run false)) = flag (reported_status (run true)).
Proof.
  intros run.
  assert (Hsame : reported_status (run false) = reported_status (run true)).
  { destruct (sample_run false) as (ev0 & g0 & Hrun0 & Hn0 & Hmd0 & _).
    destruct (sample_run true) as (ev1 & g1 & Hrun1 & Hn1 & Hmd1 & _).
    unfold run, reported_status. rewrite Hrun0, Hrun1. cbn [fst snd].
    rewrite Hmd0, Hmd1. unfold metadata_of.
    injection Hn0 as -> -> ->. injection Hn1 as -> -> ->. done. }
  split_and!; [| | | | | |exact Hsame|intros flag; by rewrite Hsame].
  - eexists _, _. rewrite <- sample_loaded_value. exact sample_load.
  - by rewrite sample_smoothing.
  - reflexivity.
  - destruct (sample_run false) as (events & grid & Hrun & _).
    unfold run. by rewrite Hrun.
  - destruct (sample_run true) as (events & grid & Hrun & _).
    unfold run. by rewrite Hrun.
  - destruct (sample_run true) as (events & grid & Hrun & _ & _ & Hlast).
    unfold run. by rewrite Hrun.
Qed.

Lemma degraded_mode_reported_on_console_only_witness :
  let degraded :=
    convert_dicom_series example_astype_float16 example_sha256_hexdigest
      example_py_str false [sample_dataset] true 1 16 true in
  [sample_dataset] ≠ [] ∧ degraded.2 = Ok () ∧
  Stdout SmoothingRequestedButCupyUnavailable ∈ degraded.1 ∧
  last degraded.1 = Some (Stdout SummarySmoothingSkipped) ∧
  ∃ metadata,
    metadata_written degraded.1 = [metadata] ∧ metadata.*1 = metadata_keys.
Proof.
  intros degraded.
  assert (Hne : [sample_dataset] ≠ []) by discriminate.
  assert (Hok : degraded.2 = Ok ()).
  { destruct (sample_run false) as (events & grid & Hrun & _).
    unfold degraded. rewrite Hrun. reflexivity. }
  split; [exact Hne|]. split; [exact Hok|].
  exact (proj2 (proj2 (proj2 (proj2
    (degraded_mode_reported_on_console_only example_astype_float16
       example_sha256_hexdigest example_py_str [sample_dataset] 1 16 true))))
    Hne Hok).
Defined.

Lemma chunk_size_validation_witness :
  ((20 `mod` 16 ≠ 0 ∨ 20 < 16 ∨ 256 < 20)%Z ∧
   ∃ e,
     convert_dicom_series example_astype_float16 example_sha256_hexdigest
       example_py_str true [sample_dataset] true 5 20 true
     = ([], Raise e) ∧
     is_configuration_error e = true) ∧
  ((32 `mod` 16 = 0 ∧ 16 ≤ 32 ≤ 256)%Z ∧
   validate_chunk_size 32 = Ok () ∧
   ∃ events,
     (convert_dicom_series example_astype_float16 example_sha256_hexdigest
        example_py_str true [sample_dataset] true 5 32 true).1
     = Mkdir :: events).
Proof.
  assert (Hbad : (20 `mod` 16 ≠ 0 ∨ 20 < 16 ∨ 256 < 20)%Z)
    by (left; discriminate).
  assert (Hgood : (32 `mod` 16 = 0 ∧ 16 ≤ 32 ≤ 256)%Z)
    by (split; [reflexivity|lia]).
  split.
  - split; [exact Hbad|].
    exact (proj1 (chunk_size_validation example_astype_float16
                    example_sha256_hexdigest example_py_str true
                    [sample_dataset] true 5 20 true) Hbad).
  - split; [exact Hgood|].
    exact (proj2 (chunk_size_validation example_astype_float16
                    example_sha256_hexdigest example_py_str true
                    [sample_dataset] true 5 32 true) Hgood).
Defined.

(** * Further properties of the code *)

(** ** Slices and edge padding on arbitrary arrays *)

Lemma collect_Ok {I A} (f : I → result A) (xs : list I) (ys : list A) :
  collect f xs = Ok ys ↔ Forall2 (λ x y, f x = Ok y) xs ys.
Proof.
  revert ys; induction xs as [|x xs IH]; intros ys; simpl.
  - split; [intros [= <-]; constructor|by inversion 1].
  - split.
    + destruct (f x) as [e|a] eqn:Hf; simpl; [done|].
      destruct (collect f xs) as [e|l] eqn:Hc; simpl; [done|].
      intros [= <-]. constructor; [done|]. by apply IH.
    + inversion 1 as [|? y ? l Hx Hxs]; subst.
      apply IH in Hxs. rewrite Hx, Hxs. done.
Qed.

Lemma py_slice_upto_range {A} (l : list A) (n : nat) :
  length l = n + 2 → py_slice (upto (-2)) l = py_slice (range 0 n) l.
Proof.
  intros Hl. rewrite py_slice_range by lia.
  unfold py_slice, upto, slice_index. cbn [fst snd from_option].
  change (-2 <? 0)%Z with true. rewrite Hl. f_equal. lia.
Qed.

Lemma py_slice_between_range {A} (l : list A) (n : nat) :
  length l = n + 2 → py_slice (between 1 (-1)) l = py_slice (range 1 (n + 1)) l.
Proof.
  intros Hl. rewrite py_slice_range by lia.
  unfold py_slice, between, slice_index. cbn [fst snd from_option].
  change (1 <? 0)%Z with false. change (-1 <? 0)%Z with true.
  change (Z.to_nat 1) with 1. rewrite Hl.
  replace (1 `min` (n + 2)) with 1 by lia. f_equal. lia.
Qed.

Lemma py_slice_from_range {A} (l : list A) (n : nat) :
  length l = n + 2 → py_slice (from 2) l = py_slice (range 2 (n + 2)) l.
Proof.
  intros Hl. rewrite py_slice_range by lia.
  unfold py_slice, from, slice_index. cbn [fst snd from_option].
  change (2 <? 0)%Z with false. change (Z.to_nat 2) with 2. rewrite Hl.
  replace (2 `min` (n + 2)) with 2 by lia. f_equal.
Qed.

Lemma elem_of_py_slice {A} (bounds : option Z * option Z) (l : list A) (x : A) :
  x ∈ py_slice bounds l → x ∈ l.
Proof.
  unfold py_slice. intros Hx.
  eapply elem_of_sublist; [exact Hx|].
  etrans; [apply sublist_take|apply sublist_drop].
Qed.

(** Two triples of slices that agree on the planes, rows and columns of an
    array select the same block. *)
Lemma slice3_ext {A} (sz sy sx sz' sy' sx' : option Z * option Z)
    (v : list (list (list A))) (d h w : nat) :
  has_shape v d h w →
  (∀ l : list (list (list A)), length l = d → py_slice sz l = py_slice sz' l) →
  (∀ l : list (list A), length l = h → py_slice sy l = py_slice sy' l) →
  (∀ l : list A, length l = w → py_slice sx l = py_slice sx' l) →
  slice3 sz sy sx v = slice3 sz' sy' sx' v.
Proof.
  intros [Hd Hv] Hz Hy Hx. unfold slice3. rewrite Hz by done.
  apply list_fmap_ext. intros i plane Hi.
  assert (Hin : plane ∈ v).
  { eapply elem_of_py_slice. by eapply list_elem_of_lookup_2. }
  rewrite Forall_forall in Hv. destruct (Hv _ Hin) as [Hh Hrows].
  rewrite Hy by done. apply list_fmap_ext. intros j row Hj.
  assert (Hrow : row ∈ plane).
  { eapply elem_of_py_slice. by eapply list_elem_of_lookup_2. }
  rewrite Forall_forall in Hrows. by apply Hx, Hrows.
Qed.

Lemma collect_spec {I A} (P : I → A → Prop) (f : I → result A) (xs : list I) :
  Forall (λ x, ∃ y, f x = Ok y ∧ P x y) xs →
  ∃ ys, collect f xs = Ok ys ∧ Forall2 P xs ys.
Proof.
  induction 1 as [|x xs (y & Hy & HP) _ (ys & Hys & HPs)]; simpl.
  - by exists [].
  - exists (y :: ys). rewrite Hy, Hys. split; [done|by constructor].
Qed.

Lemma pad_edge1_spec {A} (l : list A) :
  0 < length l →
  ∃ p, pad_edge1 l = Ok p ∧ length p = length l + 2 ∧
       ∀ i, i < length l + 2 → p !! i = l !! edge_index (length l) i.
Proof.
  destruct l as [|a l]; simpl; [lia|]. intros _.
  eexists; split; [done|]. split.
  { simpl. rewrite length_app. simpl. lia. }
  intros i Hi. unfold edge_index.
  destruct i as [|i]; [done|]. simpl.
  replace (i - 0) with i by lia. replace (length l - 0) with (length l) by lia.
  destruct (decide (i ≤ length l)) as [Hle|Hgt].
  - replace (i `min` length l) with i by lia.
    change (a :: l ++ [default a (last (a :: l))])
      with ((a :: l) ++ [default a (last (a :: l))]).
    apply lookup_app_l. simpl; lia.
  - replace (i `min` length l) with (length l) by lia.
    assert (i = S (length l)) as -> by lia.
    change (a :: l ++ [default a (last (a :: l))])
      with ((a :: l) ++ [default a (last (a :: l))]).
    rewrite lookup_app_r by (simpl; lia). simpl.
    replace (length l - length l) with 0 by lia. simpl.
    rewrite last_lookup. simpl.
    destruct ((a :: l) !! length l) eqn:Hl; [done|].
    apply lookup_ge_None in Hl. simpl in Hl. lia.
Qed.

(** Padding one plane: rows first, then the row axis. *)
Lemma pad_plane_spec {A} (plane : list (list A)) (h w : nat) :
  0 < h → 0 < w →
  length plane = h → Forall (λ row, length row = w) plane →
  ∃ p, rbind (collect pad_edge1 plane) pad_edge1 = Ok p ∧
       length p = h + 2 ∧ Forall (λ row, length row = w + 2) p ∧
       ∀ j k, j < h + 2 → k < w + 2 →
         (p !! j ≫= (.!! k))
         = (plane !! edge_index h j ≫= (.!! edge_index w k)).
Proof.
  intros Hh Hw Hlen Hrows.
  destruct (collect_spec
    (λ row p, length p = w + 2 ∧
              ∀ k, k < w + 2 → p !! k = row !! edge_index w k)
    pad_edge1 plane) as (rows & Hc & Hall).
  { eapply Forall_impl; [exact Hrows|]. intros row Hrow. simpl in *.
    destruct (pad_edge1_spec row) as (p & Hp & Hl & Hk); [lia|].
    exists p. rewrite Hrow in *. done. }
  rewrite Hc. simpl.
  assert (Hlr : length rows = h).
  { apply Forall2_length in Hall. lia. }
  destruct (pad_edge1_spec rows) as (p & Hp & Hl & Hj); [lia|].
  exists p. rewrite Hlr in *. split; [done|]. split; [done|]. split.
  - apply Forall_lookup. intros j row Hrow.
    assert (j < h + 2) as Hlt.
    { apply lookup_lt_Some in Hrow. lia. }
    rewrite Hj in Hrow by done.
    destruct (Forall2_lookup_r _ _ _ _ _ Hall Hrow) as (src & _ & Hsrc & _).
    done.
  - intros j k Hlt Hk. rewrite Hj by done.
    assert (edge_index h j < h) as He by (unfold edge_index; lia).
    destruct (lookup_lt_is_Some_2 rows (edge_index h j)) as [row Hrow]; [lia|].
    destruct (Forall2_lookup_r _ _ _ _ _ Hall Hrow) as (src & Hsrc & _ & Hlk).
    rewrite Hrow, Hsrc. simpl. by apply Hlk.
Qed.

Lemma pad_edge_spec {A} (v : list (list (list A))) (d h w : nat) :
  has_shape v d h w → 0 < d → 0 < h → 0 < w →
  ∃ p, pad_edge v = Ok p ∧ has_shape p (d + 2) (h + 2) (w + 2) ∧
       ∀ i j k, i < d + 2 → j < h + 2 → k < w + 2 →
         get3 p i j k
         = get3 v (edge_index d i) (edge_index h j) (edge_index w k).
Proof.
  intros [Hlen Hv] Hd Hh Hw. unfold pad_edge.
  destruct (collect_spec
    (λ (plane p : list (list A)),
       length p = h + 2 ∧ Forall (λ row, length row = w + 2) p ∧
       ∀ j k, j < h + 2 → k < w + 2 →
         (p !! j ≫= (.!! k))
         = (plane !! edge_index h j ≫= (.!! edge_index w k)))
    (λ plane, rbind (collect pad_edge1 plane) pad_edge1) v)
    as (planes & Hc & Hall).
  { eapply Forall_impl; [exact Hv|]. intros plane [Hl Hrows]. simpl.
    by apply pad_plane_spec. }
  rewrite Hc. simpl.
  assert (Hlp : length planes = d).
  { apply Forall2_length in Hall. lia. }
  destruct (pad_edge1_spec planes) as (p & Hp & Hl & Hi); [lia|].
  exists p. rewrite Hlp in *. split; [done|]. split.
  - split; [done|]. apply Forall_lookup. intros i plane Hplane.
    assert (i < d + 2) as Hlt.
    { apply lookup_lt_Some in Hplane. lia. }
    rewrite Hi in Hplane by done.
    destruct (Forall2_lookup_r _ _ _ _ _ Hall Hplane) as (src & _ & ? & ? & _).
    done.
  - intros i j k Hlt Hj Hk. unfold get3. rewrite Hi by done.
    assert (edge_index d i < d) as He by (unfold edge_index; lia).
    destruct (lookup_lt_is_Some_2 planes (edge_index d i)) as [plane Hplane];
      [lia|].
    destruct (Forall2_lookup_r _ _ _ _ _ Hall Hplane)
      as (src & Hsrc & _ & _ & Hlk).
    rewrite Hplane, Hsrc. simpl. by apply Hlk.
Qed.

(** ** Element-wise operations on arbitrary arrays *)

Lemma get3_map3 {A B} (f : A → B) (v : list (list (list A))) (z y x : nat) :
  get3 (map3 f v) z y x = f <$> get3 v z y x.
Proof.
  unfold get3, map3. rewrite list_lookup_fmap.
  destruct (v !! z) as [plane|]; simpl; [|done].
  rewrite list_lookup_fmap. destruct (plane !! y) as [row|]; simpl; [|done].
  by rewrite list_lookup_fmap.
Qed.

Lemma get3_zip3 {A B C} (f : A → B → C)
    (u : list (list (list A))) (v : list (list (list B))) (z y x : nat) :
  get3 (zip3 f u v) z y x
  = (a ← get3 u z y x; b ← get3 v z y x; Some (f a b)).
Proof.
  unfold get3, zip3. rewrite lookup_zip_with.
  destruct (u !! z) as [pu|]; simpl; [|done].
  destruct (v !! z) as [pv|]; simpl.
  2: { by destruct (pu !! y ≫= _). }
  rewrite lookup_zip_with.
  destruct (pu !! y) as [ru|]; simpl; [|done].
  destruct (pv !! y) as [rv|]; simpl.
  2: { by destruct (ru !! x). }
  by rewrite lookup_zip_with.
Qed.

Lemma has_shape_map3 {A B} (f : A → B) (v : list (list (list A)))
    (d h w : nat) :
  has_shape v d h w → has_shape (map3 f v) d h w.
Proof.
  intros [Hd Hv]. split; [unfold map3; by rewrite length_fmap|].
  unfold map3. apply Forall_fmap. eapply Forall_impl; [exact Hv|].
  intros plane [Hh Hrows]. simpl. rewrite length_fmap. split; [done|].
  apply Forall_fmap. eapply Forall_impl; [exact Hrows|].
  intros row Hw. simpl. by rewrite length_fmap.
Qed.

Lemma has_shape_zip3 {A B C} (f : A → B → C)
    (u : list (list (list A))) (v : list (list (list B))) (d h w : nat) :
  has_shape u d h w → has_shape v d h w → has_shape (zip3 f u v) d h w.
Proof.
  intros [Hdu Hu] [Hdv Hv]. unfold zip3. split.
  { rewrite length_zip_with. lia. }
  apply Forall_lookup. intros z plane Hz.
  apply lookup_zip_with_Some in Hz as (pu & pv & -> & Hpu & Hpv).
  rewrite Forall_lookup in Hu. rewrite Forall_lookup in Hv.
  destruct (Hu _ _ Hpu) as [Hhu Hru], (Hv _ _ Hpv) as [Hhv Hrv].
  split. { rewrite length_zip_with. lia. }
  apply Forall_lookup. intros y row Hy.
  apply lookup_zip_with_Some in Hy as (ru & rv & -> & Hyu & Hyv).
  rewrite Forall_lookup in Hru. rewrite Forall_lookup in Hrv.
  specialize (Hru _ _ Hyu). specialize (Hrv _ _ Hyv). simpl in *.
  rewrite length_zip_with. lia.
Qed.

Lemma get3_voxel (volume : Volume) (d h w z y x : nat) :
  has_shape volume d h w → z < d → y < h → x < w →
  get3 volume z y x = Some (voxel volume z y x).
Proof.
  intros Hs Hz Hy Hx. unfold voxel.
  by destruct (get3_is_Some volume d h w z y x Hs Hz Hy Hx) as [a ->].
Qed.

(** ** One update of the solver, voxel by voxel *)

(** The six shifted views of the padded field: their shape, and which
    voxel of the field each of their elements is. *)
Lemma neighbour_view (volume padded : Volume) (d h w : nat)
    (sz sy sx : option Z * option Z) (oz oy ox : nat) :
  has_shape volume d h w → 0 < d → 0 < h → 0 < w →
  has_shape padded (d + 2) (h + 2) (w + 2) →
  (∀ i j k, i < d + 2 → j < h + 2 → k < w + 2 →
     get3 padded i j k
     = get3 volume (edge_index d i) (edge_index h j) (edge_index w k)) →
  oz ≤ 2 → oy ≤ 2 → ox ≤ 2 →
  (∀ l : list (list (list R)), length l = d + 2 →
     py_slice sz l = py_slice (range oz (oz + d)) l) →
  (∀ l : list (list R), length l = h + 2 →
     py_slice sy l = py_slice (range oy (oy + h)) l) →
  (∀ l : list R, length l = w + 2 →
     py_slice sx l = py_slice (range ox (ox + w)) l) →
  has_shape (slice3 sz sy sx padded) d h w ∧
  ∀ z y x, z < d → y < h → x < w →
    get3 (slice3 sz sy sx padded) z y x
    = Some (voxel volume (edge_index d (oz + z)) (edge_index h (oy + y))
                  (edge_index w (ox + x))).
Proof.
  intros Hs Hd Hh Hw Hp Hget Hoz Hoy Hox Hz Hy Hx.
  rewrite (slice3_ext sz sy sx _ _ _ padded _ _ _ Hp Hz Hy Hx).
  split.
  - replace d with (oz + d - oz) at 2 by lia.
    replace h with (oy + h - oy) at 2 by lia.
    replace w with (ox + w - ox) at 2 by lia.
    eapply has_shape_slice3; [exact Hp|lia..].
  - intros z y x Hzd Hyh Hxw.
    rewrite (get3_slice3 padded (d + 2) (h + 2) (w + 2)) by (done || lia).
    rewrite Hget by lia.
    apply (get3_voxel volume d h w); [done|unfold edge_index; lia..].
Qed.

Lemma edge_index_succ (n i : nat) : i < n → edge_index n (1 + i) = i.
Proof. unfold edge_index. lia. Qed.

Lemma edge_index_zero (n i : nat) : i < n → edge_index n (0 + i) = i - 1.
Proof. unfold edge_index. lia. Qed.

Lemma edge_index_two (n i : nat) :
  i < n → edge_index n (2 + i) = Nat.min (i + 1) (n - 1).
Proof. unfold edge_index. intros. f_equal. lia. Qed.

(** On a volume with no empty axis one update succeeds, keeps the shape,
    and computes [stencil_update] at every voxel. *)
Lemma diffusion_update_spec (volume : Volume) (d h w : nat)
    (K lambda_param : R) (diffusion_type : Z) :
  has_shape volume d h w → 0 < d → 0 < h → 0 < w →
  ∃ updated,
    diffusion_update volume K lambda_param diffusion_type = Ok updated ∧
    has_shape updated d h w ∧
    ∀ z y x, z < d → y < h → x < w →
      get3 updated z y x
      = Some (stencil_update volume d h w K lambda_param diffusion_type z y x).
Proof.
  intros Hs Hd Hh Hw.
  destruct (pad_edge_spec volume d h w Hs Hd Hh Hw) as (padded & Hpad & Hp & Hget).
  unfold diffusion_update. rewrite Hpad. cbn [rbind Ok].
  assert (Hupto : ∀ {A} (l : list A) n, length l = n + 2 →
            py_slice (upto (-2)) l = py_slice (range 0 (0 + n)) l)
    by (intros; by apply py_slice_upto_range).
  assert (Hbetween : ∀ {A} (l : list A) n, length l = n + 2 →
            py_slice (between 1 (-1)) l = py_slice (range 1 (1 + n)) l).
  { intros A l n Hl. rewrite (py_slice_between_range l n Hl).
    by replace (n + 1) with (1 + n) by lia. }
  assert (Hfrom : ∀ {A} (l : list A) n, length l = n + 2 →
            py_slice (from 2) l = py_slice (range 2 (2 + n)) l).
  { intros A l n Hl. rewrite (py_slice_from_range l n Hl).
    by replace (n + 2) with (2 + n) by lia. }
  destruct (neighbour_view volume padded d h w
              (upto (-2)) (between 1 (-1)) (between 1 (-1)) 0 1 1)
    as [Hsn Hn]; [done || lia || (intros; by auto)..|].
  destruct (neighbour_view volume padded d h w
              (from 2) (between 1 (-1)) (between 1 (-1)) 2 1 1)
    as [Hss Hso]; [done || lia || (intros; by auto)..|].
  destruct (neighbour_view volume padded d h w
              (between 1 (-1)) (upto (-2)) (between 1 (-1)) 1 0 1)
    as [Hsw Hwe]; [done || lia || (intros; by auto)..|].
  destruct (neighbour_view volume padded d h w
              (between 1 (-1)) (from 2) (between 1 (-1)) 1 2 1)
    as [Hse Hea]; [done || lia || (intros; by auto)..|].
  destruct (neighbour_view volume padded d h w
              (between 1 (-1)) (between 1 (-1)) (upto (-2)) 1 1 0)
    as [Hsu Hup]; [done || lia || (intros; by auto)..|].
  destruct (neighbour_view volume padded d h w
              (between 1 (-1)) (between 1 (-1)) (from 2) 1 1 2)
    as [Hsd Hdo]; [done || lia || (intros; by auto)..|].
  eexists; split; [reflexivity|]. split.
  - repeat (apply has_shape_zip3 || apply has_shape_map3); assumption.
  - intros z y x Hz Hy Hx.
    repeat (rewrite get3_zip3 || rewrite get3_map3).
    rewrite Hn, Hso, Hwe, Hea, Hup, Hdo by done.
    rewrite (get3_voxel volume d h w z y x) by done.
    rewrite !edge_index_succ, !edge_index_zero, !edge_index_two by done.
    reflexivity.
Qed.

(** ** The solver's loop on volumes with no empty axis *)

Lemma diffusion_iteration_run (K lambda_param : R) (diffusion_type : Z)
    (iterations : Z) (vol_gpu output_gpu updated : Volume) (iteration : nat) :
  diffusion_update vol_gpu K lambda_param diffusion_type = Ok updated →
  diffusion_iteration K lambda_param diffusion_type iterations
    (vol_gpu, output_gpu) iteration
  = ([Stdout (IterationComplete (iteration + 1) iterations)],
     Ok (assign_block output_gpu updated, vol_gpu)).
Proof. intros Hu. unfold diffusion_iteration. by rewrite Hu. Qed.

(** The loop on two buffers of the same shape: every pass succeeds and
    prints its progress line, the first buffer ends as the iterated update
    of the initial field, and the second buffer's content plays no part. *)
Lemma solver_loop (K lambda_param : R) (diffusion_type : Z) (iterations : Z)
    (d h w : nat) (xs : list nat) (vol_gpu output_gpu : Volume) :
  0 < d → 0 < h → 0 < w →
  has_shape vol_gpu d h w → has_shape output_gpu d h w →
  ∃ vol' out',
    mfor_each (diffusion_iteration K lambda_param diffusion_type iterations)
      xs (vol_gpu, output_gpu)
    = (progress_lines iterations xs, Ok (vol', out')) ∧
    has_shape vol' d h w ∧ has_shape out' d h w ∧
    iterate_update (length xs) vol_gpu K lambda_param diffusion_type = Ok vol'.
Proof.
  intros Hd Hh Hw. revert vol_gpu output_gpu.
  induction xs as [|i xs IH]; intros vol_gpu output_gpu Hv Ho.
  - by exists vol_gpu, output_gpu.
  - destruct (diffusion_update_spec vol_gpu d h w K lambda_param
                diffusion_type Hv Hd Hh Hw) as (updated & Hu & Hsu & _).
    assert (Hblock : assign_block output_gpu updated = updated)
      by by apply (assign_block_same_shape _ _ d h w).
    destruct (IH updated vol_gpu Hsu Hv) as (vol' & out' & Hrun & Hv' & Ho' & Hit).
    exists vol', out'. split; [|split; [done|split; [done|]]].
    + cbn [mfor_each].
      rewrite (diffusion_iteration_run _ _ _ _ _ _ updated) by done.
      rewrite Hblock, mbind_pair. unfold Volume in *. rewrite Hrun. done.
    + cbn [length iterate_update]. by rewrite Hu.
Qed.

Lemma perona_malik_gpu_run (volume : Volume) (d h w : nat) (iterations : Z)
    (K lambda_param : R) (diffusion_type : Z) :
  has_shape volume d h w → 0 < d → 0 < h → 0 < w →
  ∃ smoothed,
    perona_malik_gpu true volume iterations K lambda_param diffusion_type
    = (Stdout (ApplyingSmoothing iterations)
         :: progress_lines iterations (seq 0 (Z.to_nat iterations))
         ++ [Stdout SmoothingComplete],
       Ok smoothed) ∧
    has_shape smoothed d h w ∧
    iterate_update (Z.to_nat iterations) volume K lambda_param diffusion_type
    = Ok smoothed.
Proof.
  intros Hs Hd Hh Hw.
  destruct (solver_loop K lambda_param diffusion_type iterations d h w
              (seq 0 (Z.to_nat iterations)) volume (map3 (λ _, 0%R) volume))
    as (vol' & out' & Hrun & Hv' & _ & Hit); [done..| |].
  { by apply has_shape_map3. }
  exists vol'. rewrite length_seq in Hit. split; [|done].
  unfold perona_malik_gpu, print. cbn [negb]. rewrite mbind_emit.
  unfold Volume in *. rewrite Hrun, mbind_pair. done.
Qed.

(** ** The maximum principle *)

Lemma diffusion_coefficient_bounds (diffusion_type : Z) (K g : R) :
  (0 < K → 0 <= g → 0 < diffusion_coefficient diffusion_type K g <= 1)%R.
Proof.
  intros HK Hg. unfold diffusion_coefficient.
  destruct (diffusion_type =? 1)%Z.
  - by apply (exponential_coefficient_law K HK).
  - by apply (rational_coefficient_law K HK).
Qed.

(** The flux towards a neighbour moves the voxel no further than the
    neighbour's value. *)
Lemma flux_bounds (diffusion_type : Z) (K center neighbour lo hi : R) :
  (0 < K → lo <= center <= hi → lo <= neighbour <= hi →
   lo - center <= flux diffusion_type K center neighbour <= hi - center)%R.
Proof.
  intros HK Hc Hn. unfold flux.
  pose proof (diffusion_coefficient_bounds diffusion_type K
                (Rabs (neighbour - center)) HK (Rabs_pos _)) as Hcoef.
  set (c := diffusion_coefficient _ _ _) in *. nra.
Qed.

Lemma voxel_within (volume : Volume) (d h w z y x : nat) (lo hi : R) :
  has_shape volume d h w → within lo hi volume →
  z < d → y < h → x < w → (lo <= voxel volume z y x <= hi)%R.
Proof.
  intros Hs Hin Hz Hy Hx. apply (Hin z y x).
  by apply (get3_voxel volume d h w).
Qed.

Lemma stencil_update_within (volume : Volume) (d h w : nat)
    (K lambda_param : R) (diffusion_type : Z) (lo hi : R) (z y x : nat) :
  has_shape volume d h w → within lo hi volume →
  (0 < K)%R → (0 <= lambda_param <= 1 / 6)%R →
  z < d → y < h → x < w →
  (lo <= stencil_update volume d h w K lambda_param diffusion_type z y x
   <= hi)%R.
Proof.
  intros Hs Hin HK Hl Hz Hy Hx. unfold stencil_update.
  pose proof (voxel_within volume d h w z y x lo hi Hs Hin Hz Hy Hx) as Hc.
  assert (Hflux : ∀ z' y' x', z' < d → y' < h → x' < w →
    (lo - voxel volume z y x
     <= flux diffusion_type K (voxel volume z y x) (voxel volume z' y' x')
     <= hi - voxel volume z y x)%R).
  { intros z' y' x' Hz' Hy' Hx'. apply flux_bounds; [done..|].
    by apply (voxel_within volume d h w). }
  pose proof (Hflux (z - 1) y x ltac:(lia) Hy Hx) as Hn.
  pose proof (Hflux (Nat.min (z + 1) (d - 1)) y x ltac:(lia) Hy Hx) as Hso.
  pose proof (Hflux z (y - 1) x Hz ltac:(lia) Hx) as Hwe.
  pose proof (Hflux z (Nat.min (y + 1) (h - 1)) x Hz ltac:(lia) Hx) as Hea.
  pose proof (Hflux z y (x - 1) Hz Hy ltac:(lia)) as Hup.
  pose proof (Hflux z y (Nat.min (x + 1) (w - 1)) Hz Hy ltac:(lia)) as Hdo.
  cbv zeta.
  set (c := voxel volume z y x) in *.
  set (fn := flux _ _ c (voxel volume (z - 1) y x)) in *.
  set (fs := flux _ _ c (voxel volume (Nat.min (z + 1) (d - 1)) y x)) in *.
  set (fw := flux _ _ c (voxel volume z (y - 1) x)) in *.
  set (fe := flux _ _ c (voxel volume z (Nat.min (y + 1) (h - 1)) x)) in *.
  set (fu := flux _ _ c (voxel volume z y (x - 1))) in *.
  set (fd := flux _ _ c (voxel volume z y (Nat.min (x + 1) (w - 1)))) in *.
  set (total := (fn + fs + fw + fe + fu + fd)%R).
  assert (6 * (lo - c) <= total <= 6 * (hi - c))%R as Ht
    by (unfold total; lra).
  nra.
Qed.

Lemma diffusion_update_within (volume updated : Volume) (d h w : nat)
    (K lambda_param : R) (diffusion_type : Z) (lo hi : R) :
  has_shape volume d h w → 0 < d → 0 < h → 0 < w →
  within lo hi volume →
  (0 < K)%R → (0 <= lambda_param <= 1 / 6)%R →
  diffusion_update volume K lambda_param diffusion_type = Ok updated →
  has_shape updated d h w ∧ within lo hi updated.
Proof.
  intros Hs Hd Hh Hw Hin HK Hl Hu.
  destruct (diffusion_update_spec volume d h w K lambda_param diffusion_type
              Hs Hd Hh Hw) as (updated' & Hu' & Hsu & Hget).
  assert (updated' = updated) as -> by (unfold Ok in *; congruence).
  split; [done|]. intros z y x a Ha.
  destruct (get3_Some_lt updated d h w z y x a Hsu Ha) as (Hz & Hy & Hx).
  rewrite Hget in Ha by done. injection Ha as <-.
  by apply stencil_update_within.
Qed.

Lemma iterate_update_within (n : nat) (volume smoothed : Volume)
    (d h w : nat) (K lambda_param : R) (diffusion_type : Z) (lo hi : R) :
  has_shape volume d h w → 0 < d → 0 < h → 0 < w →
  within lo hi volume →
  (0 < K)%R → (0 <= lambda_param <= 1 / 6)%R →
  iterate_update n volume K lambda_param diffusion_type = Ok smoothed →
  within lo hi smoothed.
Proof.
  intros Hs Hd Hh Hw Hin HK Hl. revert volume Hs Hin.
  induction n as [|n IH]; intros volume Hs Hin; cbn [iterate_update].
  - by intros [= <-].
  - destruct (diffusion_update volume K lambda_param diffusion_type)
      as [e|updated] eqn:Hu; [done|]. cbn [rbind].
    destruct (diffusion_update_within volume updated d h w K lambda_param
                diffusion_type lo hi) as [Hsu Hinu]; [done..|].
    by apply IH.
Qed.

Lemma iterate_update_add (n m : nat) (volume : Volume) (K lambda_param : R)
    (diffusion_type : Z) :
  iterate_update (n + m) volume K lambda_param diffusion_type
  = rbind (iterate_update n volume K lambda_param diffusion_type)
      (λ smoothed, iterate_update m smoothed K lambda_param diffusion_type).
Proof.
  revert volume. induction n as [|n IH]; intros volume; [done|].
  cbn [Nat.add iterate_update].
  destruct (diffusion_update volume K lambda_param diffusion_type)
    as [e|updated]; [done|]. cbn [rbind]. apply IH.
Qed.

Lemma iterate_update_shape (n : nat) (volume : Volume) (d h w : nat)
    (K lambda_param : R) (diffusion_type : Z) :
  has_shape volume d h w → 0 < d → 0 < h → 0 < w →
  ∃ smoothed,
    iterate_update n volume K lambda_param diffusion_type = Ok smoothed ∧
    has_shape smoothed d h w.
Proof.
  intros Hs Hd Hh Hw. revert volume Hs.
  induction n as [|n IH]; intros volume Hs; [by exists volume|].
  destruct (diffusion_update_spec volume d h w K lambda_param diffusion_type
              Hs Hd Hh Hw) as (updated & Hu & Hsu & _).
  cbn [iterate_update]. rewrite Hu. cbn [rbind]. by apply IH.
Qed.

Lemma within_sample_volume : within 1 4 sample_volume.
Proof.
  intros z y x a. unfold get3, sample_volume.
  destruct z as [|z]; simpl; [|done].
  destruct y as [|[|y]]; simpl; [| |done].
  - destruct x as [|[|x]]; simpl; intros [= <-] || done; lra.
  - destruct x as [|[|x]]; simpl; intros [= <-] || done; lra.
Qed.

(** ** The solver on volumes with no empty axis *)

(** X1.  On a volume with no empty axis the solver cannot fail and returns
    a volume of the same shape, for every iteration count, parameter set
    and coefficient variant, with or without CuPy. *)
Theorem solver_preserves_shape (HAS_CUPY : bool) (volume : Volume)
    (d h w : nat) (iterations : Z) (K lambda_param : R) (diffusion_type : Z) :
  has_shape volume d h w → 0 < d → 0 < h → 0 < w →
  ∃ smoothed,
    (perona_malik_gpu HAS_CUPY volume iterations K lambda_param
       diffusion_type).2 = Ok smoothed ∧
    has_shape smoothed d h w.
Proof.
  intros Hs Hd Hh Hw. destruct HAS_CUPY.
  - destruct (perona_malik_gpu_run volume d h w iterations K lambda_param
                diffusion_type Hs Hd Hh Hw) as (smoothed & Hrun & Hsm & _).
    exists smoothed. by rewrite Hrun.
  - by exists volume.
Qed.

Lemma solver_preserves_shape_witness :
  ∃ smoothed,
    (perona_malik_gpu true sample_volume 3 50 0.1 1).2 = Ok smoothed ∧
    has_shape smoothed 1 2 2.
Proof.
  apply (solver_preserves_shape true sample_volume 1 2 2 3 50 0.1 1);
    [apply has_shape_sample_volume|lia..].
Defined.

(** X2.  With CuPy and [K ≠ 0], one pass over a volume with no empty axis
    replaces every voxel by [stencil_update]: the voxel plus
    [lambda_param] times the six fluxes towards its neighbours, where the
    neighbour beyond a face of the volume is the face voxel itself (so
    that its flux is zero). *)
Theorem one_pass_is_the_clamped_stencil (volume : Volume) (d h w : nat)
    (K lambda_param : R) (diffusion_type : Z) :
  has_shape volume d h w → 0 < d → 0 < h → 0 < w → K ≠ 0%R →
  ∃ smoothed,
    (perona_malik_gpu true volume 1 K lambda_param diffusion_type).2
    = Ok smoothed ∧
    ∀ z y x, z < d → y < h → x < w →
      get3 smoothed z y x
      = Some (stencil_update volume d h w K lambda_param diffusion_type z y x).
Proof.
  intros Hs Hd Hh Hw _.
  destruct (perona_malik_gpu_run volume d h w 1 K lambda_param
              diffusion_type Hs Hd Hh Hw) as (smoothed & Hrun & _ & Hit).
  exists smoothed. rewrite Hrun. split; [done|].
  destruct (diffusion_update_spec volume d h w K lambda_param diffusion_type
              Hs Hd Hh Hw) as (updated & Hu & _ & Hget).
  change (Z.to_nat 1) with 1 in Hit. cbn [iterate_update] in Hit.
  rewrite Hu in Hit. cbn [rbind iterate_update] in Hit.
  assert (updated = smoothed) as <-
    by (unfold rbind, Ok in Hit; congruence).
  exact Hget.
Qed.

Lemma one_pass_is_the_clamped_stencil_witness :
  ∃ smoothed,
    (perona_malik_gpu true sample_volume 1 50 0.1 2).2 = Ok smoothed ∧
    ∀ z y x, z < 1 → y < 2 → x < 2 →
      get3 smoothed z y x
      = Some (stencil_update sample_volume 1 2 2 50 0.1 2 z y x).
Proof.
  apply (one_pass_is_the_clamped_stencil sample_volume 1 2 2 50 0.1 2);
    [apply has_shape_sample_volume|lia|lia|lia|lra].
Defined.

(** X3.  With CuPy, the double buffering is not observable: on a volume
    with no empty axis, [n + m] passes give what [m] passes give on the
    result of [n] passes. *)
Theorem solver_passes_compose (volume : Volume) (d h w : nat) (n m : Z)
    (K lambda_param : R) (diffusion_type : Z) :
  has_shape volume d h w → 0 < d → 0 < h → 0 < w →
  (0 ≤ n)%Z → (0 ≤ m)%Z →
  (perona_malik_gpu true volume (n + m) K lambda_param diffusion_type).2
  = rbind (perona_malik_gpu true volume n K lambda_param diffusion_type).2
      (λ smoothed,
         (perona_malik_gpu true smoothed m K lambda_param diffusion_type).2).
Proof.
  intros Hs Hd Hh Hw Hn Hm.
  destruct (perona_malik_gpu_run volume d h w (n + m) K lambda_param
              diffusion_type Hs Hd Hh Hw) as (v2 & -> & _ & Hit2).
  destruct (perona_malik_gpu_run volume d h w n K lambda_param
              diffusion_type Hs Hd Hh Hw) as (v1 & -> & Hs1 & Hit1).
  cbn [snd rbind Ok].
  destruct (perona_malik_gpu_run v1 d h w m K lambda_param
              diffusion_type Hs1 Hd Hh Hw) as (v3 & -> & _ & Hit3).
  cbn [snd]. rewrite <- Hit2.
  replace (Z.to_nat (n + m)) with (Z.to_nat n + Z.to_nat m) by lia.
  rewrite iterate_update_add, Hit1. cbn [rbind Ok]. by rewrite Hit3.
Qed.

Lemma solver_passes_compose_witness :
  (perona_malik_gpu true sample_volume (2 + 3) 50 0.1 1).2
  = rbind (perona_malik_gpu true sample_volume 2 50 0.1 1).2
      (λ smoothed, (perona_malik_gpu true smoothed 3 50 0.1 1).2).
Proof.
  apply (solver_passes_compose sample_volume 1 2 2 2 3 50 0.1 1);
    [apply has_shape_sample_volume|lia..].
Defined.

(** X4.  Maximum principle.  For [K > 0] and a time step
    [0 ≤ lambda_param ≤ 1/6], if every voxel of a volume with no empty
    axis lies in [[lo, hi]] then so does every voxel of the solver's
    result, for every iteration count and either coefficient variant,
    with or without CuPy: smoothing creates no value outside the range of
    its input. *)
Theorem solver_maximum_principle (HAS_CUPY : bool) (volume : Volume)
    (d h w : nat) (iterations : Z) (K lambda_param : R) (diffusion_type : Z)
    (lo hi : R) :
  has_shape volume d h w → 0 < d → 0 < h → 0 < w →
  within lo hi volume →
  (0 < K)%R → (0 <= lambda_param <= 1 / 6)%R →
  ∃ smoothed,
    (perona_malik_gpu HAS_CUPY volume iterations K lambda_param
       diffusion_type).2 = Ok smoothed ∧
    within lo hi smoothed.
Proof.
  intros Hs Hd Hh Hw Hin HK Hl. destruct HAS_CUPY.
  - destruct (perona_malik_gpu_run volume d h w iterations K lambda_param
                diffusion_type Hs Hd Hh Hw) as (smoothed & Hrun & _ & Hit).
    exists smoothed. rewrite Hrun. split; [done|].
    by apply (iterate_update_within (Z.to_nat iterations) volume smoothed
                d h w K lambda_param diffusion_type lo hi).
  - by exists volume.
Qed.

Lemma solver_maximum_principle_witness :
  ∃ smoothed,
    (perona_malik_gpu true sample_volume 5 50 0.1 2).2 = Ok smoothed ∧
    within 1 4 smoothed.
Proof.
  apply (solver_maximum_principle true sample_volume 1 2 2 5 50 0.1 2 1 4);
    [apply has_shape_sample_volume|lia|lia|lia|apply within_sample_volume
    |lra|lra].
Defined.

(** ** Volumes with an empty axis *)

Lemma pad_edge_empty_axis {A} (v : list (list (list A))) (d h w : nat) :
  has_shape v d h w → d = 0 ∨ h = 0 ∨ w = 0 →
  pad_edge v = Raise EmptyAxisPad.
Proof.
  intros [Hd Hv] Hempty. unfold pad_edge.
  destruct v as [|plane v]; [done|].
  apply Forall_cons in Hv as [[Hh Hrows] _]. cbn [collect].
  destruct plane as [|row plane]; [done|].
  apply Forall_cons in Hrows as [Hw _]. cbn [collect].
  destruct row as [|a row]; [done|].
  simpl in *. lia.
Qed.

(** X5.  With CuPy and at least one pass, a volume with an empty axis
    makes the solver raise in its first pass, when it pads the field;
    only the announcement has been printed by then. *)
Theorem solver_rejects_empty_axis (volume : Volume) (d h w : nat)
    (iterations : Z) (K lambda_param : R) (diffusion_type : Z) :
  has_shape volume d h w → d = 0 ∨ h = 0 ∨ w = 0 → (1 ≤ iterations)%Z →
  perona_malik_gpu true volume iterations K lambda_param diffusion_type
  = ([Stdout (ApplyingSmoothing iterations)], Raise EmptyAxisPad).
Proof.
  intros Hs Hempty Hn. unfold perona_malik_gpu, print. cbn [negb].
  rewrite mbind_emit.
  destruct (Z.to_nat iterations) as [|n] eqn:Hnat; [lia|].
  cbn [seq mfor_each]. unfold diffusion_iteration, diffusion_update.
  by rewrite (pad_edge_empty_axis volume d h w Hs Hempty).
Qed.

Lemma solver_rejects_empty_axis_witness :
  perona_malik_gpu true [[]; []] 3 50 0.1 1
  = ([Stdout (ApplyingSmoothing 3)], Raise EmptyAxisPad).
Proof.
  apply (solver_rejects_empty_axis [[]; []] 2 0 5 3 50 0.1 1);
    [split; [reflexivity|repeat constructor]|right; left; reflexivity|lia].
Defined.

(** ** Sums *)

Lemma sum_below_ext (n : nat) (f g : nat → R) :
  (∀ i, i < n → f i = g i) → sum_below n f = sum_below n g.
Proof.
  induction n as [|n IH]; intros Hfg; [done|]. simpl.
  rewrite IH, Hfg by (intros; auto with lia). done.
Qed.

Lemma sum_below_zero (n : nat) (f : nat → R) :
  (∀ i, i < n → f i = 0%R) → sum_below n f = 0%R.
Proof.
  induction n as [|n IH]; intros Hf; [done|]. simpl.
  rewrite IH, Hf by (intros; auto with lia). lra.
Qed.

Lemma sum_below_plus (n : nat) (f g : nat → R) :
  sum_below n (λ i, (f i + g i)%R) = (sum_below n f + sum_below n g)%R.
Proof. induction n as [|n IH]; simpl; [lra|]. rewrite IH. lra. Qed.

Lemma sum_below_scal (n : nat) (c : R) (f : nat → R) :
  sum_below n (λ i, (c * f i)%R) = (c * sum_below n f)%R.
Proof. induction n as [|n IH]; simpl; [lra|]. rewrite IH. lra. Qed.

Lemma sum_below_swap (n m : nat) (f : nat → nat → R) :
  sum_below n (λ i, sum_below m (λ j, f i j))
  = sum_below m (λ j, sum_below n (λ i, f i j)).
Proof.
  induction n as [|n IH]; simpl.
  - symmetry. by apply sum_below_zero.
  - rewrite IH, <- sum_below_plus. done.
Qed.

Lemma list_sum_app (l k : list R) :
  list_sum (l ++ k) = (list_sum l + list_sum k)%R.
Proof.
  unfold list_sum. induction l as [|a l IH]; simpl; [lra|]. rewrite IH. lra.
Qed.

Lemma list_sum_concat (ls : list (list R)) :
  list_sum (concat ls) = list_sum (list_sum <$> ls).
Proof.
  induction ls as [|l ls IH]; [done|]. simpl.
  rewrite list_sum_app, IH. done.
Qed.

Lemma list_sum_fmap_below {A} (g : A → R) (l : list A) :
  list_sum (g <$> l)
  = sum_below (length l) (λ i, from_option g 0%R (l !! i)).
Proof.
  induction l as [|a l IH] using rev_ind; [done|].
  rewrite fmap_app, list_sum_app, length_app, Nat.add_1_r. simpl.
  rewrite IH, lookup_app_r, Nat.sub_diag by lia. simpl.
  rewrite Rplus_0_r. f_equal.
  apply sum_below_ext. intros i Hi. by rewrite lookup_app_l.
Qed.

(** The sum of the voxels of a rectangular volume, by index. *)
Lemma voxel_sum_below (volume : Volume) (d h w : nat) :
  has_shape volume d h w →
  voxel_sum volume
  = sum_below d (λ z, sum_below h (λ y, sum_below w (λ x,
      voxel volume z y x))).
Proof.
  intros [Hd Hv]. unfold voxel_sum, ravel. unfold Volume in *.
  rewrite list_sum_concat.
  assert (Hplanes : list_sum <$> concat volume
                    = concat ((λ plane : list (list R), list_sum <$> plane)
                                <$> volume)).
  { clear. induction volume as [|plane v IH]; [done|]. simpl.
    rewrite fmap_app, IH. done. }
  rewrite Hplanes, list_sum_concat, <- list_fmap_compose.
  rewrite list_sum_fmap_below, Hd. apply sum_below_ext. intros z Hz.
  destruct (volume !! z) as [plane|] eqn:Hplane.
  2: { apply lookup_ge_None in Hplane. lia. }
  rewrite Forall_lookup in Hv. destruct (Hv _ _ Hplane) as [Hh Hrows].
  cbn [from_option compose].
  rewrite list_sum_fmap_below, Hh. apply sum_below_ext. intros y Hy.
  destruct (plane !! y) as [row|] eqn:Hrow.
  2: { apply lookup_ge_None in Hrow. lia. }
  rewrite Forall_lookup in Hrows. specialize (Hrows _ _ Hrow). simpl in Hrows.
  simpl. rewrite <- (list_fmap_id row) at 1.
  rewrite list_sum_fmap_below, Hrows. apply sum_below_ext. intros x Hx.
  unfold voxel, get3. rewrite Hplane. simpl. rewrite Hrow. simpl.
  by destruct (row !! x).
Qed.

(** ** Conservation of the voxel sum *)

Lemma flux_antisymmetric (diffusion_type : Z) (K a b : R) :
  flux diffusion_type K a b = (- flux diffusion_type K b a)%R.
Proof.
  unfold flux. rewrite (Rabs_minus_sym b a). lra.
Qed.

Lemma flux_self (diffusion_type : Z) (K a : R) :
  flux diffusion_type K a a = 0%R.
Proof. unfold flux. lra. Qed.

(** Along one axis with clamped neighbours the fluxes cancel in pairs:
    what a voxel receives from its successor, the successor loses. *)
Lemma axis_fluxes_cancel (diffusion_type : Z) (K : R) (a : nat → R) (n : nat) :
  sum_below n (λ i,
    (flux diffusion_type K (a i) (a (i - 1)%nat)
     + flux diffusion_type K (a i) (a (Nat.min (i + 1) (n - 1))%nat))%R) = 0%R.
Proof.
  destruct n as [|n]; [done|].
  rewrite sum_below_plus.
  assert (Hback : ∀ k, sum_below (S k)
              (λ i, flux diffusion_type K (a i) (a (i - 1)%nat))
            = (- sum_below k
                 (λ i, flux diffusion_type K (a i) (a (i + 1)%nat)))%R).
  { induction k as [|k IHk].
    - simpl. rewrite flux_self. lra.
    - change (sum_below (S (S k)) ?f) with (sum_below (S k) f + f (S k))%R.
      rewrite IHk. simpl.
      replace (k - 0) with k by lia. replace (k + 1) with (S k) by lia.
      rewrite (flux_antisymmetric _ _ (a (S k)) (a k)). lra. }
  assert (Hforth : sum_below (S n)
              (λ i, flux diffusion_type K (a i)
                      (a (Nat.min (i + 1) (S n - 1))%nat))
            = sum_below n (λ i, flux diffusion_type K (a i) (a (i + 1)%nat))).
  { simpl. replace (Nat.min (n + 1) (n - 0)) with n by lia.
    rewrite flux_self, Rplus_0_r. apply sum_below_ext. intros i Hi.
    by replace (Nat.min (i + 1) (n - 0)) with (i + 1) by lia. }
  rewrite Hback, Hforth. lra.
Qed.

(** One update leaves the sum of the index-level description unchanged. *)
Lemma stencil_update_sum (volume : Volume) (d h w : nat)
    (K lambda_param : R) (diffusion_type : Z) :
  sum_below d (λ z, sum_below h (λ y, sum_below w (λ x,
    stencil_update volume d h w K lambda_param diffusion_type z y x)))
  = sum_below d (λ z, sum_below h (λ y, sum_below w (λ x,
      voxel volume z y x))).
Proof.
  set (F := flux diffusion_type K).
  set (a := voxel volume).
  set (zpair := λ z y x, (F (a z y x) (a (z - 1)%nat y x)
                 + F (a z y x) (a (Nat.min (z + 1) (d - 1))%nat y x))%R).
  set (ypair := λ z y x, (F (a z y x) (a z (y - 1)%nat x)
                 + F (a z y x) (a z (Nat.min (y + 1) (h - 1))%nat x))%R).
  set (xpair := λ z y x, (F (a z y x) (a z y (x - 1)%nat)
                 + F (a z y x) (a z y (Nat.min (x + 1) (w - 1))%nat))%R).
  assert (Hterm : ∀ z y x,
    stencil_update volume d h w K lambda_param diffusion_type z y x
    = (a z y x + lambda_param * (zpair z y x + (ypair z y x + xpair z y x)))%R).
  { intros z y x. unfold stencil_update, zpair, ypair, xpair, F, a.
    cbv zeta. lra. }
  assert (Hz : sum_below d (λ z, sum_below h (λ y, sum_below w (λ x,
                 zpair z y x))) = 0%R).
  { rewrite sum_below_swap. apply sum_below_zero. intros y _.
    rewrite sum_below_swap. apply sum_below_zero. intros x _.
    apply (axis_fluxes_cancel diffusion_type K (λ z, a z y x) d). }
  assert (Hy : sum_below d (λ z, sum_below h (λ y, sum_below w (λ x,
                 ypair z y x))) = 0%R).
  { apply sum_below_zero. intros z _.
    rewrite sum_below_swap. apply sum_below_zero. intros x _.
    apply (axis_fluxes_cancel diffusion_type K (λ y, a z y x) h). }
  assert (Hx : sum_below d (λ z, sum_below h (λ y, sum_below w (λ x,
                 xpair z y x))) = 0%R).
  { apply sum_below_zero. intros z _. apply sum_below_zero. intros y _.
    apply (axis_fluxes_cancel diffusion_type K (λ x, a z y x) w). }
  assert (Hsplit : ∀ f g : nat → nat → nat → R,
    sum_below d (λ z, sum_below h (λ y, sum_below w (λ x,
      (f z y x + g z y x)%R)))
    = (sum_below d (λ z, sum_below h (λ y, sum_below w (λ x, f z y x)))
       + sum_below d (λ z, sum_below h (λ y, sum_below w (λ x, g z y x))))%R).
  { intros f g. rewrite <- sum_below_plus. apply sum_below_ext. intros z _.
    rewrite <- sum_below_plus. apply sum_below_ext. intros y _.
    apply sum_below_plus. }
  assert (Hscal : ∀ f : nat → nat → nat → R,
    sum_below d (λ z, sum_below h (λ y, sum_below w (λ x,
      (lambda_param * f z y x)%R)))
    = (lambda_param
       * sum_below d (λ z, sum_below h (λ y, sum_below w (λ x, f z y x))))%R).
  { intros f. rewrite <- sum_below_scal. apply sum_below_ext. intros z _.
    rewrite <- sum_below_scal. apply sum_below_ext. intros y _.
    apply sum_below_scal. }
  rewrite (sum_below_ext d _ (λ z, sum_below h (λ y, sum_below w (λ x,
    (a z y x + lambda_param
               * (zpair z y x + (ypair z y x + xpair z y x)))%R)))).
  2: { intros z _. apply sum_below_ext. intros y _.
       apply sum_below_ext. intros x _. apply Hterm. }
  rewrite Hsplit, Hscal, Hsplit, Hsplit, Hz, Hy, Hx. lra.
Qed.

Lemma diffusion_update_sum (volume updated : Volume) (d h w : nat)
    (K lambda_param : R) (diffusion_type : Z) :
  has_shape volume d h w → 0 < d → 0 < h → 0 < w →
  diffusion_update volume K lambda_param diffusion_type = Ok updated →
  has_shape updated d h w ∧ voxel_sum updated = voxel_sum volume.
Proof.
  intros Hs Hd Hh Hw Hu.
  destruct (diffusion_update_spec volume d h w K lambda_param diffusion_type
              Hs Hd Hh Hw) as (updated' & Hu' & Hsu & Hget).
  assert (updated' = updated) as -> by (unfold Ok in *; congruence).
  split; [done|].
  rewrite (voxel_sum_below updated d h w Hsu),
    (voxel_sum_below volume d h w Hs).
  rewrite <- (stencil_update_sum volume d h w K lambda_param diffusion_type).
  apply sum_below_ext. intros z Hz. apply sum_below_ext. intros y Hy.
  apply sum_below_ext. intros x Hx. unfold voxel at 1.
  by rewrite Hget.
Qed.

Lemma iterate_update_sum (n : nat) (volume smoothed : Volume) (d h w : nat)
    (K lambda_param : R) (diffusion_type : Z) :
  has_shape volume d h w → 0 < d → 0 < h → 0 < w →
  iterate_update n volume K lambda_param diffusion_type = Ok smoothed →
  voxel_sum smoothed = voxel_sum volume.
Proof.
  intros Hs Hd Hh Hw. revert volume Hs.
  induction n as [|n IH]; intros volume Hs; cbn [iterate_update].
  - by intros [= <-].
  - destruct (diffusion_update volume K lambda_param diffusion_type)
      as [e|updated] eqn:Hu; [done|]. cbn [rbind]. intros Hit.
    destruct (diffusion_update_sum volume updated d h w K lambda_param
                diffusion_type) as [Hsu Hsum]; [done..|].
    rewrite <- Hsum. by apply IH.
Qed.

(** X6.  Conservation.  On a volume with no empty axis and for [K ≠ 0]
    the solver leaves the sum of all voxels, and hence their mean,
    unchanged, for every iteration count, time step and coefficient
    variant, with or without CuPy: what one voxel gains its neighbour
    loses, and nothing crosses the faces of the volume. *)
Theorem solver_conserves_voxel_sum (HAS_CUPY : bool) (volume : Volume)
    (d h w : nat) (iterations : Z) (K lambda_param : R) (diffusion_type : Z) :
  has_shape volume d h w → 0 < d → 0 < h → 0 < w → K ≠ 0%R →
  ∃ smoothed,
    (perona_malik_gpu HAS_CUPY volume iterations K lambda_param
       diffusion_type).2 = Ok smoothed ∧
    voxel_sum smoothed = voxel_sum volume.
Proof.
  intros Hs Hd Hh Hw _. destruct HAS_CUPY.
  - destruct (perona_malik_gpu_run volume d h w iterations K lambda_param
                diffusion_type Hs Hd Hh Hw) as (smoothed & Hrun & _ & Hit).
    exists smoothed. rewrite Hrun. split; [done|].
    by apply (iterate_update_sum (Z.to_nat iterations) volume smoothed
                d h w K lambda_param diffusion_type).
  - by exists volume.
Qed.

Lemma solver_conserves_voxel_sum_witness :
  ∃ smoothed,
    (perona_malik_gpu true sample_volume 5 50 0.1 2).2 = Ok smoothed ∧
    voxel_sum smoothed = voxel_sum sample_volume.
Proof.
  apply (solver_conserves_voxel_sum true sample_volume 1 2 2 5 50 0.1 2);
    [apply has_shape_sample_volume|lia|lia|lia|lra].
Defined.

(** ** The time step of the maximum principle *)

Lemma has_shape_unit_impulse : has_shape unit_impulse 3 3 3.
Proof. split; [done|]. repeat constructor. Qed.

Lemma within_unit_impulse : within 0 1 unit_impulse.
Proof.
  intros z y x a Ha.
  destruct (get3_Some_lt unit_impulse 3 3 3 z y x a has_shape_unit_impulse Ha)
    as (Hz & Hy & Hx).
  destruct z as [|[|[|z]]]; [| | |lia];
    (destruct y as [|[|[|y]]]; [| | |lia]);
    (destruct x as [|[|[|x]]]; [| | |lia]);
    injection Ha as <-; lra.
Qed.

(** Either coefficient is at least [1 - (g / K)^2]. *)
Lemma diffusion_coefficient_lower (diffusion_type : Z) (K g : R) :
  (1 - (g / K) ^ 2 <= diffusion_coefficient diffusion_type K g)%R.
Proof.
  unfold diffusion_coefficient, exponential_coefficient, rational_coefficient.
  set (u := ((g / K) ^ 2)%R).
  assert (0 <= u)%R as Hu by (unfold u; apply pow2_ge_0).
  destruct (diffusion_type =? 1)%Z.
  - pose proof (exp_ineq1_le (- u)). lra.
  - apply (Rmult_le_reg_r (1 + u)); [lra|].
    unfold Rdiv. rewrite Rmult_assoc, Rinv_l by lra. nra.
Qed.

Lemma stencil_update_unit_impulse (K lambda_param : R) (diffusion_type : Z) :
  stencil_update unit_impulse 3 3 3 K lambda_param diffusion_type 1 1 1
  = (1 - 6 * lambda_param * diffusion_coefficient diffusion_type K 1)%R.
Proof.
  unfold stencil_update, flux, voxel. simpl.
  rewrite (Rabs_minus_sym 0 1), Rminus_0_r, Rabs_R1. lra.
Qed.

(** X7.  Over the reals, the time step of the maximum principle cannot be
    larger: for every real [lambda_param > 1/6] and either coefficient
    variant there is a real threshold [K > 0] for which one pass over the
    unit impulse, whose voxels lie in [[0, 1]], produces a negative voxel
    in exact arithmetic. *)
Theorem time_step_bound_is_sharp (lambda_param : R) (diffusion_type : Z) :
  (1 / 6 < lambda_param)%R →
  ∃ K smoothed a,
    (0 < K)%R ∧ within 0 1 unit_impulse ∧
    (perona_malik_gpu true unit_impulse 1 K lambda_param diffusion_type).2
    = Ok smoothed ∧
    get3 smoothed 1 1 1 = Some a ∧ (a < 0)%R.
Proof.
  intros Hl.
  set (K := (1 + 6 * lambda_param / (6 * lambda_param - 1))%R).
  assert (0 < 6 * lambda_param - 1)%R as Hpos by lra.
  assert (0 < 6 * lambda_param / (6 * lambda_param - 1))%R as Hq
    by (apply Rdiv_lt_0_compat; lra).
  assert (1 < K)%R as HK by (unfold K; lra).
  destruct (perona_malik_gpu_run unit_impulse 3 3 3 1 K lambda_param
              diffusion_type has_shape_unit_impulse)
    as (smoothed & Hrun & _ & Hit); [lia..|].
  destruct (diffusion_update_spec unit_impulse 3 3 3 K lambda_param
              diffusion_type has_shape_unit_impulse)
    as (updated & Hu & _ & Hget); [lia..|].
  change (Z.to_nat 1) with 1 in Hit. cbn [iterate_update] in Hit.
  rewrite Hu in Hit. cbn [rbind iterate_update] in Hit.
  assert (updated = smoothed) as <-
    by (unfold rbind, Ok in Hit; congruence).
  exists K, updated,
    (1 - 6 * lambda_param * diffusion_coefficient diffusion_type K 1)%R.
  split; [lra|]. split; [apply within_unit_impulse|].
  split; [by rewrite Hrun|]. split.
  - rewrite Hget by lia. by rewrite stencil_update_unit_impulse.
  - pose proof (diffusion_coefficient_lower diffusion_type K 1) as Hc.
    set (c := diffusion_coefficient diffusion_type K 1) in *.
    assert ((1 / K) ^ 2 < (6 * lambda_param - 1) / (6 * lambda_param))%R
      as Hsmall.
    { assert ((1 / K) ^ 2 <= 1 / K)%R as Hsq.
      { assert (0 < 1 / K <= 1)%R as [? ?].
        { split; [apply Rdiv_lt_0_compat; lra|].
          apply (Rmult_le_reg_r K); [lra|].
          unfold Rdiv. rewrite Rmult_assoc, Rinv_l by lra. lra. }
        nra. }
      assert (1 / K < (6 * lambda_param - 1) / (6 * lambda_param))%R as Hinv.
      { apply (Rmult_lt_reg_r K); [lra|].
        unfold Rdiv at 1. rewrite Rmult_assoc, Rinv_l by lra.
        unfold K.
        replace ((6 * lambda_param - 1) / (6 * lambda_param)
                 * (1 + 6 * lambda_param / (6 * lambda_param - 1)))%R
          with ((6 * lambda_param - 1) / (6 * lambda_param) + 1)%R
          by (field; lra).
        assert (0 < (6 * lambda_param - 1) / (6 * lambda_param))%R
          by (apply Rdiv_lt_0_compat; lra).
        lra. }
      lra. }
    assert (6 * lambda_param * ((6 * lambda_param - 1) / (6 * lambda_param))
            = 6 * lambda_param - 1)%R as Hmul by (field; lra).
    nra.
Qed.

Lemma time_step_bound_is_sharp_witness :
  ∃ K smoothed a,
    (0 < K)%R ∧ within 0 1 unit_impulse ∧
    (perona_malik_gpu true unit_impulse 1 K 0.25 2).2 = Ok smoothed ∧
    get3 smoothed 1 1 1 = Some a ∧ (a < 0)%R.
Proof.
  apply (time_step_bound_is_sharp 0.25 2). lra.
Defined.

(** ** The chunk grid as bounds on the voxels *)

Lemma in_chunk_div (c z y x : nat) :
  0 < c → in_chunk c (z / c) (y / c) (x / c) z y x.
Proof.
  intros Hc. unfold in_chunk.
  pose proof (Nat.div_mod_eq z c). pose proof (Nat.mod_upper_bound z c).
  pose proof (Nat.div_mod_eq y c). pose proof (Nat.mod_upper_bound y c).
  pose proof (Nat.div_mod_eq x c). pose proof (Nat.mod_upper_bound x c).
  lia.
Qed.

Lemma div_lt_chunk_count (n c i : nat) :
  0 < c → i < n → i / c < chunk_count n c.
Proof.
  intros Hc Hi. destruct (chunk_count_ceil n c Hc) as [Hle _].
  apply Nat.Div0.div_lt_upper_bound. lia.
Qed.

(** The cell of every chunk is the pair of extrema of the zero-extended
    volume over the cube of the chunk. *)
Lemma chunk_cell_extrema (volume : Volume) (d h w chunk_size : nat) :
  has_shape volume d h w → 0 < d → 0 < h → 0 < w → 0 < chunk_size →
  ∃ grid,
    compute_chunk_minmax volume chunk_size = Ok grid ∧
    num_chunks_z grid = chunk_count d chunk_size ∧
    num_chunks_y grid = chunk_count h chunk_size ∧
    num_chunks_x grid = chunk_count w chunk_size ∧
    ∀ iz iy ix,
      iz < chunk_count d chunk_size → iy < chunk_count h chunk_size →
      ix < chunk_count w chunk_size →
      ∃ lo hi,
        cell grid iz iy ix = Some (lo, hi) ∧
        is_min_over (in_chunk chunk_size iz iy ix) (padded_voxel volume) lo ∧
        is_max_over (in_chunk chunk_size iz iy ix) (padded_voxel volume) hi.
Proof.
  intros Hs Hd Hh Hw Hc.
  destruct (compute_chunk_minmax_spec volume d h w chunk_size)
    as (grid & Hrun & Hnz & Hny & Hnx & _ & Hcell); [done..|].
  exists grid. split_and!; [done..|].
  intros iz iy ix Hz Hy Hx. rewrite Hcell by done.
  destruct (chunk_extrema_of_padded volume
              (chunk_count d chunk_size * chunk_size)
              (chunk_count h chunk_size * chunk_size)
              (chunk_count w chunk_size * chunk_size)
              chunk_size iz iy ix) as [Hlo Hhi]; [done|nia..|].
  eexists _, _. split; [by rewrite <- surjective_pairing|done].
Qed.

(** X8.  The grid bounds the voxels: for a volume of float32 voxels with
    no empty axis and a positive chunk edge, the cell at
    [(z // C, y // C, x // C)] holds a pair [(lo, hi)] of float32 values
    with [lo ≤ volume[z, y, x] ≤ hi], for every voxel of the volume. *)
Theorem chunk_cell_bounds_its_voxels (volume : Volume)
    (d h w chunk_size : nat) :
  has_shape volume d h w → 0 < d → 0 < h → 0 < w → 0 < chunk_size →
  (∀ z y x a, get3 volume z y x = Some a → is_float32 a) →
  ∃ grid,
    compute_chunk_minmax volume chunk_size = Ok grid ∧
    ∀ z y x, z < d → y < h → x < w →
      ∃ lo hi,
        cell grid (z / chunk_size) (y / chunk_size) (x / chunk_size)
        = Some (lo, hi) ∧
        is_float32 lo ∧ is_float32 hi ∧
        (lo <= voxel volume z y x <= hi)%R.
Proof.
  intros Hs Hd Hh Hw Hc Hvoxels.
  destruct (chunk_cell_extrema volume d h w chunk_size)
    as (grid & Hrun & _ & _ & _ & Hcell); [done..|].
  exists grid. split; [done|]. intros z y x Hz Hy Hx.
  destruct (Hcell (z / chunk_size) (y / chunk_size) (x / chunk_size))
    as (lo & hi & Hlohi & Hmin & Hmax);
    [by apply div_lt_chunk_count..|].
  destruct (is_float32_extrema _ _ _ _ Hvoxels Hmin Hmax) as [Hflo Hfhi].
  destruct Hmin as [_ Hlo]. destruct Hmax as [_ Hhi].
  exists lo, hi. split; [done|]. split; [done|]. split; [done|].
  pose proof (in_chunk_div chunk_size z y x Hc) as Hin.
  specialize (Hlo z y x Hin). specialize (Hhi z y x Hin).
  unfold padded_voxel in *. unfold voxel. lra.
Qed.

Lemma chunk_cell_bounds_its_voxels_witness :
  ∃ grid,
    compute_chunk_minmax sample_volume 16 = Ok grid ∧
    ∀ z y x, z < 1 → y < 2 → x < 2 →
      ∃ lo hi,
        cell grid (z / 16) (y / 16) (x / 16) = Some (lo, hi) ∧
        is_float32 lo ∧ is_float32 hi ∧
        (lo <= voxel sample_volume z y x <= hi)%R.
Proof.
  apply (chunk_cell_bounds_its_voxels sample_volume 1 2 2 16);
    [apply has_shape_sample_volume|lia|lia|lia|lia
    |apply is_float32_sample_volume].
Defined.

(** X9.  Zero fill.  A cell whose cube reaches beyond the volume along
    some axis takes its extrema over the added zeros as well: its minimum
    is at most 0 and its maximum at least 0, whatever the voxels are. *)
Theorem boundary_cells_include_zero (volume : Volume)
    (d h w chunk_size : nat) :
  has_shape volume d h w → 0 < d → 0 < h → 0 < w → 0 < chunk_size →
  ∃ grid,
    compute_chunk_minmax volume chunk_size = Ok grid ∧
    ∀ iz iy ix,
      iz < num_chunks_z grid → iy < num_chunks_y grid →
      ix < num_chunks_x grid →
      d < (iz + 1) * chunk_size ∨ h < (iy + 1) * chunk_size
      ∨ w < (ix + 1) * chunk_size →
      ∃ lo hi, cell grid iz iy ix = Some (lo, hi) ∧ (lo <= 0 <= hi)%R.
Proof.
  intros Hs Hd Hh Hw Hc.
  destruct (chunk_cell_extrema volume d h w chunk_size)
    as (grid & Hrun & Hnz & Hny & Hnx & Hcell); [done..|].
  exists grid. split; [done|]. rewrite Hnz, Hny, Hnx.
  intros iz iy ix Hz Hy Hx Hout.
  destruct (Hcell iz iy ix Hz Hy Hx) as (lo & hi & Hlohi & [_ Hlo] & [_ Hhi]).
  exists lo, hi. split; [done|].
  assert (∃ z y x, in_chunk chunk_size iz iy ix z y x ∧
                   padded_voxel volume z y x = 0%R) as (z & y & x & Hin & H0).
  { exists (iz * chunk_size + (chunk_size - 1)),
      (iy * chunk_size + (chunk_size - 1)),
      (ix * chunk_size + (chunk_size - 1)).
    split; [unfold in_chunk; lia|]. unfold padded_voxel.
    destruct (get3 volume _ _ _) as [a|] eqn:Hget; [|done].
    apply (get3_Some_lt volume d h w) in Hget; [|done]. lia. }
  specialize (Hlo z y x Hin). specialize (Hhi z y x Hin). lra.
Qed.

Lemma boundary_cells_include_zero_witness :
  ∃ grid,
    compute_chunk_minmax sample_volume 16 = Ok grid ∧
    ∀ iz iy ix,
      iz < num_chunks_z grid → iy < num_chunks_y grid →
      ix < num_chunks_x grid →
      1 < (iz + 1) * 16 ∨ 2 < (iy + 1) * 16 ∨ 2 < (ix + 1) * 16 →
      ∃ lo hi, cell grid iz iy ix = Some (lo, hi) ∧ (lo <= 0 <= hi)%R.
Proof.
  apply (boundary_cells_include_zero sample_volume 1 2 2 16);
    [apply has_shape_sample_volume|lia..].
Defined.

(** ** The loading loop *)

Lemma broadcast_axis_Ok {A} (n : nat) (l l' : list A) :
  broadcast_axis n l = Ok l' →
  length l' = n ∧ ∀ a, a ∈ l' → a ∈ l.
Proof.
  unfold broadcast_axis. case_decide as Hlen.
  - intros [= <-]. done.
  - destruct l as [|x [|y l]]; [done| |done]. intros [= <-].
    split; [by rewrite length_replicate|].
    intros a Ha. apply elem_of_replicate in Ha as [-> _]. by left.
Qed.

Lemma broadcast_axis_same {A} (n : nat) (l : list A) :
  length l = n → broadcast_axis n l = Ok l.
Proof. intros Hl. unfold broadcast_axis. by case_decide. Qed.

Lemma broadcast_to_Ok (h w : nat) (data stored : list (list R)) :
  broadcast_to h w data = Ok stored →
  has_shape2 stored h w ∧ ∀ a, a ∈ concat stored → a ∈ concat data.
Proof.
  unfold broadcast_to.
  destruct (collect (broadcast_axis w) data) as [e|rows] eqn:Hrows; [done|].
  cbn [rbind]. intros Hstored.
  apply collect_Ok in Hrows.
  destruct (broadcast_axis_Ok h rows stored Hstored) as [Hh Hsub].
  assert (Hrow : ∀ row, row ∈ rows →
            length row = w ∧ ∀ a, a ∈ row → a ∈ concat data).
  { intros row Hin. apply list_elem_of_lookup in Hin as [j Hj].
    destruct (Forall2_lookup_r _ _ _ _ _ Hrows Hj) as (src & Hsrc & Hb).
    destruct (broadcast_axis_Ok w src row Hb) as [Hw Hel].
    split; [done|]. intros a Ha. apply elem_of_concat.
    exists src. split; [by apply Hel|by eapply list_elem_of_lookup_2]. }
  split.
  - split; [done|]. apply Forall_forall. intros row Hin.
    by apply Hrow, Hsub.
  - intros a Ha. apply elem_of_concat in Ha as (row & Ha & Hin).
    by apply (Hrow row (Hsub _ Hin)).
Qed.

Lemma broadcast_to_same (h w : nat) (data : list (list R)) :
  has_shape2 data h w → broadcast_to h w data = Ok data.
Proof.
  intros [Hh Hw]. unfold broadcast_to.
  assert (collect (broadcast_axis w) data = Ok data) as ->.
  { apply collect_Ok. apply Forall2_same_length_lookup. split; [done|].
    intros i x y Hx Hy. rewrite Hx in Hy. injection Hy as <-.
    apply broadcast_axis_same.
    rewrite Forall_lookup in Hw. by apply (Hw i). }
  cbn [rbind]. by apply broadcast_axis_same.
Qed.

Lemma has_shape_insert (volume : Volume) (n h w i : nat)
    (stored : list (list R)) :
  has_shape volume n h w → has_shape2 stored h w →
  has_shape (<[i := stored]> volume) n h w.
Proof.
  unfold Volume in *. intros [Hn Hv] [Hh Hw]. split.
  - rewrite <- Hn. apply length_insert.
  - destruct (decide (i < length volume)) as [Hi|Hi].
    + apply Forall_insert; done.
    + rewrite list_insert_ge by lia. done.
Qed.

(** What one successful pass of the loading loop did. *)
Lemma load_slice_Ok (h w : nat) (volume volume' : Volume)
    (global_min global_max global_min' global_max' : option R)
    (i : nat) (ds : Dataset) :
  load_slice h w (volume, global_min, global_max) (i, ds)
  = Ok (volume', global_min', global_max') →
  ∃ slice_min slice_max stored,
    np_min (concat (hu_data ds)) = Ok slice_min ∧
    np_max (concat (hu_data ds)) = Ok slice_max ∧
    broadcast_to h w (hu_data ds) = Ok stored ∧
    volume' = <[i := stored]> volume ∧
    global_min' = min_with global_min slice_min ∧
    global_max' = max_with global_max slice_max.
Proof.
  unfold load_slice. fold (hounsfield ds). fold (hu_data ds).
  destruct (np_min (concat (hu_data ds))) as [e|slice_min]; [done|].
  destruct (np_max (concat (hu_data ds))) as [e|slice_max]; [done|].
  destruct (broadcast_to h w (hu_data ds)) as [e|stored]; [done|].
  cbn [rbind]. intros Heq. unfold Ok in Heq.
  injection Heq as <- <- <-. by eexists _, _, _.
Qed.

Lemma loaded_upto_init (files : list Dataset) (h w : nat) :
  loaded_upto files h w 0 (full (length files) h w 0%R, None, None).
Proof.
  split; [apply has_shape_full|]. split; [intros; lia|].
  split; [done|lia].
Qed.

Lemma loaded_upto_step (files : list Dataset) (h w k : nat) (ds : Dataset)
    (state state' : Volume * option R * option R) :
  files !! k = Some ds →
  loaded_upto files h w k state →
  load_slice h w state (k, ds) = Ok state' →
  loaded_upto files h w (S k) state'.
Proof.
  destruct state as [[volume global_min] global_max],
    state' as [[volume' global_min'] global_max'].
  intros Hds (Hs & Hplanes & Hnone & Hsome) Hload.
  apply load_slice_Ok in Hload
    as (slice_min & slice_max & stored & Hmin & Hmax & Hb & -> & -> & ->).
  destruct (broadcast_to_Ok h w _ _ Hb) as [Hshape _].
  apply np_min_spec in Hmin as [Hmin_in Hmin_le].
  apply np_max_spec in Hmax as [Hmax_in Hmax_le].
  assert (k < length volume) as Hk.
  { destruct Hs as [-> _]. by eapply lookup_lt_Some. }
  split; [by apply has_shape_insert|]. split; [|split; [lia|]].
  - intros i ds' Hi Hds'. unfold Volume in *.
    destruct (decide (i = k)) as [->|Hne].
    + rewrite Hds in Hds'. injection Hds' as <-.
      exists stored. split; [|done]. by apply list_lookup_insert_eq.
    + rewrite list_lookup_insert_ne by done. apply Hplanes; [lia|done].
  - intros _. unfold min_with, max_with.
    assert (slice_min <= slice_max)%R as Hle by by apply Hmin_le.
    destruct (decide (k = 0)) as [->|Hpos].
    + destruct Hnone as [-> ->]; [done|]. cbn [from_option].
      exists slice_min, slice_max. split_and!; [done|done|..].
      * exists 0, ds. split_and!; [lia|done|done].
      * exists 0, ds. split_and!; [lia|done|done].
      * intros i ds' a Hi Hds' Ha. assert (i = 0) as -> by lia.
        rewrite Hds in Hds'. injection Hds' as <-.
        split; [by apply Hmin_le|by apply Hmax_le].
    + destruct Hsome as (lo & hi & -> & -> & Hlo & Hhi & Hall); [lia|].
      cbn [from_option].
      exists (Rmin lo slice_min), (Rmax hi slice_max). split_and!; [done|done|..].
      * unfold Rmin. destruct (Rle_dec lo slice_min).
        -- destruct Hlo as (i & ds' & ? & ? & ?). exists i, ds'. auto with lia.
        -- exists k, ds. split_and!; [lia|done|done].
      * unfold Rmax. destruct (Rle_dec hi slice_max).
        -- exists k, ds. split_and!; [lia|done|done].
        -- destruct Hhi as (i & ds' & ? & ? & ?). exists i, ds'. auto with lia.
      * intros i ds' a Hi Hds' Ha.
        pose proof (Rmin_l lo slice_min). pose proof (Rmin_r lo slice_min).
        pose proof (Rmax_l hi slice_max). pose proof (Rmax_r hi slice_max).
        destruct (decide (i = k)) as [->|Hne].
        -- rewrite Hds in Hds'. injection Hds' as <-.
           specialize (Hmin_le a Ha). specialize (Hmax_le a Ha). lra.
        -- specialize (Hall i ds' a ltac:(lia) Hds' Ha). lra.
Qed.

(** The loading loop over a prefix of the series. *)
Lemma load_prefix (files : list Dataset) (h w : nat) (pre suf : list Dataset)
    (state : Volume * option R * option R) :
  files = pre ++ suf →
  for_each (load_slice h w) (imap pair pre)
    (full (length files) h w 0%R, None, None) = Ok state →
  loaded_upto files h w (length pre) state.
Proof.
  revert suf state. induction pre as [|ds pre IH] using rev_ind;
    intros suf state Hfiles.
  - intros [= <-]. apply loaded_upto_init.
  - rewrite imap_app, for_each_app. cbn [imap].
    destruct (for_each (load_slice h w) (imap pair pre)
                (full (length files) h w 0%R, None, None))
      as [e|state1] eqn:Hpre; [done|].
    cbn [rbind for_each]. rewrite Nat.add_0_r.
    destruct (load_slice h w state1 (length pre, ds)) as [e|state2] eqn:Hstep;
      [done|].
    cbn [rbind]. intros [= <-].
    rewrite length_app, Nat.add_1_r.
    apply (loaded_upto_step files h w (length pre) ds state1); [|..|done].
    + rewrite Hfiles, <- app_assoc. by apply list_lookup_middle.
    + apply (IH ([ds] ++ suf)); [by rewrite Hfiles, <- app_assoc|done].
Qed.

(** A successful load of the whole series. *)
Lemma load_series (files : list Dataset) (h w : nat)
    (state : Volume * option R * option R) :
  for_each (load_slice h w) (imap pair files)
    (full (length files) h w 0%R, None, None) = Ok state →
  loaded_upto files h w (length files) state.
Proof.
  intros Hload. apply (load_prefix files h w files []); [|done].
  by rewrite app_nil_r.
Qed.

(** The loading loop raises nothing but the errors of an empty slice and
    of a slice that does not fit the slot. *)
Lemma load_errors (h w : nat) (items : list (nat * Dataset))
    (state : Volume * option R * option R) (e : exn) :
  for_each (load_slice h w) items state = Raise e →
  e = EmptyReduction ∨ e = BroadcastError.
Proof.
  revert state. induction items as [|[i ds] items IH]; intros state; [done|].
  cbn [for_each].
  destruct (load_slice h w state (i, ds)) as [e'|state'] eqn:Hstep.
  - cbn [rbind]. intros [= <-]. revert Hstep.
    destruct state as [[volume global_min] global_max].
    unfold load_slice. fold (hounsfield ds). fold (hu_data ds).
    destruct (concat (hu_data ds)) as [|a l] eqn:Hdata; [intros [= <-]; by left|].
    cbn [np_min np_max rbind Ok].
    unfold broadcast_to.
    assert (Hcollect : ∀ (rows : list (list R)) e0,
      collect (broadcast_axis w) rows = Raise e0 → e0 = BroadcastError).
    { clear. induction rows as [|row rows IHr]; intros e0; [done|].
      cbn [collect]. unfold broadcast_axis at 1. case_decide.
      - cbn [rbind Ok].
        destruct (collect (broadcast_axis w) rows) as [e1|rs] eqn:Hc; [|done].
        cbn [rbind]. intros [= <-]. by apply IHr.
      - destruct row as [|x [|y row]]; [by intros [= <-]| |by intros [= <-]].
        cbn [rbind Ok].
        destruct (collect (broadcast_axis w) rows) as [e1|rs] eqn:Hc; [|done].
        cbn [rbind]. intros [= <-]. by apply IHr. }
    destruct (collect (broadcast_axis w) (hu_data ds)) as [e1|rows] eqn:Hc.
    + cbn [rbind]. intros [= <-]. right. by apply (Hcollect (hu_data ds)).
    + cbn [rbind]. unfold broadcast_axis. case_decide; [done|].
      destruct rows as [|x [|y rows]]; [intros [= <-]; by right|done|
                                        intros [= <-]; by right].
  - cbn [rbind]. apply IH.
Qed.

(** ** Runs of the driver on a loaded series *)

Lemma validate_chunk_size_inv (chunk_size : Z) :
  validate_chunk_size chunk_size = Ok () →
  (chunk_size `mod` 16 = 0 ∧ 16 ≤ chunk_size ≤ 256)%Z.
Proof.
  unfold validate_chunk_size.
  destruct (Z.eqb_spec (chunk_size `mod` 16) 0) as [Hmod|Hmod]; [|done].
  destruct (Z.ltb_spec chunk_size 16), (Z.ltb_spec 256 chunk_size);
    simpl; (done || intros _; lia).
Qed.

Lemma rectangular_nonempty (ds : Dataset) (m : R) :
  rectangular (pixel_array ds) →
  np_min (concat (hu_data ds)) = Ok m →
  0 < (shape2 (pixel_array ds)).1 ∧ 0 < (shape2 (pixel_array ds)).2.
Proof.
  unfold rectangular, has_shape2, shape2, hu_data. cbn [fst snd].
  intros [_ Hrows] Hmin.
  destruct (pixel_array ds) as [|row rows]; [done|].
  split; [simpl; lia|]. cbn [head default].
  destruct row as [|p row]; [|simpl; lia].
  exfalso. revert Hmin.
  assert (concat ((λ row : list Z, hounsfield ds <$> row) <$> [] :: rows) = [])
    as ->; [|done].
  apply Forall_cons in Hrows as [_ Hrows]. cbn [head default length] in Hrows.
  clear -Hrows. induction rows as [|row rows IH]; [done|].
  apply Forall_cons in Hrows as [Hrow Hrows].
  destruct row; [|done]. by apply IH.
Qed.

(** The smoothing branch of the driver on a volume with no empty axis. *)
Lemma smoothing_step_run (HAS_CUPY apply_smoothing : bool) (loaded : Volume)
    (n h w : nat) (smoothing_iterations : Z) :
  has_shape loaded n h w → 0 < n → 0 < h → 0 < w →
  ∃ events volume,
    smoothing_step HAS_CUPY apply_smoothing loaded smoothing_iterations
    = (events, Ok volume) ∧
    has_shape volume n h w ∧
    (∀ lo hi, within lo hi loaded → within lo hi volume) ∧
    (apply_smoothing && HAS_CUPY = false → volume = loaded) ∧
    files_written events = [].
Proof.
  intros Hs Hn Hh Hw. unfold smoothing_step.
  destruct (apply_smoothing && HAS_CUPY) eqn:Hboth.
  - apply andb_true_iff in Hboth as [-> ->].
    destruct (perona_malik_gpu_run loaded n h w smoothing_iterations 50 0.1 2
                Hs Hn Hh Hw) as (smoothed & Hrun & Hsm & Hit).
    eexists _, smoothed. split; [exact Hrun|]. split; [done|]. split; [|split].
    + intros lo hi Hin.
      apply (iterate_update_within (Z.to_nat smoothing_iterations) loaded
               smoothed n h w 50 0.1 2 lo hi); (done || lra).
    + done.
    + unfold files_written. rewrite filter_cons_False by (simpl; congruence).
      rewrite filter_app. unfold progress_lines.
      assert (Hnone : ∀ xs : list nat, filter (λ e, is_print e = false)
                ((λ iteration,
                    Stdout (IterationComplete (iteration + 1)
                              smoothing_iterations)) <$> xs) = []).
      { induction xs as [|x xs IH]; [done|].
        rewrite fmap_cons, filter_cons_False by (simpl; congruence). done. }
      rewrite Hnone. done.
  - destruct (apply_smoothing && negb HAS_CUPY);
      eexists _, loaded; (split; [reflexivity|]); done.
Qed.

Section Conversions.
Variable astype_float16 : R → float16.
Variable sha256_hexdigest : string → string.
Variable py_str : json → string.

(** Once the series is loaded nothing can fail any more: the run goes
    through smoothing, chunk reduction and the three kinds of files. *)
Lemma convert_after_load (HAS_CUPY : bool) (first : Dataset)
    (rest : list Dataset) (apply_smoothing : bool) (smoothing_iterations : Z)
    (chunk_size : Z) (anonymize : bool) (h w : nat) (loaded : Volume)
    (global_min global_max : option R) :
  validate_chunk_size chunk_size = Ok () →
  rectangular (pixel_array first) →
  shape2 (pixel_array first) = (h, w) →
  for_each (load_slice h w) (imap pair (first :: rest))
    (full (S (length rest)) h w 0%R, None, None)
  = Ok (loaded, global_min, global_max) →
  ∃ events volume grid,
    has_shape loaded (S (length rest)) h w ∧ 0 < h ∧ 0 < w ∧
    smoothing_step HAS_CUPY apply_smoothing loaded smoothing_iterations
    = (events, Ok volume) ∧
    has_shape volume (S (length rest)) h w ∧
    (∀ lo hi, within lo hi loaded → within lo hi volume) ∧
    (apply_smoothing && HAS_CUPY = false → volume = loaded) ∧
    files_written events = [] ∧
    compute_chunk_minmax volume (Z.to_nat chunk_size) = Ok grid ∧
    num_chunks_z grid = chunk_count (S (length rest)) (Z.to_nat chunk_size) ∧
    num_chunks_y grid = chunk_count h (Z.to_nat chunk_size) ∧
    num_chunks_x grid = chunk_count w (Z.to_nat chunk_size) ∧
    has_shape (cells grid) (num_chunks_z grid) (num_chunks_y grid)
      (num_chunks_x grid) ∧
    convert_dicom_series astype_float16 sha256_hexdigest py_str HAS_CUPY
      (first :: rest) apply_smoothing smoothing_iterations chunk_size anonymize
    = (Mkdir :: events
         ++ slice_writes (map3 astype_float16 volume) (seq 0 (S (length rest)))
         ++ [ WriteChunkMinmax (chunk_file grid);
              WriteMetadata
                (metadata_of sha256_hexdigest py_str (first :: rest)
                   global_min global_max anonymize chunk_size grid);
              Stdout ConversionComplete;
              Stdout (if apply_smoothing && HAS_CUPY
                     then SummarySmoothingApplied smoothing_iterations
                     else SummarySmoothingSkipped) ],
       Ok ()).
Proof.
  intros Hvalid Hrect Hshape Hload.
  pose proof (validate_chunk_size_inv _ Hvalid) as (_ & Hlo & _).
  pose proof (load_series (first :: rest) h w _ Hload) as Hinv.
  cbn [length] in Hinv. destruct Hinv as (Hs & _ & _ & _).
  assert (0 < h ∧ 0 < w) as [Hh Hw].
  { cbn [imap for_each] in Hload.
    destruct (load_slice h w (full (S (length rest)) h w 0%R, None, None)
                (0, first)) as [e|[[v1 m1] M1]] eqn:Hstep; [done|].
    apply load_slice_Ok in Hstep as (slice_min & _ & _ & Hmin & _).
    pose proof (rectangular_nonempty first slice_min Hrect Hmin) as Hpos.
    by rewrite Hshape in Hpos. }
  destruct (smoothing_step_run HAS_CUPY apply_smoothing loaded
              (S (length rest)) h w smoothing_iterations)
    as (events & volume & Hsmooth & Hsv & Hwithin & Hsame & Hfiles);
    [done|lia|done..|].
  destruct (compute_chunk_minmax_spec volume (S (length rest)) h w
              (Z.to_nat chunk_size))
    as (grid & Hgrid & Hnz & Hny & Hnx & Hcells & _); [done|lia|done|done|lia|].
  exists events, volume, grid. split_and!; try done.
  - by rewrite Hnz, Hny, Hnx.
  - apply (convert_run astype_float16 sha256_hexdigest py_str HAS_CUPY first
             rest apply_smoothing smoothing_iterations chunk_size anonymize
             h w loaded); try done.
    by destruct Hsv.
Qed.

End Conversions.

Lemma validate_chunk_size_errors (chunk_size : Z) (e : exn) :
  validate_chunk_size chunk_size = Raise e → is_configuration_error e = true.
Proof.
  unfold validate_chunk_size.
  destruct (negb _); [by intros [= <-]|].
  destruct (_ || _); [by intros [= <-]|done].
Qed.

Lemma load_uniform_Ok (h w : nat) (items : list (nat * Dataset))
    (state : Volume * option R * option R) :
  0 < h → 0 < w →
  Forall (λ item, has_shape2 (pixel_array item.2) h w) items →
  ∃ state', for_each (load_slice h w) items state = Ok state'.
Proof.
  intros Hh Hw Hall. revert state.
  induction Hall as [|[i ds] items [Hlen Hrows] _ IH]; intros state;
    [by eexists|].
  cbn [for_each snd] in *.
  destruct state as [[volume global_min] global_max].
  assert (has_shape2 (hu_data ds) h w) as Hdata.
  { unfold hu_data. split; [by rewrite length_fmap|].
    apply Forall_fmap. eapply Forall_impl; [exact Hrows|].
    intros row Hrow. simpl. by rewrite length_fmap. }
  assert (0 < length (concat (hu_data ds))) as Hne.
  { destruct Hdata as [Hl Hr]. destruct (hu_data ds) as [|row rows];
      [simpl in Hl; lia|].
    apply Forall_cons in Hr as [Hrow _]. simpl. rewrite length_app. lia. }
  destruct (np_min_Ok _ Hne) as [slice_min Hmin].
  destruct (np_max_Ok _ Hne) as [slice_max Hmax].
  unfold load_slice. fold (hounsfield ds). fold (hu_data ds).
  rewrite Hmin, Hmax, (broadcast_to_same h w _ Hdata). cbn [rbind Ok].
  apply IH.
Qed.

(** On a series of slices of one shape the loaded volume is the data of
    the slices, plane by plane. *)
Lemma load_uniform (files : list Dataset) (h w : nat) :
  0 < h → 0 < w → uniform_series h w files →
  ∃ global_min global_max,
    for_each (load_slice h w) (imap pair files)
      (full (length files) h w 0%R, None, None)
    = Ok (hu_data <$> files, global_min, global_max).
Proof.
  intros Hh Hw Huni.
  destruct (load_uniform_Ok h w (imap pair files)
              (full (length files) h w 0%R, None, None) Hh Hw)
    as [[[loaded global_min] global_max] Hload].
  { apply Forall_lookup. intros i [j ds] Hi.
    apply list_lookup_imap_Some in Hi as (ds' & Hds & [= -> ->]).
    unfold uniform_series in Huni. rewrite Forall_lookup in Huni.
    by apply (Huni i). }
  exists global_min, global_max. rewrite Hload. do 3 f_equal.
  destruct (load_series files h w _ Hload) as ([Hlen _] & Hplanes & _).
  unfold Volume in *.
  apply list_eq_same_length with (length files);
    [by rewrite length_fmap|done|].
  intros i plane plane' Hi Hplane Hplane'.
  rewrite list_lookup_fmap in Hplane'.
  destruct (files !! i) as [ds|] eqn:Hds; [|done].
  injection Hplane' as <-.
  destruct (Hplanes i ds Hi Hds) as (stored & Hstored & Hb).
  rewrite broadcast_to_same in Hb.
  - unfold Ok in Hb. congruence.
  - unfold uniform_series in Huni. rewrite Forall_lookup in Huni.
    destruct (Huni i ds Hds) as [Hl Hr].
    unfold hu_data. split; [by rewrite length_fmap|].
    apply Forall_fmap. eapply Forall_impl; [exact Hr|].
    intros row Hrow. simpl. by rewrite length_fmap.
Qed.

(** The running extrema of a loaded series bound every voxel of the
    loaded volume. *)
Lemma loaded_within (files : list Dataset) (h w : nat) (loaded : Volume)
    (global_min global_max : option R) :
  files ≠ [] →
  loaded_upto files h w (length files) (loaded, global_min, global_max) →
  ∃ lo hi,
    global_min = Some lo ∧ global_max = Some hi ∧ within lo hi loaded ∧
    (∃ i ds, files !! i = Some ds ∧ lo ∈ concat (hu_data ds)) ∧
    (∃ i ds, files !! i = Some ds ∧ hi ∈ concat (hu_data ds)) ∧
    (∀ i ds a, files !! i = Some ds → a ∈ concat (hu_data ds) →
       (lo <= a <= hi)%R).
Proof.
  intros Hne (Hs & Hplanes & _ & Hsome).
  destruct Hsome as (lo & hi & -> & -> & Hlo & Hhi & Hall).
  { destruct files; [done|simpl; lia]. }
  exists lo, hi. split_and!; [done|done|..].
  4: { intros i ds a Hds Ha. apply (Hall i ds a); [|done..].
       by eapply lookup_lt_Some. }
  - intros z y x a Ha.
    destruct (get3_Some_lt loaded _ h w z y x a Hs Ha) as (Hz & _ & _).
    destruct (lookup_lt_is_Some_2 files z Hz) as [ds Hds].
    destruct (Hplanes z ds Hz Hds) as (stored & Hstored & Hb).
    apply (Hall z ds a Hz Hds).
    apply (broadcast_to_Ok h w _ _ Hb). apply elem_of_concat.
    unfold get3 in Ha. unfold Volume in *. rewrite Hstored in Ha. simpl in Ha.
    destruct (stored !! y) as [row|] eqn:Hrow; [|done]. simpl in Ha.
    exists row. split; by eapply list_elem_of_lookup_2.
  - destruct Hlo as (i & ds & _ & ? & ?). by exists i, ds.
  - destruct Hhi as (i & ds & _ & ? & ?). by exists i, ds.
Qed.

Lemma dict_get_dict_set (key key' : string) (value : json)
    (d : list (string * json)) :
  dict_get key (dict_set key' value d)
  = if decide (key' = key) then Some value else dict_get key d.
Proof.
  induction d as [|[k v] d IH]; simpl.
  - by case_decide.
  - destruct (decide (k = key')) as [->|Hne]; simpl.
    + by case_decide.
    + rewrite IH. destruct (decide (k = key)) as [->|?]; [|done].
      by rewrite decide_False.
Qed.

Section DriverProperties.
Variable astype_float16 : R → float16.
Variable sha256_hexdigest : string → string.
Variable py_str : json → string.

Abbreviation run_of :=
  (convert_dicom_series astype_float16 sha256_hexdigest py_str).

(** What a completed run on a non-empty series went through. *)
Lemma convert_Ok_inv (HAS_CUPY : bool) (first : Dataset)
    (rest : list Dataset) (apply_smoothing : bool) (smoothing_iterations : Z)
    (chunk_size : Z) (anonymize : bool) :
  (run_of HAS_CUPY (first :: rest) apply_smoothing smoothing_iterations
     chunk_size anonymize).2 = Ok () →
  ∃ h w loaded global_min global_max,
    validate_chunk_size chunk_size = Ok () ∧
    shape2 (pixel_array first) = (h, w) ∧
    for_each (load_slice h w) (imap pair (first :: rest))
      (full (S (length rest)) h w 0%R, None, None)
    = Ok (loaded, global_min, global_max).
Proof.
  intros Hrun.
  destruct (validate_chunk_size chunk_size) as [e|[]] eqn:Hvalid.
  { by erewrite convert_invalid in Hrun by exact Hvalid. }
  destruct (shape2 (pixel_array first)) as [h w] eqn:Hshape.
  destruct (for_each (load_slice h w) (imap pair (first :: rest))
              (full (S (length rest)) h w 0%R, None, None))
    as [e|[[loaded global_min] global_max]] eqn:Hload.
  { by erewrite convert_load_error in Hrun by eassumption. }
  by exists h, w, loaded, global_min, global_max.
Qed.

(** A run that raises stopped at the validation or in the loading loop. *)
Lemma convert_Raise_inv (HAS_CUPY : bool)
    (sorted_files : list Dataset) (apply_smoothing : bool)
    (smoothing_iterations : Z) (chunk_size : Z) (anonymize : bool) (e : exn) :
  Forall (λ ds, rectangular (pixel_array ds)) sorted_files →
  (run_of HAS_CUPY sorted_files apply_smoothing smoothing_iterations
     chunk_size anonymize).2 = Raise e →
  (run_of HAS_CUPY sorted_files apply_smoothing smoothing_iterations
     chunk_size anonymize = ([], Raise e) ∧
   is_configuration_error e = true) ∨
  (run_of HAS_CUPY sorted_files apply_smoothing smoothing_iterations
     chunk_size anonymize = ([Mkdir], Raise e) ∧
   (e = EmptyReduction ∨ e = BroadcastError)).
Proof.
  intros Hrect Hrun.
  destruct (validate_chunk_size chunk_size) as [e0|[]] eqn:Hvalid.
  { left. pose proof (validate_chunk_size_errors _ _ Hvalid) as Hconf.
    erewrite convert_invalid in Hrun |- * by exact Hvalid.
    injection Hrun as ->. done. }
  destruct sorted_files as [|first rest].
  { by erewrite convert_no_files in Hrun by exact Hvalid. }
  apply Forall_cons in Hrect as [Hfirst _].
  destruct (shape2 (pixel_array first)) as [h w] eqn:Hshape.
  destruct (for_each (load_slice h w) (imap pair (first :: rest))
              (full (S (length rest)) h w 0%R, None, None))
    as [e0|[[loaded global_min] global_max]] eqn:Hload.
  - right. pose proof (load_errors _ _ _ _ _ Hload) as Herr.
    erewrite convert_load_error in Hrun |- * by eassumption.
    injection Hrun as ->. done.
  - destruct (convert_after_load astype_float16 sha256_hexdigest py_str
                HAS_CUPY first rest apply_smoothing smoothing_iterations
                chunk_size anonymize h w loaded global_min global_max
                Hvalid Hfirst Hshape Hload)
      as (events & volume & grid & Hfacts).
    destruct Hfacts as (_ & _ & _ & _ & _ & _ & _ & _ & _ & _ & _ & _ & _ & Heq).
    by rewrite Heq in Hrun.
Qed.


End DriverProperties.


(** ** The files of a completed run *)

Lemma length_chunk_file (g : ChunkGrid) :
  length (chunk_file g) = 2 * length (ravel (cells g)).
Proof.
  unfold chunk_file. induction (ravel (cells g)) as [|c l IH]; [done|].
  rewrite bind_cons, length_app, IH. simpl. lia.
Qed.

Lemma lookup_concat_uniform {A} (ls : list (list A)) (n i j : nat) :
  Forall (λ l, length l = n) ls → j < n →
  concat ls !! (i * n + j) = ls !! i ≫= (.!! j).
Proof.
  intros Hall Hj. revert i. induction Hall as [|l ls Hl Hall IH]; intros i.
  - simpl. by rewrite !lookup_nil.
  - destruct i as [|i]; simpl.
    + by rewrite lookup_app_l by lia.
    + rewrite lookup_app_r by lia.
      replace (n + i * n + j - length l) with (i * n + j) by lia. apply IH.
Qed.

(** The position of an element in row-major order. *)
Lemma lookup_ravel {A} (v : list (list (list A))) (d h w z y x : nat) :
  has_shape v d h w → y < h → x < w →
  ravel v !! ((z * h + y) * w + x) = get3 v z y x.
Proof.
  intros [Hd Hv] Hy Hx. unfold ravel, get3.
  assert (Hrows : Forall (λ row : list A, length row = w) (concat v)).
  { apply Forall_forall. intros row Hrow.
    apply elem_of_concat in Hrow as (plane & Hrow & Hplane).
    rewrite Forall_forall in Hv. destruct (Hv _ Hplane) as [_ Hrows].
    rewrite Forall_forall in Hrows. by apply Hrows. }
  assert (Hplanes : Forall (λ plane : list (list A), length plane = h) v).
  { eapply Forall_impl; [exact Hv|]. by intros plane [? _]. }
  rewrite (lookup_concat_uniform (concat v) w _ _ Hrows Hx).
  rewrite (lookup_concat_uniform v h _ _ Hplanes Hy).
  by destruct (v !! z).
Qed.

Lemma lookup_chunk_file (g : ChunkGrid) (i : nat) :
  chunk_file g !! (2 * i) = fst <$> ravel (cells g) !! i ∧
  chunk_file g !! (2 * i + 1) = snd <$> ravel (cells g) !! i.
Proof.
  unfold chunk_file. revert i.
  induction (ravel (cells g)) as [|c l IH]; intros i.
  - by rewrite !lookup_nil.
  - rewrite bind_cons. destruct i as [|i]; [done|].
    replace (2 * S i) with (S (S (2 * i))) by lia. simpl. apply IH.
Qed.

(** X11.  The layout of [chunk_minmax.bin].  For a volume with no empty
    axis and a positive chunk edge, the file written from the grid holds
    two values per cell: the minimum of cell [(iz, iy, ix)] at position
    [2 * ((iz * ny + iy) * nx + ix)] and its maximum at the next one, where
    [ny] and [nx] are the numbers of chunks along y and x; its length is
    twice the number of cells. *)
Theorem chunk_file_layout (volume : Volume) (d h w chunk_size : nat) :
  has_shape volume d h w → 0 < d → 0 < h → 0 < w → 0 < chunk_size →
  ∃ grid,
    compute_chunk_minmax volume chunk_size = Ok grid ∧
    length (chunk_file grid) = 2 * total_chunks grid ∧
    ∀ iz iy ix,
      iz < num_chunks_z grid → iy < num_chunks_y grid →
      ix < num_chunks_x grid →
      ∃ lo hi,
        cell grid iz iy ix = Some (lo, hi) ∧
        chunk_file grid
          !! (2 * ((iz * num_chunks_y grid + iy) * num_chunks_x grid + ix))
        = Some lo ∧
        chunk_file grid
          !! (2 * ((iz * num_chunks_y grid + iy) * num_chunks_x grid + ix) + 1)
        = Some hi.
Proof.
  intros Hs Hd Hh Hw Hc.
  destruct (compute_chunk_minmax_spec volume d h w chunk_size)
    as (grid & Hrun & Hnz & Hny & Hnx & Hshape & _); [done..|].
  rewrite <- Hnz, <- Hny, <- Hnx in Hshape.
  exists grid. split; [done|]. split.
  - rewrite length_chunk_file, (length_ravel _ _ _ _ Hshape).
    unfold total_chunks. lia.
  - intros iz iy ix Hz Hy Hx.
    destruct (get3_is_Some (cells grid) _ _ _ iz iy ix Hshape Hz Hy Hx)
      as [[lo hi] Hcell].
    exists lo, hi. split; [done|].
    destruct (lookup_chunk_file grid
                ((iz * num_chunks_y grid + iy) * num_chunks_x grid + ix))
      as [-> ->].
    rewrite (lookup_ravel (cells grid) _ _ _ iz iy ix Hshape Hy Hx).
    unfold cell in Hcell. by rewrite Hcell.
Qed.

Lemma chunk_file_layout_witness :
  ∃ grid,
    compute_chunk_minmax sample_volume 1 = Ok grid ∧
    length (chunk_file grid) = 2 * total_chunks grid ∧
    ∀ iz iy ix,
      iz < num_chunks_z grid → iy < num_chunks_y grid →
      ix < num_chunks_x grid →
      ∃ lo hi,
        cell grid iz iy ix = Some (lo, hi) ∧
        chunk_file grid
          !! (2 * ((iz * num_chunks_y grid + iy) * num_chunks_x grid + ix))
        = Some lo ∧
        chunk_file grid
          !! (2 * ((iz * num_chunks_y grid + iy) * num_chunks_x grid + ix) + 1)
        = Some hi.
Proof.
  apply (chunk_file_layout sample_volume 1 2 2 1);
    [apply has_shape_sample_volume|lia..].
Defined.

Lemma rectangular_has_shape2 {A} (a : list (list A)) (h w : nat) :
  has_shape2 a h w → 0 < h → shape2 a = (h, w) ∧ rectangular a.
Proof.
  intros [Hh Hw] Hpos.
  assert (shape2 a = (h, w)) as Heq.
  { unfold shape2. destruct a as [|row a]; [simpl in *; lia|].
    apply Forall_cons in Hw as [Hrow _]. simpl in *. by rewrite Hh, Hrow. }
  split; [done|]. unfold rectangular. by rewrite Heq.
Qed.

Section WrittenFiles.
Variable astype_float16 : R → float16.
Variable sha256_hexdigest : string → string.
Variable py_str : json → string.

Abbreviation conversion :=
  (convert_dicom_series astype_float16 sha256_hexdigest py_str).

(** The facts about a completed run on a non-empty series of rectangular
    slices that the theorems below select from. *)
Lemma conversion_completed (HAS_CUPY : bool) (first : Dataset)
    (rest : list Dataset) (apply_smoothing : bool) (smoothing_iterations : Z)
    (chunk_size : Z) (anonymize : bool) :
  rectangular (pixel_array first) →
  (conversion HAS_CUPY (first :: rest) apply_smoothing smoothing_iterations
     chunk_size anonymize).2 = Ok () →
  ∃ h w loaded global_min global_max events volume grid,
    shape2 (pixel_array first) = (h, w) ∧ 0 < h ∧ 0 < w ∧
    (16 ≤ chunk_size)%Z ∧
    loaded_upto (first :: rest) h w (S (length rest))
      (loaded, global_min, global_max) ∧
    has_shape volume (S (length rest)) h w ∧
    (∀ lo hi, within lo hi loaded → within lo hi volume) ∧
    (apply_smoothing && HAS_CUPY = false → volume = loaded) ∧
    files_written events = [] ∧
    num_chunks_z grid = chunk_count (S (length rest)) (Z.to_nat chunk_size) ∧
    num_chunks_y grid = chunk_count h (Z.to_nat chunk_size) ∧
    num_chunks_x grid = chunk_count w (Z.to_nat chunk_size) ∧
    has_shape (cells grid) (num_chunks_z grid) (num_chunks_y grid)
      (num_chunks_x grid) ∧
    conversion HAS_CUPY (first :: rest) apply_smoothing smoothing_iterations
      chunk_size anonymize
    = (Mkdir :: events
         ++ slice_writes (map3 astype_float16 volume) (seq 0 (S (length rest)))
         ++ [ WriteChunkMinmax (chunk_file grid);
              WriteMetadata
                (metadata_of sha256_hexdigest py_str (first :: rest)
                   global_min global_max anonymize chunk_size grid);
              Stdout ConversionComplete;
              Stdout (if apply_smoothing && HAS_CUPY
                     then SummarySmoothingApplied smoothing_iterations
                     else SummarySmoothingSkipped) ],
       Ok ()).
Proof.
  intros Hrect Hrun.
  destruct (convert_Ok_inv astype_float16 sha256_hexdigest py_str HAS_CUPY
              first rest apply_smoothing smoothing_iterations chunk_size
              anonymize Hrun)
    as (h & w & loaded & global_min & global_max & Hvalid & Hshape & Hload).
  destruct (convert_after_load astype_float16 sha256_hexdigest py_str
              HAS_CUPY first rest apply_smoothing smoothing_iterations
              chunk_size anonymize h w loaded global_min global_max
              Hvalid Hrect Hshape Hload)
    as (events & volume & grid & _ & Hh & Hw & _ & Hsv & Hwithin & Hsame
        & Hfiles & _ & Hnz & Hny & Hnx & Hcells & Heq).
  pose proof (validate_chunk_size_inv _ Hvalid) as (_ & Hlo & _).
  pose proof (load_series (first :: rest) h w _ Hload) as Hinv.
  exists h, w, loaded, global_min, global_max, events, volume, grid.
  split_and!; done.
Qed.

Lemma files_written_completed (events : list event)
    (writes : list event) (chunks : list R) (metadata : list (string * json))
    (m1 m2 : message) :
  files_written events = [] → files_written writes = writes →
  files_written (Mkdir :: events ++ writes
                   ++ [WriteChunkMinmax chunks; WriteMetadata metadata;
                       Stdout m1; Stdout m2])
  = Mkdir :: writes ++ [WriteChunkMinmax chunks; WriteMetadata metadata].
Proof.
  intros Hevents Hwrites. unfold files_written in *.
  rewrite filter_cons_True by done.
  rewrite !filter_app, Hevents, Hwrites. done.
Qed.

(** X12.  The metadata describes the files.  A completed run on a
    non-empty series of rectangular slices has written exactly: the output
    directory, one slice file per dataset in order (the quantised planes
    of a volume of shape (numSlices, height, width)), the chunk file and
    the metadata.  In the metadata, [numSlices], [height] and [width] are
    the shape of that volume, [chunkSize] is the chunk size given, the
    three chunk counts are the ceilings of the dimensions over the chunk
    size, and [totalChunks] is their product, half the number of values
    in the chunk file. *)
Theorem metadata_describes_the_files (HAS_CUPY : bool) (first : Dataset)
    (rest : list Dataset) (apply_smoothing : bool) (smoothing_iterations : Z)
    (chunk_size : Z) (anonymize : bool) :
  rectangular (pixel_array first) →
  (conversion HAS_CUPY (first :: rest) apply_smoothing smoothing_iterations
     chunk_size anonymize).2 = Ok () →
  ∃ n h w volume chunks metadata,
    files_written
      (conversion HAS_CUPY (first :: rest) apply_smoothing
         smoothing_iterations chunk_size anonymize).1
    = Mkdir :: slice_writes (map3 astype_float16 volume) (seq 0 n)
        ++ [WriteChunkMinmax chunks; WriteMetadata metadata] ∧
    n = S (length rest) ∧ has_shape volume n h w ∧
    dict_get "numSlices" metadata = Some (JInt (Z.of_nat n)) ∧
    dict_get "height" metadata = Some (JInt (Z.of_nat h)) ∧
    dict_get "width" metadata = Some (JInt (Z.of_nat w)) ∧
    dict_get "chunkSize" metadata = Some (JInt chunk_size) ∧
    dict_get "numChunksZ" metadata
    = Some (JInt (Z.of_nat (chunk_count n (Z.to_nat chunk_size)))) ∧
    dict_get "numChunksY" metadata
    = Some (JInt (Z.of_nat (chunk_count h (Z.to_nat chunk_size)))) ∧
    dict_get "numChunksX" metadata
    = Some (JInt (Z.of_nat (chunk_count w (Z.to_nat chunk_size)))) ∧
    dict_get "totalChunks" metadata
    = Some (JInt (Z.of_nat (chunk_count n (Z.to_nat chunk_size)
                            * chunk_count h (Z.to_nat chunk_size)
                            * chunk_count w (Z.to_nat chunk_size)))) ∧
    length chunks
    = 2 * (chunk_count n (Z.to_nat chunk_size)
           * chunk_count h (Z.to_nat chunk_size)
           * chunk_count w (Z.to_nat chunk_size)).
Proof.
  intros Hrect Hrun.
  destruct (conversion_completed HAS_CUPY first rest apply_smoothing
              smoothing_iterations chunk_size anonymize Hrect Hrun)
    as (h & w & loaded & global_min & global_max & events & volume & grid
        & Hshape & _ & _ & _ & _ & Hsv & _ & _ & Hfiles & Hnz & Hny & Hnx
        & Hcells & Heq).
  exists (S (length rest)), h, w, volume, (chunk_file grid),
    (metadata_of sha256_hexdigest py_str (first :: rest) global_min
       global_max anonymize chunk_size grid).
  rewrite Heq. cbn [fst].
  split; [apply files_written_completed;
          [done|apply files_written_slice_writes]|].
  split; [done|]. split; [done|].
  rewrite <- Hnz, <- Hny, <- Hnx.
  split_and!.
  - by destruct anonymize.
  - destruct anonymize; unfold metadata_of, extract_metadata;
      by rewrite Hshape.
  - destruct anonymize; unfold metadata_of, extract_metadata;
      by rewrite Hshape.
  - by destruct anonymize.
  - by destruct anonymize.
  - by destruct anonymize.
  - by destruct anonymize.
  - by destruct anonymize.
  - rewrite length_chunk_file, (length_ravel _ _ _ _ Hcells). done.
Qed.

End WrittenFiles.

Lemma rectangular_sample_dataset : rectangular (pixel_array sample_dataset).
Proof. repeat constructor. Qed.

Lemma sample_run_completes :
  (convert_dicom_series example_astype_float16 example_sha256_hexdigest
     example_py_str false [sample_dataset] true 5 16 true).2 = Ok ().
Proof. reflexivity. Qed.

Lemma metadata_describes_the_files_witness :
  ∃ n h w volume chunks metadata,
    files_written
      (convert_dicom_series example_astype_float16 example_sha256_hexdigest
         example_py_str false [sample_dataset] true 5 16 true).1
    = Mkdir :: slice_writes (map3 example_astype_float16 volume) (seq 0 n)
        ++ [WriteChunkMinmax chunks; WriteMetadata metadata] ∧
    n = 1 ∧ has_shape volume n h w ∧
    dict_get "numSlices" metadata = Some (JInt (Z.of_nat n)) ∧
    dict_get "height" metadata = Some (JInt (Z.of_nat h)) ∧
    dict_get "width" metadata = Some (JInt (Z.of_nat w)) ∧
    dict_get "chunkSize" metadata = Some (JInt 16) ∧
    dict_get "numChunksZ" metadata
    = Some (JInt (Z.of_nat (chunk_count n (Z.to_nat 16)))) ∧
    dict_get "numChunksY" metadata
    = Some (JInt (Z.of_nat (chunk_count h (Z.to_nat 16)))) ∧
    dict_get "numChunksX" metadata
    = Some (JInt (Z.of_nat (chunk_count w (Z.to_nat 16)))) ∧
    dict_get "totalChunks" metadata
    = Some (JInt (Z.of_nat (chunk_count n (Z.to_nat 16)
                            * chunk_count h (Z.to_nat 16)
                            * chunk_count w (Z.to_nat 16)))) ∧
    length chunks
    = 2 * (chunk_count n (Z.to_nat 16) * chunk_count h (Z.to_nat 16)
           * chunk_count w (Z.to_nat 16)).
Proof.
  apply (metadata_describes_the_files example_astype_float16
           example_sha256_hexdigest example_py_str false sample_dataset []
           true 5 16 true).
  - repeat constructor.
  - reflexivity.
Defined.

Section WrittenValues.
Variable astype_float16 : R → float16.
Variable sha256_hexdigest : string → string.
Variable py_str : json → string.

Abbreviation converted :=
  (convert_dicom_series astype_float16 sha256_hexdigest py_str).

(** X13.  The HU range of the metadata.  In a completed run on a non-empty
    series of rectangular slices, [huMin] and [huMax] are the least and
    the greatest rescaled pixel value of the whole series, and every voxel
    of the volume that is quantised into the slice files lies between
    them, whether or not the volume was smoothed after the range was
    taken. *)
Theorem hu_range_bounds_written_voxels (HAS_CUPY : bool) (first : Dataset)
    (rest : list Dataset) (apply_smoothing : bool) (smoothing_iterations : Z)
    (chunk_size : Z) (anonymize : bool) :
  rectangular (pixel_array first) →
  (converted HAS_CUPY (first :: rest) apply_smoothing smoothing_iterations
     chunk_size anonymize).2 = Ok () →
  ∃ lo hi volume chunks metadata,
    files_written
      (converted HAS_CUPY (first :: rest) apply_smoothing
         smoothing_iterations chunk_size anonymize).1
    = Mkdir :: slice_writes (map3 astype_float16 volume)
                 (seq 0 (S (length rest)))
        ++ [WriteChunkMinmax chunks; WriteMetadata metadata] ∧
    dict_get "huMin" metadata = Some (JFloat lo) ∧
    dict_get "huMax" metadata = Some (JFloat hi) ∧
    (∃ i ds, (first :: rest) !! i = Some ds ∧ lo ∈ concat (hu_data ds)) ∧
    (∃ i ds, (first :: rest) !! i = Some ds ∧ hi ∈ concat (hu_data ds)) ∧
    (∀ i ds a, (first :: rest) !! i = Some ds → a ∈ concat (hu_data ds) →
       (lo <= a <= hi)%R) ∧
    within lo hi volume.
Proof.
  intros Hrect Hrun.
  destruct (conversion_completed astype_float16 sha256_hexdigest py_str
              HAS_CUPY first rest apply_smoothing
              smoothing_iterations chunk_size anonymize Hrect Hrun)
    as (h & w & loaded & global_min & global_max & events & volume & grid
        & Hshape & _ & _ & _ & Hinv & Hsv & Hwithin & _ & Hfiles & _ & _ & _
        & _ & Heq).
  destruct (loaded_within (first :: rest) h w loaded global_min global_max)
    as (lo & hi & -> & -> & Hin & Hlo & Hhi & Hall); [done|done|].
  exists lo, hi, volume, (chunk_file grid),
    (metadata_of sha256_hexdigest py_str (first :: rest) (Some lo) (Some hi)
       anonymize chunk_size grid).
  rewrite Heq. cbn [fst].
  split; [apply files_written_completed;
          [done|apply files_written_slice_writes]|].
  split; [by destruct anonymize|]. split; [by destruct anonymize|].
  split_and!; [done..|]. by apply Hwithin.
Qed.

(** X14.  A series of slices of one non-empty shape is converted for
    every valid chunk size and every choice of the other options; and
    when the volume is not smoothed, the file of slice [i] holds the
    quantised rescaled pixels of dataset [i], each dataset rescaled with
    its own slope and intercept. *)
Theorem unsmoothed_slices_hold_rescaled_pixels (HAS_CUPY : bool)
    (sorted_files : list Dataset) (apply_smoothing : bool)
    (smoothing_iterations : Z) (chunk_size : Z) (anonymize : bool)
    (h w : nat) :
  (chunk_size `mod` 16 = 0 ∧ 16 ≤ chunk_size ≤ 256)%Z →
  sorted_files ≠ [] → uniform_series h w sorted_files → 0 < h → 0 < w →
  (converted HAS_CUPY sorted_files apply_smoothing smoothing_iterations
     chunk_size anonymize).2 = Ok () ∧
  (apply_smoothing && HAS_CUPY = false →
   ∃ chunks metadata,
     files_written
       (converted HAS_CUPY sorted_files apply_smoothing smoothing_iterations
          chunk_size anonymize).1
     = Mkdir
       :: imap (λ i ds,
            WriteSlice i
              ((λ row : list R, astype_float16 <$> row) <$> hu_data ds))
            sorted_files
       ++ [WriteChunkMinmax chunks; WriteMetadata metadata]).
Proof.
  intros Hgood Hne Huni Hh Hw.
  destruct sorted_files as [|first rest]; [done|]. clear Hne.
  pose proof (validate_chunk_size_Ok _ Hgood) as Hvalid.
  assert (has_shape2 (pixel_array first) h w) as Hfirst
    by by apply Forall_cons in Huni as [? _].
  destruct (rectangular_has_shape2 _ h w Hfirst Hh) as [Hshape Hrect].
  destruct (load_uniform (first :: rest) h w Hh Hw Huni)
    as (global_min & global_max & Hload).
  destruct (convert_after_load astype_float16 sha256_hexdigest py_str
              HAS_CUPY first rest apply_smoothing smoothing_iterations
              chunk_size anonymize h w _ global_min global_max
              Hvalid Hrect Hshape Hload)
    as (events & volume & grid & _ & _ & _ & _ & Hsv & _ & Hsame
        & Hfiles & _ & _ & _ & _ & _ & Heq).
  rewrite Heq. split; [done|]. intros Hoff. cbn [fst].
  exists (chunk_file grid),
    (metadata_of sha256_hexdigest py_str (first :: rest) global_min
       global_max anonymize chunk_size grid).
  rewrite files_written_completed;
    [|done|apply files_written_slice_writes].
  do 2 f_equal. rewrite (Hsame Hoff).
  unfold slice_writes, map3.
  remember ((λ plane : list (list R),
               (λ row : list R, astype_float16 <$> row) <$> plane)
              <$> (hu_data <$> first :: rest)) as planes eqn:Hplanes.
  apply list_eq. intros i.
  rewrite list_lookup_fmap, list_lookup_imap.
  destruct (decide (i < S (length rest))) as [Hi|Hi].
  - rewrite lookup_seq_lt by done.
    destruct (lookup_lt_is_Some_2 (first :: rest) i) as [ds Hds]; [done|].
    rewrite Hds.
    assert (planes !! i
            = Some ((λ row : list R, astype_float16 <$> row) <$> hu_data ds))
      as Hplane by (subst planes; by rewrite !list_lookup_fmap, Hds).
    cbn. by rewrite Hplane.
  - rewrite lookup_seq_ge by lia.
    rewrite (lookup_ge_None_2 (first :: rest) i) by (simpl; lia). done.
Qed.

End WrittenValues.

Lemma hu_range_bounds_written_voxels_witness :
  ∃ lo hi volume chunks metadata,
    files_written
      (convert_dicom_series example_astype_float16 example_sha256_hexdigest
         example_py_str false [sample_dataset] true 5 16 true).1
    = Mkdir :: slice_writes (map3 example_astype_float16 volume) (seq 0 1)
        ++ [WriteChunkMinmax chunks; WriteMetadata metadata] ∧
    dict_get "huMin" metadata = Some (JFloat lo) ∧
    dict_get "huMax" metadata = Some (JFloat hi) ∧
    (∃ i ds, [sample_dataset] !! i = Some ds ∧ lo ∈ concat (hu_data ds)) ∧
    (∃ i ds, [sample_dataset] !! i = Some ds ∧ hi ∈ concat (hu_data ds)) ∧
    (∀ i ds a, [sample_dataset] !! i = Some ds → a ∈ concat (hu_data ds) →
       (lo <= a <= hi)%R) ∧
    within lo hi volume.
Proof.
  apply (hu_range_bounds_written_voxels example_astype_float16
           example_sha256_hexdigest example_py_str false sample_dataset []
           true 5 16 true).
  - repeat constructor.
  - reflexivity.
Defined.

Lemma unsmoothed_slices_hold_rescaled_pixels_witness :
  (convert_dicom_series example_astype_float16 example_sha256_hexdigest
     example_py_str false [sample_dataset] true 5 32 true).2 = Ok () ∧
  (true && false = false →
   ∃ chunks metadata,
     files_written
       (convert_dicom_series example_astype_float16 example_sha256_hexdigest
          example_py_str false [sample_dataset] true 5 32 true).1
     = Mkdir
       :: imap (λ i ds,
            WriteSlice i
              ((λ row : list R, example_astype_float16 <$> row)
                 <$> hu_data ds))
            [sample_dataset]
       ++ [WriteChunkMinmax chunks; WriteMetadata metadata]).
Proof.
  apply (unsmoothed_slices_hold_rescaled_pixels example_astype_float16
           example_sha256_hexdigest example_py_str false [sample_dataset]
           true 5 32 true 1 2).
  - split; [reflexivity|lia].
  - done.
  - repeat constructor.
  - lia.
  - lia.
Defined.

(** ** Anonymisation *)

Section Anonymisation.
Variable sha256_hexdigest : string → string.
Variable py_str : json → string.

(** X15.  What anonymisation leaves alone.  Of the entries that
    [extract_metadata] builds, the flag [anonymize] changes only
    [anonymized], [patientName], [patientID], [studyInstanceUID] and
    [seriesInstanceUID]: every other entry, such as the birth date and
    the sex of the patient or the date and time of the study, is the same
    with and without anonymisation. *)
Theorem anonymisation_changes_identifiers_only (dicom_files : list Dataset)
    (global_min global_max : option R) (key : string) :
  key ∉ ["anonymized"; "patientName"; "patientID"; "studyInstanceUID";
         "seriesInstanceUID"] →
  dict_get key
    (extract_metadata sha256_hexdigest py_str dicom_files global_min
       global_max true)
  = dict_get key
      (extract_metadata sha256_hexdigest py_str dicom_files global_min
         global_max false).
Proof.
  intros Hkey. destruct dicom_files as [|first_ds rest]; [done|].
  unfold extract_metadata. cbn [dict_get].
  repeat (case_decide; [try done; subst key; exfalso; apply Hkey;
                        repeat constructor|]).
  done.
Qed.

End Anonymisation.

Lemma anonymisation_changes_identifiers_only_witness :
  dict_get "patientBirthDate"
    (extract_metadata example_sha256_hexdigest example_py_str
       [sample_dataset] None None true)
  = dict_get "patientBirthDate"
      (extract_metadata example_sha256_hexdigest example_py_str
         [sample_dataset] None None false).
Proof.
  apply (anonymisation_changes_identifiers_only example_sha256_hexdigest
           example_py_str [sample_dataset] None None "patientBirthDate").
  apply (bool_decide_unpack _). reflexivity.
Defined.

Lemma length_upper (s : string) : String.length (upper s) = String.length s.
Proof. induction s as [|c s IH]; simpl; [done|by rewrite IH]. Qed.

Lemma ascii_upper_idemp (c : ascii) : ascii_upper (ascii_upper c) = ascii_upper c.
Proof. by destruct c as [[] [] [] [] [] [] [] []]. Qed.

Lemma upper_idemp (s : string) : upper (upper s) = upper s.
Proof.
  induction s as [|c s IH]; simpl; [done|].
  by rewrite ascii_upper_idemp, IH.
Qed.

Lemma length_substring_0 (m : nat) (s : string) :
  String.length (substring 0 m s) = Nat.min m (String.length s).
Proof.
  revert s. induction m as [|m IH]; intros s.
  - by destruct s.
  - destruct s as [|c s]; simpl; [done|]. by rewrite IH.
Qed.

Section Pseudonyms.
Variable sha256_hexdigest : string → string.
Variable py_str : json → string.

(** X16.  The form of a pseudonym.  When the digest has the 64 characters
    of a SHA-256 hex digest, [anonymize_identifier] returns either
    [UNKNOWN] or exactly 16 characters, and in both cases a text that
    upper-casing leaves unchanged: it holds no lower-case letter. *)
Theorem pseudonym_format (identifier : json) :
  (∀ s, String.length (sha256_hexdigest s) = 64) →
  let pseudonym := anonymize_identifier sha256_hexdigest py_str identifier in
  upper pseudonym = pseudonym ∧
  (pseudonym = "UNKNOWN" ∨ String.length pseudonym = 16).
Proof.
  intros Hdigest pseudonym. subst pseudonym.
  assert (Hhash : ∀ s,
    upper (upper (substring 0 16 (sha256_hexdigest s)))
    = upper (substring 0 16 (sha256_hexdigest s)) ∧
    (upper (substring 0 16 (sha256_hexdigest s)) = "UNKNOWN" ∨
     String.length (upper (substring 0 16 (sha256_hexdigest s))) = 16)).
  { intros s. split; [apply upper_idemp|right].
    by rewrite length_upper, length_substring_0, Hdigest. }
  unfold anonymize_identifier.
  destruct identifier as [n|x|s|b|l]; try apply Hhash.
  - destruct s as [|c s]; [by auto|apply Hhash].
  - destruct l as [|v l]; [by auto|apply Hhash].
Qed.

End Pseudonyms.

Lemma pseudonym_format_witness :
  upper (anonymize_identifier example_digest64 example_py_str (JStr "DOE^JOHN"))
  = anonymize_identifier example_digest64 example_py_str (JStr "DOE^JOHN") ∧
  (anonymize_identifier example_digest64 example_py_str (JStr "DOE^JOHN")
   = "UNKNOWN" ∨
   String.length
     (anonymize_identifier example_digest64 example_py_str (JStr "DOE^JOHN"))
   = 16).
Proof.
  apply (pseudonym_format example_digest64 example_py_str (JStr "DOE^JOHN")).
  intros s. reflexivity.
Defined.

(** ** Sorting the slices *)

Lemma insert_by_key_Permutation {A} (item : R * A) (l : list (R * A)) :
  insert_by_key item l ≡ₚ item :: l.
Proof.
  induction l as [|other l IH]; simpl; [done|].
  destruct (Rle_dec item.1 other.1); [done|].
  rewrite IH. apply Permutation_swap.
Qed.

Lemma sorted_by_key_Permutation {A} (l : list (R * A)) :
  sorted_by_key l ≡ₚ l.
Proof.
  induction l as [|item l IH]; simpl; [done|].
  by rewrite insert_by_key_Permutation, IH.
Qed.

Lemma insert_by_key_sorted {A} (item : R * A) (l : list (R * A)) :
  StronglySorted (λ a b, (a.1 <= b.1)%R) l →
  StronglySorted (λ a b, (a.1 <= b.1)%R) (insert_by_key item l).
Proof.
  induction 1 as [|other l Hl IH Hall]; simpl.
  - repeat constructor.
  - destruct (Rle_dec item.1 other.1) as [Hle|Hgt].
    + constructor; [by constructor|]. constructor; [done|].
      eapply Forall_impl; [exact Hall|]. intros b Hb. simpl in *. lra.
    + constructor; [done|].
      rewrite insert_by_key_Permutation. constructor; [lra|done].
Qed.

Lemma sorted_by_key_sorted {A} (l : list (R * A)) :
  StronglySorted (λ a b, (a.1 <= b.1)%R) (sorted_by_key l).
Proof.
  induction l as [|item l IH]; simpl; [constructor|].
  by apply insert_by_key_sorted.
Qed.

(** The items of the sorted list that satisfy a property of the key come
    in their order in the input. *)
Lemma insert_by_key_stable {A} (k : R) (item : R * A) (l : list (R * A)) :
  StronglySorted (λ a b, (a.1 <= b.1)%R) l →
  filter (λ a, a.1 = k) (insert_by_key item l)
  = filter (λ a, a.1 = k) (item :: l).
Proof.
  induction 1 as [|other l Hl IH Hall]; simpl; [done|].
  destruct (Rle_dec item.1 other.1) as [Hle|Hgt]; [done|].
  rewrite (filter_cons _ other), IH, !(filter_cons _ item), (filter_cons _ other).
  destruct (decide (item.1 = k)) as [Hi|Hi], (decide (other.1 = k)) as [Ho|Ho];
    try done.
  lra.
Qed.

Lemma sorted_by_key_stable {A} (k : R) (l : list (R * A)) :
  filter (λ a, a.1 = k) (sorted_by_key l) = filter (λ a, a.1 = k) l.
Proof.
  induction l as [|item l IH]; simpl; [done|].
  rewrite insert_by_key_stable by apply sorted_by_key_sorted.
  by rewrite !filter_cons, IH.
Qed.

Lemma sorted_by_key_sorted_input {A} (l : list (R * A)) :
  StronglySorted (λ a b, (a.1 <= b.1)%R) l → sorted_by_key l = l.
Proof.
  induction 1 as [|item l Hl IH Hall]; simpl; [done|].
  rewrite IH. destruct l as [|other l]; [done|]. simpl.
  apply Forall_cons in Hall as [Hle _].
  by destruct (Rle_dec item.1 other.1).
Qed.

Lemma collect_fmap {I A} (f : I → result A) (g : I → A) (xs : list I) :
  (∀ x, x ∈ xs → f x = Ok (g x)) → collect f xs = Ok (g <$> xs).
Proof.
  induction xs as [|x xs IH]; intros Hf; [done|]. simpl.
  rewrite Hf by left. cbn [rbind Ok]. rewrite IH by (intros; apply Hf; by right).
  done.
Qed.

Lemma zip_fmap_key {A} (key : A → R) (l : list A) :
  zip (key <$> l) l = (λ ds, (key ds, ds)) <$> l.
Proof.
  induction l as [|a l IH]; [done|].
  rewrite !fmap_cons. cbn [zip_with]. by rewrite IH.
Qed.

Lemma filter_keyed {A} (key : A → R) (k : R) (l : list (R * A)) :
  Forall (λ p, p.1 = key p.2) l →
  filter (λ ds, key ds = k) (l.*2) = (filter (λ p, p.1 = k) l).*2.
Proof.
  induction 1 as [|p l Hp Hl IH]; [done|].
  rewrite fmap_cons, !filter_cons, IH.
  destruct (decide (key p.2 = k)) as [Hk|Hk], (decide (p.1 = k)) as [Hk'|Hk'];
    try done; congruence.
Qed.

Lemma sorted_keyed {A} (key : A → R) (l : list (R * A)) :
  Forall (λ p, p.1 = key p.2) l →
  StronglySorted (λ a b, (a.1 <= b.1)%R) l →
  StronglySorted (λ a b, (key a <= key b)%R) (l.*2).
Proof.
  intros Hkey. induction 1 as [|p l Hl IH Hall]; [constructor|].
  apply Forall_cons in Hkey as [Hp Hkey].
  rewrite fmap_cons. constructor; [by apply IH|].
  apply Forall_fmap. rewrite Forall_forall in Hall, Hkey |- *.
  intros q Hq. specialize (Hall q Hq). specialize (Hkey q Hq).
  simpl in *. by rewrite <- Hp, <- Hkey.
Qed.

(** The call on a series all of whose keys can be computed. *)
Lemma sort_dicom_slices_keyed {A} (attributes : A → SortAttributes)
    (key : A → R) (dicom_files : list A) :
  (∀ ds, ds ∈ dicom_files → get_sort_key (attributes ds) = Ok (key ds)) →
  sort_dicom_slices attributes dicom_files
  = Ok (sorted_by_key ((λ ds, (key ds, ds)) <$> dicom_files)).*2.
Proof.
  intros Hkey. unfold sort_dicom_slices.
  rewrite (collect_fmap _ key) by done. cbn [rbind Ok].
  by rewrite zip_fmap_key.
Qed.

(** X17.  [sort_dicom_slices] on a series all of whose keys can be
    computed returns the datasets of the series, each as often as it
    occurs, in non-decreasing order of their keys, and datasets with the
    same key in the order they had in the input. *)
Theorem sort_is_a_stable_sort_by_key {A} (attributes : A → SortAttributes)
    (key : A → R) (dicom_files : list A) :
  (∀ ds, ds ∈ dicom_files → get_sort_key (attributes ds) = Ok (key ds)) →
  ∃ sorted_files,
    sort_dicom_slices attributes dicom_files = Ok sorted_files ∧
    sorted_files ≡ₚ dicom_files ∧
    StronglySorted (λ a b, (key a <= key b)%R) sorted_files ∧
    ∀ k, filter (λ ds, key ds = k) sorted_files
         = filter (λ ds, key ds = k) dicom_files.
Proof.
  intros Hkey. rewrite (sort_dicom_slices_keyed attributes key) by done.
  set (items := (λ ds, (key ds, ds)) <$> dicom_files).
  assert (Hitems : items.*2 = dicom_files).
  { unfold items. rewrite <- list_fmap_compose. apply list_fmap_id. }
  assert (Hkeyed : Forall (λ p : R * A, p.1 = key p.2) items).
  { unfold items. apply Forall_fmap. by apply Forall_true. }
  assert (Hsorted : Forall (λ p : R * A, p.1 = key p.2) (sorted_by_key items)).
  { by rewrite sorted_by_key_Permutation. }
  eexists. split; [done|]. split_and!.
  - by rewrite sorted_by_key_Permutation, Hitems.
  - apply sorted_keyed; [done|apply sorted_by_key_sorted].
  - intros k. rewrite (filter_keyed key) by done.
    rewrite sorted_by_key_stable, <- (filter_keyed key) by done.
    by rewrite Hitems.
Qed.

Lemma sort_is_a_stable_sort_by_key_witness :
  ∃ sorted_files,
    sort_dicom_slices (λ ds : SortAttributes, ds) sample_attributes = Ok sorted_files ∧
    sorted_files ≡ₚ sample_attributes ∧
    StronglySorted
      (λ a b, (default 0 (InstanceNumber a) <= default 0 (InstanceNumber b))%R)
      sorted_files ∧
    ∀ k, filter (λ ds, default 0%R (InstanceNumber ds) = k) sorted_files
         = filter (λ ds, default 0%R (InstanceNumber ds) = k)
             sample_attributes.
Proof.
  apply (sort_is_a_stable_sort_by_key (λ ds : SortAttributes, ds)
           (λ ds, default 0%R (InstanceNumber ds)) sample_attributes).
  intros ds Hds. unfold sample_attributes in Hds.
  repeat (apply elem_of_cons in Hds as [->|Hds]; [reflexivity|]).
  by apply elem_of_nil in Hds.
Defined.

(** X18.  A series whose keys are already in non-decreasing order is
    returned as it is; so is, in particular, a series in which no dataset
    has any of the three attributes, all of whose keys are 0. *)
Theorem sort_keeps_a_sorted_series {A} (attributes : A → SortAttributes)
    (key : A → R) (dicom_files : list A) :
  (∀ ds, ds ∈ dicom_files → get_sort_key (attributes ds) = Ok (key ds)) →
  StronglySorted (λ a b, (key a <= key b)%R) dicom_files →
  sort_dicom_slices attributes dicom_files = Ok dicom_files.
Proof.
  intros Hkey Hsorted. rewrite (sort_dicom_slices_keyed attributes key) by done.
  rewrite sorted_by_key_sorted_input.
  - rewrite <- list_fmap_compose. by rewrite list_fmap_id.
  - clear Hkey. induction Hsorted as [|ds l Hl IH Hall]; [constructor|].
    rewrite fmap_cons. constructor; [done|]. by apply Forall_fmap.
Qed.

Lemma sort_keeps_a_sorted_series_witness :
  sort_dicom_slices snd unkeyed_attributes = Ok unkeyed_attributes.
Proof.
  apply (sort_keeps_a_sorted_series snd (λ _, 0%R) unkeyed_attributes).
  - intros ds Hds. unfold unkeyed_attributes in Hds.
    repeat (apply elem_of_cons in Hds as [->|Hds]; [reflexivity|]).
    by apply elem_of_nil in Hds.
  - repeat constructor; simpl; lra.
Defined.

Lemma collect_Raise {I A} (f : I → result A) (xs : list I) (x : I) (e : exn) :
  x ∈ xs → f x = Raise e → (∀ y e', f y = Raise e' → e' = e) →
  collect f xs = Raise e.
Proof.
  intros Hx Hfx Hall. induction xs as [|y xs IH]; [by apply elem_of_nil in Hx|].
  simpl. destruct (f y) as [e'|a] eqn:Hfy.
  - by rewrite (Hall y e' Hfy).
  - cbn [rbind]. apply elem_of_cons in Hx as [->|Hx].
    + rewrite Hfx in Hfy. done.
    + by rewrite IH.
Qed.

(** X19.  When some dataset has neither an instance number nor a slice
    location and its position has two components only, the call raises
    an [IndexError] and returns no series. *)
Theorem sort_raises_on_a_short_position {A} (attributes : A → SortAttributes)
    (dicom_files : list A) (ds : A) (x y : R) :
  ds ∈ dicom_files →
  InstanceNumber (attributes ds) = None →
  SliceLocation (attributes ds) = None →
  ImagePositionPatient (attributes ds) = Some (x, y, []) →
  sort_dicom_slices attributes dicom_files = Raise IndexError.
Proof.
  intros Hds Hnum Hloc Hpos. unfold sort_dicom_slices.
  rewrite (collect_Raise _ _ ds IndexError); [done|done|..].
  - unfold get_sort_key. by rewrite Hnum, Hloc, Hpos.
  - intros d e'. unfold get_sort_key, index.
    destruct (InstanceNumber (attributes d)); [done|].
    destruct (SliceLocation (attributes d)); [done|].
    destruct (ImagePositionPatient (attributes d)) as [[[a b] others]|];
      [|done].
    destruct ((a :: b :: others) !! 2); [done|]. by intros [= <-].
Qed.

Lemma sort_raises_on_a_short_position_witness :
  sort_dicom_slices (λ ds : SortAttributes, ds) (sample_attributes ++ [short_position])
  = Raise IndexError.
Proof.
  apply (sort_raises_on_a_short_position (λ ds : SortAttributes, ds)
           (sample_attributes ++ [short_position]) short_position 0%R 0%R).
  - apply elem_of_app. right. by left.
  - reflexivity.
  - reflexivity.
  - reflexivity.
Defined.

(** ** The command line *)

Section MainFacts.
Variable astype_float16 : R → float16.
Variable sha256_hexdigest : string → string.
Variable py_str : json → string.

Abbreviation main_run := (main astype_float16 sha256_hexdigest py_str).
Abbreviation driver := (convert_dicom_series astype_float16 sha256_hexdigest py_str).

(** The events of the conversion inside a run of [main]. *)
Lemma conversion_in_main (HAS_CUPY : bool) (args : Arguments)
    (input_exists input_is_dir : bool) (response : string)
    (sorted_files : list Dataset) (e : event) :
  Conversion e
    ∈ (main_run HAS_CUPY args input_exists input_is_dir response
         sorted_files).1 →
  (args_no_anonymize args = true →
   lower response = "yes" ∨ lower response = "y") ∧
  e ∈ (driver HAS_CUPY sorted_files (negb (args_no_smooth args))
         (args_iterations args) (args_chunk_size args)
         (negb (args_no_anonymize args))).1.
Proof.
  unfold main.
  destruct (negb _); [by intros [[=]|[]%elem_of_nil]%elem_of_cons|].
  destruct (_ || _); [by intros [[=]|[]%elem_of_nil]%elem_of_cons|].
  destruct (negb input_exists);
    [by intros [[=]|[]%elem_of_nil]%elem_of_cons|].
  destruct (negb input_is_dir);
    [by intros [[=]|[]%elem_of_nil]%elem_of_cons|].
  assert (Hwarning : Conversion e
            ∉ (if negb (negb (args_no_anonymize args))
               then [Line WillNotBeAnonymized] else [])).
  { destruct (negb (negb _)); [|apply not_elem_of_nil].
    by intros [[=]|[]%elem_of_nil]%elem_of_cons. }
  destruct (negb (negb (args_no_anonymize args))
            && negb (bool_decide (lower response ∈ ["yes"; "y"]))) eqn:Hgate.
  { cbn [fst]. intros [?|[[=]|[]%elem_of_nil]%elem_of_cons]%elem_of_app. done. }
  intros Hin. split.
  - intros Hno. rewrite Hno in Hgate. cbn in Hgate.
    apply negb_false_iff, bool_decide_eq_true in Hgate.
    apply elem_of_cons in Hgate as [?|Hgate]; [by left|].
    apply elem_of_cons in Hgate as [?|Hgate]; [by right|].
    by apply elem_of_nil in Hgate.
  - set (run := convert_dicom_series _ _ _ _ _ _ _ _ _) in *.
    assert (Conversion e ∈ Conversion <$> run.1) as Hrun.
    { destruct run.2 as [err|[]]; cbn [fst] in Hin.
      - apply elem_of_app in Hin as [?|Hin]; [done|].
        apply elem_of_cons in Hin as [[=]|Hin].
        apply elem_of_app in Hin as [?|Hin]; [done|].
        by apply elem_of_cons in Hin as [[=]|[]%elem_of_nil].
      - apply elem_of_app in Hin as [?|Hin]; [done|].
        by apply elem_of_cons in Hin as [[=]|Hin]. }
    apply list_elem_of_fmap in Hrun as (e' & [= <-] & He'). done.
Qed.

End MainFacts.

Section MainProperties.
Variable astype_float16 : R → float16.
Variable sha256_hexdigest : string → string.
Variable py_str : json → string.

Abbreviation main_of := (main astype_float16 sha256_hexdigest py_str).
Abbreviation driver_of :=
  (convert_dicom_series astype_float16 sha256_hexdigest py_str).

(** Every metadata dictionary that the driver writes records the flag
    [anonymize] it was called with. *)
Lemma metadata_records_anonymize (HAS_CUPY : bool)
    (sorted_files : list Dataset) (apply_smoothing : bool)
    (smoothing_iterations : Z) (chunk_size : Z) (anonymize : bool)
    (metadata : list (string * json)) :
  Forall (λ ds, rectangular (pixel_array ds)) sorted_files →
  WriteMetadata metadata
    ∈ (driver_of HAS_CUPY sorted_files apply_smoothing smoothing_iterations
         chunk_size anonymize).1 →
  dict_get "anonymized" metadata = Some (JBool anonymize).
Proof.
  intros Hrect Hin.
  destruct ((driver_of HAS_CUPY sorted_files apply_smoothing
               smoothing_iterations chunk_size anonymize).2)
    as [e|[]] eqn:Hrun.
  { destruct (convert_Raise_inv astype_float16 sha256_hexdigest py_str
                HAS_CUPY sorted_files apply_smoothing smoothing_iterations
                chunk_size anonymize e Hrect Hrun) as [[Heq _]|[Heq _]];
      rewrite Heq in Hin; cbn [fst] in Hin.
    - by apply elem_of_nil in Hin.
    - by apply elem_of_cons in Hin as [[=]|[]%elem_of_nil]. }
  destruct sorted_files as [|first rest].
  { unfold convert_dicom_series in Hin.
    destruct (validate_chunk_size chunk_size) as [e|[]];
      cbn in Hin; [by apply elem_of_nil in Hin|].
    apply elem_of_cons in Hin as [[=]|Hin].
    by apply elem_of_cons in Hin as [[=]|[]%elem_of_nil]. }
  apply Forall_cons in Hrect as [Hfirst _].
  destruct (conversion_completed astype_float16 sha256_hexdigest py_str
              HAS_CUPY first rest apply_smoothing smoothing_iterations
              chunk_size anonymize Hfirst Hrun)
    as (h & w & loaded & global_min & global_max & events & volume & grid
        & _ & _ & _ & _ & _ & _ & _ & _ & Hfiles & _ & _ & _ & _ & Heq).
  rewrite Heq in Hin. cbn [fst] in Hin.
  apply elem_of_cons in Hin as [[=]|Hin].
  apply elem_of_app in Hin as [Hin|Hin].
  { assert (WriteMetadata metadata ∈ files_written events) as Hw
      by (apply list_elem_of_filter; by split).
    rewrite Hfiles in Hw. by apply elem_of_nil in Hw. }
  apply elem_of_app in Hin as [Hin|Hin].
  { unfold slice_writes in Hin.
    by apply list_elem_of_fmap in Hin as (i & [=] & _). }
  apply elem_of_cons in Hin as [[=]|Hin].
  apply elem_of_cons in Hin as [[= ->]|Hin]; [by destruct anonymize|].
  apply elem_of_cons in Hin as [[=]|Hin].
  by apply elem_of_cons in Hin as [[=]|[]%elem_of_nil].
Qed.

(** A run of [main] that shows an event of the conversion has called it,
    and ends as the conversion does. *)
Lemma conversion_in_main_outcome (HAS_CUPY : bool) (args : Arguments)
    (input_exists input_is_dir : bool) (response : string)
    (sorted_files : list Dataset) (e : event) :
  Conversion e
    ∈ (main_of HAS_CUPY args input_exists input_is_dir response
         sorted_files).1 →
  (main_of HAS_CUPY args input_exists input_is_dir response sorted_files).2
  = match (driver_of HAS_CUPY sorted_files (negb (args_no_smooth args))
             (args_iterations args) (args_chunk_size args)
             (negb (args_no_anonymize args))).2 with
    | inl _ => Exited 1
    | inr _ => Returned
    end.
Proof.
  unfold main.
  destruct (negb _); [by intros [[=]|[]%elem_of_nil]%elem_of_cons|].
  destruct (_ || _); [by intros [[=]|[]%elem_of_nil]%elem_of_cons|].
  destruct (negb input_exists);
    [by intros [[=]|[]%elem_of_nil]%elem_of_cons|].
  destruct (negb input_is_dir);
    [by intros [[=]|[]%elem_of_nil]%elem_of_cons|].
  destruct (negb (negb (args_no_anonymize args))
            && negb (bool_decide (lower response ∈ ["yes"; "y"]))) eqn:Hgate.
  { cbn [fst]. intros [Hin|[[=]|[]%elem_of_nil]%elem_of_cons]%elem_of_app.
    destruct (negb (negb _)); [|by apply elem_of_nil in Hin].
    by apply elem_of_cons in Hin as [[=]|[]%elem_of_nil]. }
  intros _. by destruct (convert_dicom_series _ _ _ _ _ _ _ _ _).2.
Qed.

(** X20.  Consent.  When a run of [main] on rectangular slices writes a
    metadata file whose [anonymized] entry is [false], the command line
    had [--no-anonymize] and the answer to the prompt was [yes] or [y], in
    any case of letters. *)
Theorem unanonymised_output_needs_consent (HAS_CUPY : bool) (args : Arguments)
    (input_exists input_is_dir : bool) (response : string)
    (sorted_files : list Dataset) (metadata : list (string * json)) :
  Forall (λ ds, rectangular (pixel_array ds)) sorted_files →
  Conversion (WriteMetadata metadata)
    ∈ (main_of HAS_CUPY args input_exists input_is_dir response
         sorted_files).1 →
  dict_get "anonymized" metadata = Some (JBool false) →
  args_no_anonymize args = true ∧
  (lower response = "yes" ∨ lower response = "y").
Proof.
  intros Hrect Hin Hflag.
  apply conversion_in_main in Hin as [Hconsent Hin].
  apply metadata_records_anonymize in Hin; [|done].
  rewrite Hin in Hflag. injection Hflag as Hflag.
  apply negb_false_iff in Hflag. auto.
Qed.

(** X21.  [main] from the parsed arguments on: the exits of
    [parser.parse_args] (status 2 for a bad command line, 0 for [-h])
    come before, and the calls of the file system are taken to succeed.
    A run of [main] on rectangular slices that then ends in [sys.exit]
    has written no file: its status is 0 (the user declined) or 1, and
    the only thing the conversion can have done by then is to create the
    output directory. *)
Theorem main_exit_leaves_no_files (HAS_CUPY : bool) (args : Arguments)
    (input_exists input_is_dir : bool) (response : string)
    (sorted_files : list Dataset) (code : Z) :
  Forall (λ ds, rectangular (pixel_array ds)) sorted_files →
  (main_of HAS_CUPY args input_exists input_is_dir response sorted_files).2
  = Exited code →
  (code = 0 ∨ code = 1)%Z ∧
  ∀ e, Conversion e
         ∈ (main_of HAS_CUPY args input_exists input_is_dir response
              sorted_files).1 →
       e = Mkdir.
Proof.
  intros Hrect Hexit. split.
  - revert Hexit. unfold main.
    repeat (match goal with
            | |- context [if ?b then _ else _] => destruct b
            | |- context [match ?r with inl _ => _ | inr _ => _ end] =>
                destruct r
            end; cbn [snd]); intros [= <-] || done; auto.
  - intros e Hin.
    pose proof (conversion_in_main_outcome _ _ _ _ _ _ _ Hin) as Hout.
    apply conversion_in_main in Hin as [_ Hin].
    rewrite Hexit in Hout.
    destruct ((driver_of HAS_CUPY sorted_files (negb (args_no_smooth args))
                 (args_iterations args) (args_chunk_size args)
                 (negb (args_no_anonymize args))).2) as [err|[]] eqn:Hrun;
      [|done].
    destruct (convert_Raise_inv astype_float16 sha256_hexdigest py_str
                HAS_CUPY sorted_files _ _ _ _ err Hrect Hrun)
      as [[Heq _]|[Heq _]]; rewrite Heq in Hin; cbn [fst] in Hin.
    + by apply elem_of_nil in Hin.
    + by apply elem_of_cons in Hin as [->|[]%elem_of_nil].
Qed.

End MainProperties.

Lemma unanonymised_output_needs_consent_witness :
  args_no_anonymize sample_arguments = true ∧
  (lower "YES" = "yes" ∨ lower "YES" = "y").
Proof.
  apply (unanonymised_output_needs_consent example_astype_float16
           example_sha256_hexdigest example_py_str false sample_arguments
           true true "YES" [sample_dataset] sample_metadata).
  - repeat constructor.
  - apply (list_elem_of_lookup_2 _ 5). reflexivity.
  - reflexivity.
Defined.

Lemma main_exit_leaves_no_files_witness :
  (1 = 0 ∨ 1 = 1)%Z ∧
  ∀ e, Conversion e
         ∈ (main example_astype_float16 example_sha256_hexdigest
              example_py_str false sample_arguments true true "y"
              [sample_dataset; mismatched_dataset]).1 →
       e = Mkdir.
Proof.
  apply (main_exit_leaves_no_files example_astype_float16
           example_sha256_hexdigest example_py_str false sample_arguments
           true true "y" [sample_dataset; mismatched_dataset] 1).
  - repeat constructor.
  - reflexivity.
Defined.

(** ** The chunk file and the slice files *)

Section ChunkFileBounds.
Variable astype_float16 : R → float16.
Variable sha256_hexdigest : string → string.
Variable py_str : json → string.

(** X22.  The chunk file bounds what is in the slice files.  In a
    completed run on a non-empty series of rectangular slices, the chunk
    file is taken from the very volume that is quantised into the slice
    files (the smoothed one, when smoothing is applied): for every voxel
    [(z, y, x)] of that volume, the two values of the chunk file at the
    position of cell [(z // C, y // C, x // C)] are a lower and an upper
    bound of the voxel. *)
Theorem chunk_file_bounds_written_voxels (HAS_CUPY : bool) (first : Dataset)
    (rest : list Dataset) (apply_smoothing : bool) (smoothing_iterations : Z)
    (chunk_size : Z) (anonymize : bool) :
  rectangular (pixel_array first) →
  (convert_dicom_series astype_float16 sha256_hexdigest py_str HAS_CUPY
     (first :: rest) apply_smoothing smoothing_iterations chunk_size
     anonymize).2 = Ok () →
  ∃ h w volume chunks metadata,
    files_written
      (convert_dicom_series astype_float16 sha256_hexdigest py_str HAS_CUPY
         (first :: rest) apply_smoothing smoothing_iterations chunk_size
         anonymize).1
    = Mkdir :: slice_writes (map3 astype_float16 volume)
                 (seq 0 (S (length rest)))
        ++ [WriteChunkMinmax chunks; WriteMetadata metadata] ∧
    has_shape volume (S (length rest)) h w ∧
    ∀ z y x, z < S (length rest) → y < h → x < w →
      let C := Z.to_nat chunk_size in
      let cell_index :=
        (z / C * chunk_count h C + y / C) * chunk_count w C + x / C in
      ∃ lo hi,
        chunks !! (2 * cell_index) = Some lo ∧
        chunks !! (2 * cell_index + 1) = Some hi ∧
        (lo <= voxel volume z y x <= hi)%R.
Proof.
  intros Hrect Hrun.
  destruct (convert_Ok_inv astype_float16 sha256_hexdigest py_str HAS_CUPY
              first rest apply_smoothing smoothing_iterations chunk_size
              anonymize Hrun)
    as (h & w & loaded & global_min & global_max & Hvalid & Hshape & Hload).
  destruct (convert_after_load astype_float16 sha256_hexdigest py_str
              HAS_CUPY first rest apply_smoothing smoothing_iterations
              chunk_size anonymize h w loaded global_min global_max
              Hvalid Hrect Hshape Hload)
    as (events & volume & grid & _ & Hh & Hw & _ & Hsv & _ & _
        & Hfiles & Hgrid & Hnz & Hny & Hnx & Hcells & Heq).
  pose proof (validate_chunk_size_inv _ Hvalid) as (_ & Hlo & _).
  exists h, w, volume, (chunk_file grid),
    (metadata_of sha256_hexdigest py_str (first :: rest) global_min
       global_max anonymize chunk_size grid).
  rewrite Heq. cbn [fst].
  split; [apply files_written_completed;
          [done|apply files_written_slice_writes]|].
  split; [done|]. intros z y x Hz Hy Hx.
  set (C := Z.to_nat chunk_size) in *.
  set (cell_index :=
         (z / C * chunk_count h C + y / C) * chunk_count w C + x / C).
  assert (0 < C) as HC by (unfold C; lia).
  destruct (chunk_cell_extrema volume (S (length rest)) h w C)
    as (grid' & Hgrid' & _ & _ & _ & Hcell); [done|lia|done..|].
  assert (grid' = grid) as -> by (unfold Ok, C in *; congruence).
  destruct (Hcell (z / C) (y / C) (x / C))
    as (lo & hi & Hlohi & [_ Hmin] & [_ Hmax]);
    [by apply div_lt_chunk_count..|].
  exists lo, hi.
  destruct (lookup_chunk_file grid cell_index) as [-> ->].
  unfold cell_index. rewrite <- Hny, <- Hnx.
  rewrite (lookup_ravel (cells grid) _ _ _ (z / C) (y / C) (x / C) Hcells)
    by (rewrite ?Hny, ?Hnx; by apply div_lt_chunk_count).
  unfold cell in Hlohi. rewrite Hlohi. split; [done|]. split; [done|].
  pose proof (in_chunk_div C z y x HC) as Hin.
  specialize (Hmin z y x Hin). specialize (Hmax z y x Hin).
  unfold padded_voxel in *. unfold voxel. lra.
Qed.

End ChunkFileBounds.

Lemma chunk_file_bounds_written_voxels_witness :
  ∃ h w volume chunks metadata,
    files_written
      (convert_dicom_series example_astype_float16 example_sha256_hexdigest
         example_py_str false [sample_dataset] true 5 16 true).1
    = Mkdir :: slice_writes (map3 example_astype_float16 volume) (seq 0 1)
        ++ [WriteChunkMinmax chunks; WriteMetadata metadata] ∧
    has_shape volume 1 h w ∧
    ∀ z y x, z < 1 → y < h → x < w →
      let C := Z.to_nat 16 in
      let cell_index :=
        (z / C * chunk_count h C + y / C) * chunk_count w C + x / C in
      ∃ lo hi,
        chunks !! (2 * cell_index) = Some lo ∧
        chunks !! (2 * cell_index + 1) = Some hi ∧
        (lo <= voxel volume z y x <= hi)%R.
Proof.
  apply (chunk_file_bounds_written_voxels example_astype_float16
           example_sha256_hexdigest example_py_str false sample_dataset []
           true 5 16 true).
  - repeat constructor.
  - reflexivity.
Defined.

(** * Floating point *)

(** ** Floating-point casts *)

Lemma binary_round_bounded (prec emax : Z) (s : bool) (m : positive) (e : Z) :
  bounded prec emax m e = true →
  binary_round prec emax s m e = S754_finite s m e.
Proof.
  unfold bounded, canonical_mantissa. intros H.
  apply andb_prop in H as [Hc He]. apply Z.eqb_eq in Hc.
  unfold binary_round, shl_align. rewrite Hc, Z.sub_diag.
  unfold binary_round_aux, shr_fexp. cbn [Zdigits2].
  rewrite Hc, Z.sub_diag. cbn [shr shr_record_of_loc shr_m loc_of_shr_record
    round_nearest_even Zdigits2].
  rewrite Hc, Z.sub_diag. cbn [shr shr_record_of_loc shr_m].
  by rewrite He.
Qed.

Lemma astype_valid (prec emax : Z) (x : spec_float) :
  valid_binary prec emax x = true → IEEE.astype prec emax x = x.
Proof. destruct x; simpl; [reflexivity..|]. apply binary_round_bounded. Qed.

Lemma map3_as_float32_valid (volume : IEEE.Volume) :
  (∀ z y x a, get3 volume z y x = Some a → valid_binary 24 128 a = true) →
  map3 IEEE.as_float32 volume = volume.
Proof.
  unfold IEEE.Volume in *. intros Hv. unfold map3.
  apply list_eq. intros z. rewrite list_lookup_fmap.
  destruct (volume !! z) as [plane|] eqn:Hz; [|done]. cbn. f_equal.
  apply list_eq. intros y. rewrite list_lookup_fmap.
  destruct (plane !! y) as [row|] eqn:Hy; [|done]. cbn. f_equal.
  apply list_eq. intros x. rewrite list_lookup_fmap.
  destruct (row !! x) as [a|] eqn:Hx; [|done]. cbn. f_equal.
  apply astype_valid. apply (Hv z y x). unfold get3.
  by rewrite Hz; cbn; rewrite Hy.
Qed.

(** ** Float32 arithmetic on a constant field *)

Lemma one_value : IEEE.one = S754_finite false 8388608 (-23).
Proof. reflexivity. Qed.

Lemma abs_zero : SFabs IEEE.zero = IEEE.zero.
Proof. reflexivity. Qed.

Lemma add_zero_zero : IEEE.add IEEE.zero IEEE.zero = IEEE.zero.
Proof. reflexivity. Qed.

Lemma sub_self (c : spec_float) :
  IEEE.is_finite c = true → IEEE.sub c c = IEEE.zero.
Proof.
  destruct c as [[]|[]| |s m e]; try done. intros _.
  unfold IEEE.sub, SFsub, shl_align. rewrite Z.min_id, Z.sub_diag.
  reflexivity.
Qed.

Section ConstantFloatFields.
Variable cp_exp : spec_float → spec_float.
Variables (K lambda_param : spec_float) (diffusion_type : Z).
Variables (m : positive) (e : Z).
Hypothesis cp_exp_zero :
  diffusion_type = 1%Z → cp_exp (S754_zero true) = IEEE.one.
Hypothesis K_positive : IEEE.as_float32 K = S754_finite false m e.
Hypothesis lambda_finite : IEEE.is_finite (IEEE.as_float32 lambda_param) = true.

Lemma diffusion_coefficient_zero :
  IEEE.diffusion_coefficient cp_exp diffusion_type K IEEE.zero = IEEE.one.
Proof.
  unfold IEEE.diffusion_coefficient, IEEE.exponential_coefficient,
    IEEE.rational_coefficient.
  rewrite K_positive. destruct (Z.eqb_spec diffusion_type 1) as [Htype|_].
  - by apply cp_exp_zero.
  - rewrite one_value. vm_compute. reflexivity.
Qed.

Lemma flux_zero :
  IEEE.mul (IEEE.diffusion_coefficient cp_exp diffusion_type K IEEE.zero)
    IEEE.zero
  = IEEE.zero.
Proof. rewrite diffusion_coefficient_zero, one_value. reflexivity. Qed.

Lemma update_constant (c : spec_float) :
  IEEE.is_finite c = true → c ≠ S754_zero true →
  IEEE.add c (IEEE.mul (IEEE.as_float32 lambda_param) IEEE.zero) = c.
Proof.
  intros Hc Hneg.
  destruct (IEEE.as_float32 lambda_param) as [sl|?| |sl ml el]; try done.
  - destruct c as [[]|?| |s mc ec]; try done; by destruct sl.
  - destruct c as [[]|?| |s mc ec]; try done; by destruct sl.
Qed.

(** One update leaves a constant field of float32 values as it is. *)
Lemma float_diffusion_update_full (d h w : nat) (c : spec_float) :
  0 < d → 0 < h → 0 < w →
  IEEE.is_finite c = true → c ≠ S754_zero true →
  IEEE.diffusion_update cp_exp (full d h w c) K lambda_param diffusion_type
  = Ok (full d h w c).
Proof.
  intros Hd Hh Hw Hc Hneg. unfold IEEE.diffusion_update.
  rewrite pad_edge_full by done. unfold Ok at 1. cbn [rbind].
  destruct (neighbours_full d h w c) as (-> & -> & -> & -> & -> & ->).
  rewrite !zip3_full, !map3_full, !zip3_full, !map3_full, !zip3_full.
  rewrite sub_self, abs_zero, flux_zero, !add_zero_zero by done.
  by rewrite update_constant.
Qed.

Lemma float_perona_malik_gpu_result (volume : IEEE.Volume) (iterations : Z) :
  (IEEE.perona_malik_gpu cp_exp true volume iterations K lambda_param
     diffusion_type).2
  = match (mfor_each
             (IEEE.diffusion_iteration cp_exp K lambda_param diffusion_type
                iterations)
             (seq 0 (Z.to_nat iterations))
             (map3 IEEE.as_float32 volume,
              map3 (λ _, IEEE.zero) (map3 IEEE.as_float32 volume))).2 with
    | inl e => inl e
    | inr buffers => Ok buffers.1
    end.
Proof.
  unfold IEEE.perona_malik_gpu. cbn [negb]. rewrite !mbind_result.
  cbn [print emit snd]. by destruct (mfor_each _ _ _).2.
Qed.

Lemma float_diffusion_iteration_result (iterations : Z)
    (vol_gpu output_gpu : IEEE.Volume) (iteration : nat) :
  (IEEE.diffusion_iteration cp_exp K lambda_param diffusion_type iterations
     (vol_gpu, output_gpu) iteration).2
  = match IEEE.diffusion_update cp_exp vol_gpu K lambda_param
            diffusion_type with
    | inl e => inl e
    | inr updated => Ok (assign_block output_gpu updated, vol_gpu)
    end.
Proof.
  unfold IEEE.diffusion_iteration. rewrite mbind_result. cbn [lift snd].
  by destruct (IEEE.diffusion_update _ _ _ _ _).
Qed.

Lemma float_perona_malik_gpu_full (HAS_CUPY : bool) (d h w : nat)
    (c : spec_float) (iterations : Z) :
  0 < d → 0 < h → 0 < w →
  valid_binary 24 128 c = true → IEEE.is_finite c = true →
  c ≠ S754_zero true →
  (IEEE.perona_malik_gpu cp_exp HAS_CUPY (full d h w c) iterations K
     lambda_param diffusion_type).2
  = Ok (full d h w c).
Proof.
  intros Hd Hh Hw Hvalid Hc Hneg. destruct HAS_CUPY; [|done].
  rewrite float_perona_malik_gpu_result.
  rewrite !map3_full. unfold IEEE.as_float32. rewrite astype_valid by done.
  match goal with
  | |- match ?run.2 with _ => _ end = _ =>
      assert (∃ buffers, run.2 = Ok buffers ∧ buffers.1 = full d h w c)
        as (buffers & -> & Hfst)
  end; [|simpl; by rewrite Hfst].
  destruct (mfor_each_invariant
              (λ buffers : IEEE.Volume * IEEE.Volume,
                 buffers.1 = full d h w c ∧ has_shape buffers.2 d h w)
              (IEEE.diffusion_iteration cp_exp K lambda_param diffusion_type
                 iterations)
              (seq 0 (Z.to_nat iterations))
              (full d h w c, full d h w IEEE.zero))
    as (buffers & Hrun & Hfst & _).
  - intros [vol_gpu output_gpu] i [Hvol Hout]; simpl in Hvol, Hout.
    subst vol_gpu. rewrite float_diffusion_iteration_result.
    rewrite float_diffusion_update_full by done.
    eexists; split; [reflexivity|]. simpl. split.
    + eapply assign_block_same_shape; [exact Hout|apply has_shape_full].
    + apply has_shape_full.
  - simpl. split; [done|]. apply has_shape_full.
  - exists buffers. split; [exact Hrun|exact Hfst].
Qed.

End ConstantFloatFields.

(** With no pass the solver returns the float32 copy of its input. *)
Lemma float_perona_malik_gpu_zero (cp_exp : spec_float → spec_float)
    (volume : IEEE.Volume) (K lambda_param : spec_float) (diffusion_type : Z) :
  (IEEE.perona_malik_gpu cp_exp true volume 0 K lambda_param
     diffusion_type).2
  = Ok (map3 IEEE.as_float32 volume).
Proof. reflexivity. Qed.

Lemma constant_array_full {A} (v : list (list (list A))) (d h w : nat) (c : A) :
  has_shape v d h w →
  (∀ z y x, z < d → y < h → x < w → get3 v z y x = Some c) →
  v = full d h w c.
Proof.
  intros Hv Hc. apply (has_shape_ext _ _ d h w); [done|apply has_shape_full|].
  intros z y x Hz Hy Hx. by rewrite Hc, get3_full.
Qed.

(** ** Rounding to a narrower format *)

Lemma digits2_pos_bounds (p : positive) :
  (2 ^ (Zpos (digits2_pos p) - 1) ≤ Zpos p < 2 ^ Zpos (digits2_pos p))%Z.
Proof.
  induction p as [p IH|p IH|]; cbn [digits2_pos].
  - rewrite Pos2Z.inj_succ, Z.pow_succ_r by lia.
    replace (Z.succ (Zpos (digits2_pos p)) - 1)%Z
      with (Z.succ (Zpos (digits2_pos p) - 1)) by lia.
    rewrite Z.pow_succ_r by lia. lia.
  - rewrite Pos2Z.inj_succ, Z.pow_succ_r by lia.
    replace (Z.succ (Zpos (digits2_pos p)) - 1)%Z
      with (Z.succ (Zpos (digits2_pos p) - 1)) by lia.
    rewrite Z.pow_succ_r by lia. lia.
  - simpl. lia.
Qed.

Lemma digits2_pos_le (p : positive) (k : Z) :
  (0 ≤ k)%Z → (Zpos p < 2 ^ k)%Z → (Zpos (digits2_pos p) ≤ k)%Z.
Proof.
  intros Hk Hp. pose proof (digits2_pos_bounds p) as [Hlo _].
  destruct (Z.le_gt_cases (Zpos (digits2_pos p)) k) as [|Hgt]; [done|].
  assert (2 ^ k ≤ 2 ^ (Zpos (digits2_pos p) - 1))%Z
    by (apply Z.pow_le_mono_r; lia).
  lia.
Qed.

Lemma digits2_pos_ge (p : positive) (k : Z) :
  (2 ^ k ≤ Zpos p)%Z → (k < Zpos (digits2_pos p))%Z.
Proof.
  intros Hp. pose proof (digits2_pos_bounds p) as [_ Hhi].
  destruct (Z.lt_ge_cases k (Zpos (digits2_pos p))) as [|Hge]; [done|].
  assert (2 ^ Zpos (digits2_pos p) ≤ 2 ^ k)%Z
    by (apply Z.pow_le_mono_r; lia).
  lia.
Qed.

Lemma shr_1_shifted (m0 k : Z) (mrs : shr_record) :
  (0 ≤ k)%Z → shifted m0 k mrs → shifted m0 (k + 1) (shr_1 mrs).
Proof.
  intros Hk (Hm & t & Ht & Heq & Hs).
  destruct mrs as [m r s]; cbn [shr_m shr_r shr_s] in *.
  assert (0 < 2 ^ k)%Z as HP by (apply Z.pow_pos_nonneg; lia).
  replace (k + 1)%Z with (Z.succ k) by lia.
  unfold shifted. rewrite Z.pow_succ_r by lia.
  set (P := (2 ^ k)%Z) in *.
  assert (r || s = true ↔ 0 < (if r then P else 0) + t)%Z as Hrs.
  { destruct r; cbn [orb]; [split; [lia|done]|]. rewrite Hs. lia. }
  destruct m as [|[p|p|]|p]; cbn [shr_1 shr_m shr_r shr_s]; try lia.
  - split; [lia|]. exists ((if r then P else 0) + t)%Z.
    split_and!; [destruct r; lia..|done].
  - split; [lia|]. exists ((if r then P else 0) + t)%Z.
    split_and!; [destruct r; lia..|done].
  - split; [lia|]. exists ((if r then P else 0) + t)%Z.
    split_and!; [destruct r; lia..|done].
  - split; [lia|]. exists ((if r then P else 0) + t)%Z.
    split_and!; [destruct r; lia..|done].
Qed.

Lemma iter_pos_shr_1_shifted (p : positive) :
  ∀ (m0 k : Z) (mrs : shr_record),
    (0 ≤ k)%Z → shifted m0 k mrs →
    shifted m0 (k + Zpos p) (SpecFloat.iter_pos shr_1 p mrs).
Proof.
  induction p as [p IH|p IH|]; intros m0 k mrs Hk Hm; cbn [SpecFloat.iter_pos].
  - replace (k + Zpos p~1)%Z with (k + 1 + Zpos p + Zpos p)%Z by lia.
    apply IH; [lia|]. apply IH; [lia|]. by apply shr_1_shifted.
  - replace (k + Zpos p~0)%Z with (k + Zpos p + Zpos p)%Z by lia.
    apply IH; [lia|]. by apply IH.
  - by apply shr_1_shifted.
Qed.

Lemma shifted_0 (m0 : Z) :
  (0 ≤ m0)%Z → shifted m0 0 (Build_shr_record m0 false false).
Proof.
  intros Hm. split; [done|]. exists 0%Z. cbn [shr_m shr_r shr_s].
  split_and!; [lia|lia|lia|]. split; [done|lia].
Qed.

(** Rounding a shifted mantissa to nearest, ties to even: the result is
    within half of [2 ^ k] of [m0], it goes up only from at least one half
    and down only from at most one half, and a tie gives an even
    mantissa. *)
Lemma round_nearest_even_shifted (m0 k : Z) (mrs : shr_record) :
  (0 ≤ k)%Z → shifted m0 k mrs →
  let m := shr_m mrs in
  let m' := round_nearest_even m (loc_of_shr_record mrs) in
  (m ≤ m' ≤ m + 1)%Z ∧
  (m * 2 ^ k ≤ m0 < (m + 1) * 2 ^ k)%Z ∧
  (- 2 ^ k ≤ 2 * (m' * 2 ^ k) - 2 * m0 ≤ 2 ^ k)%Z ∧
  (m' = m + 1 → 2 ^ k ≤ 2 * m0 - 2 * (m * 2 ^ k))%Z ∧
  (m' = m → 2 * m0 - 2 * (m * 2 ^ k) ≤ 2 ^ k)%Z ∧
  ((2 * m0 - 2 * (m * 2 ^ k) = 2 ^ k)%Z → Z.even m' = true).
Proof.
  intros Hk (Hm & t & Ht & Heq & Hs).
  destruct mrs as [m r s]; cbn [shr_m shr_r shr_s] in *.
  assert (0 < 2 ^ k)%Z as HP by (apply Z.pow_pos_nonneg; lia).
  set (P := (2 ^ k)%Z) in *. cbn zeta.
  destruct r, s; cbn [loc_of_shr_record round_nearest_even].
  - assert (0 < t)%Z by by apply Hs. split_and!; try lia.
  - assert (¬ 0 < t)%Z by (rewrite <- Hs; done).
    destruct (Z.even m) eqn:Heven.
    + split_and!; try lia. done.
    + split_and!; try lia. intros _.
      rewrite Z.even_add, Heven. done.
  - assert (0 < t)%Z by by apply Hs. split_and!; try lia.
  - assert (¬ 0 < t)%Z by (rewrite <- Hs; done). split_and!; try lia.
Qed.

Lemma float32_bounded (m : positive) (e : Z) :
  bounded 24 128 m e = true →
  (Zpos (digits2_pos m) ≤ 24 ∧ -149 ≤ e ≤ 104 ∧
   (e = -149 ∨ Zpos (digits2_pos m) = 24))%Z.
Proof.
  unfold bounded, canonical_mantissa, fexp, emin. intros H.
  apply andb_prop in H as [Hc He].
  apply Z.eqb_eq in Hc. apply Z.leb_le in He. lia.
Qed.

Lemma shr_nonpos (mrs : shr_record) (e n : Z) :
  (n ≤ 0)%Z → shr mrs e n = (mrs, e).
Proof. destruct n; [done|lia|done]. Qed.

(** The second alignment of [binary_round_aux] in float16: a mantissa
    that rounding has carried to 2048 becomes 1024 with the exponent one
    up; any other mantissa stays. *)
Lemma float16_renormalise (s : bool) (m' e' : Z) :
  (-24 ≤ e')%Z → (0 ≤ m' ≤ 2048)%Z →
  (let '(mrs, e'') := shr_fexp 11 16 m' e' loc_Exact in
   match shr_m mrs with
   | Z0 => S754_zero s
   | Zpos m =>
       if (e'' <=? 16 - 11)%Z then S754_finite s m e'' else S754_infinity s
   | Zneg _ => S754_nan
   end)
  = if (m' =? 0)%Z then S754_zero s
    else if (m' =? 2048)%Z then
      if (e' + 1 <=? 5)%Z then S754_finite s 1024 (e' + 1)
      else S754_infinity s
    else
      if (e' <=? 5)%Z then S754_finite s (Z.to_pos m') e'
      else S754_infinity s.
Proof.
  intros He Hm. unfold shr_fexp. destruct m' as [|q|q]; [| |lia].
  - cbn [Zdigits2]. rewrite shr_nonpos by (unfold fexp, emin; lia). done.
  - cbn [Zdigits2]. destruct (Z.eqb_spec (Zpos q) 2048) as [Hq|Hq].
    + injection Hq as ->.
      replace (fexp 11 16 (Zpos (digits2_pos 2048) + e') - e')%Z with 1%Z
        by (unfold fexp, emin; cbn [digits2_pos Pos.succ]; lia).
      cbn. done.
    + assert (Zpos (digits2_pos q) ≤ 11)%Z
        by (apply digits2_pos_le; [lia|]; change (2 ^ 11)%Z with 2048%Z; lia).
      rewrite shr_nonpos by (unfold fexp, emin; lia). done.
Qed.

(** The cast of a finite float32 value to float16, in terms of the
    mantissa [m'] that rounding produces at the exponent [e'] of the
    float16 grid around the value. *)
Lemma as_float16_finite (s : bool) (m0 : positive) (e : Z) :
  bounded 24 128 m0 e = true →
  let e' := fexp 11 16 (Zpos (digits2_pos m0) + e) in
  ∃ mrs : shr_record,
    (0 < e' - e)%Z ∧ (-24 ≤ e')%Z ∧
    shifted (Zpos m0) (e' - e) mrs ∧
    let m' := round_nearest_even (shr_m mrs) (loc_of_shr_record mrs) in
    (0 ≤ m' ≤ 2048)%Z ∧ ((-24 < e')%Z → (1024 ≤ m')%Z) ∧
    binary_round 11 16 s m0 e
    = if (m' =? 0)%Z then S754_zero s
      else if (m' =? 2048)%Z then
        if (e' + 1 <=? 5)%Z then S754_finite s 1024 (e' + 1)
        else S754_infinity s
      else
        if (e' <=? 5)%Z then S754_finite s (Z.to_pos m') e'
        else S754_infinity s.
Proof.
  intros Hb e'. destruct (float32_bounded m0 e Hb) as (Hd & He & Hn).
  pose proof (digits2_pos_bounds m0) as Hdigits.
  assert (0 < e' - e)%Z as Hshift by (unfold e', fexp, emin; lia).
  assert (-24 ≤ e')%Z as Hmin by (unfold e', fexp, emin; lia).
  destruct (e' - e)%Z as [|p|p] eqn:Hp; [lia| |lia].
  pose proof (iter_pos_shr_1_shifted p (Zpos m0) 0
                (Build_shr_record (Zpos m0) false false) ltac:(lia)
                (shifted_0 (Zpos m0) ltac:(lia))) as Hmrs.
  rewrite Z.add_0_l in Hmrs.
  set (mrs := SpecFloat.iter_pos shr_1 p
                (Build_shr_record (Zpos m0) false false)) in Hmrs.
  exists mrs. split; [lia|]. split; [done|]. split; [done|].
  pose proof (round_nearest_even_shifted (Zpos m0) (Zpos p) mrs ltac:(lia) Hmrs)
    as (Hr1 & Hr2 & _).
  destruct Hmrs as [Hm0 _].
  assert (0 < 2 ^ Zpos p)%Z as HP by (apply Z.pow_pos_nonneg; lia).
  cbn zeta.
  assert (shr_m mrs < 2048)%Z as Hlt.
  { assert (Zpos m0 < 2048 * 2 ^ Zpos p)%Z; [|nia].
    change 2048%Z with (2 ^ 11)%Z. rewrite <- Z.pow_add_r by lia.
    eapply Z.lt_le_trans; [apply Hdigits|].
    apply Z.pow_le_mono_r; [lia|]. unfold e', fexp, emin in Hp. lia. }
  split; [lia|]. split.
  { intros Hnormal.
    assert (1024 * 2 ^ Zpos p ≤ Zpos m0)%Z; [|nia].
    change 1024%Z with (2 ^ 10)%Z. rewrite <- Z.pow_add_r by lia.
    eapply Z.le_trans; [|apply Hdigits].
    apply Z.pow_le_mono_r; [lia|]. unfold e', fexp, emin in Hp, Hnormal. lia. }
  unfold binary_round, shl_align. fold e'. rewrite Hp.
  unfold binary_round_aux. unfold shr_fexp at 1. cbn [Zdigits2]. fold e'.
  rewrite Hp. cbn [shr shr_record_of_loc]. fold mrs.
  replace (e + Zpos p)%Z with e' by lia.
  apply float16_renormalise; [done|lia].
Qed.

(** ** Floating-point values as real numbers *)

Lemma powerRZ_2_IZR (k : Z) : (0 ≤ k)%Z → powerRZ 2 k = IZR (2 ^ k).
Proof.
  destruct k as [|p|p]; [done| |lia]. intros _.
  symmetry. apply (Zpower_pos_powerRZ 2 p).
Qed.

Lemma powerRZ_2_pos (k : Z) : (0 < powerRZ 2 k)%R.
Proof. apply powerRZ_lt. lra. Qed.

Lemma powerRZ_2_split (e k : Z) :
  (0 ≤ k)%Z → powerRZ 2 (e + k) = (powerRZ 2 e * IZR (2 ^ k))%R.
Proof.
  intros Hk. rewrite powerRZ_add by (intros H; lra). by rewrite (powerRZ_2_IZR k).
Qed.

Lemma Rabs_float_value (s : bool) (m : positive) (e : Z) :
  Rabs (float_value (S754_finite s m e)) = (IZR (Zpos m) * powerRZ 2 e)%R.
Proof.
  pose proof (powerRZ_2_pos e) as He.
  assert (0 < IZR (Zpos m))%R as Hm by (apply IZR_lt; lia).
  unfold float_value. destruct s; cbn [cond_Zopp].
  - change (Z.opp (Zpos m)) with (- Zpos m)%Z. rewrite opp_IZR.
    rewrite Rabs_left by nra. lra.
  - rewrite Rabs_right by nra. done.
Qed.

(** The float32 values of magnitude at least 65520. *)
Lemma float32_threshold (m : positive) (e : Z) :
  bounded 24 128 m e = true →
  (65520 <= IZR (Zpos m) * powerRZ 2 e)%R ↔
  (-8 < e ∨ (e = -8 ∧ 16773120 ≤ Zpos m))%Z.
Proof.
  intros Hb. destruct (float32_bounded m e Hb) as (Hd & He & Hn).
  pose proof (digits2_pos_bounds m) as [Hlo Hhi].
  assert (Zpos m < 16777216)%Z as Hm24.
  { eapply Z.lt_le_trans; [exact Hhi|].
    change 16777216%Z with (2 ^ 24)%Z. apply Z.pow_le_mono_r; lia. }
  apply IZR_lt in Hm24.
  assert (0 < IZR (Zpos m))%R as Hm by (apply IZR_lt; lia).
  destruct (Z.lt_trichotomy e (-8)) as [Hlt|[->|Hgt]].
  - split; [|lia]. intros Hge. exfalso.
    assert (powerRZ 2 e * IZR (2 ^ (-9 - e)) = powerRZ 2 (-9))%R as Hsplit
      by (rewrite <- powerRZ_2_split by lia; f_equal; lia).
    assert (1 <= IZR (2 ^ (-9 - e)))%R as Hq
      by (apply IZR_le; pose proof (Z.pow_pos_nonneg 2 (-9 - e)); lia).
    pose proof (powerRZ_2_pos e) as Hpos.
    assert (powerRZ 2 (-9) = / 512)%R as H9 by (simpl; lra).
    rewrite H9 in Hsplit. nra.
  - assert (powerRZ 2 (-8) = / 256)%R as -> by (simpl; lra). split.
    + intros Hge. right. split; [done|].
      apply le_IZR. lra.
    + intros [|[_ Hge]]; [lia|]. apply IZR_le in Hge. lra.
  - split; [lia|]. intros _.
    assert (Zpos (digits2_pos m) = 24)%Z as Hd24 by lia.
    rewrite Hd24 in Hlo. change (2 ^ (24 - 1))%Z with 8388608%Z in Hlo.
    apply IZR_le in Hlo.
    replace e with (-7 + (e + 7))%Z by lia.
    rewrite powerRZ_2_split by lia.
    assert (1 <= IZR (2 ^ (e + 7)))%R as Hq
      by (apply IZR_le; pose proof (Z.pow_pos_nonneg 2 (e + 7)); lia).
    assert (powerRZ 2 (-7) = / 128)%R as -> by (simpl; lra).
    nra.
Qed.

Lemma Rabs_signed_difference (s : bool) (a b : Z) (X Y : R) :
  Rabs (IZR (cond_Zopp s a) * X - IZR (cond_Zopp s b) * Y)
  = Rabs (IZR a * X - IZR b * Y).
Proof.
  destruct s; cbn [cond_Zopp]; [|done].
  rewrite !opp_IZR.
  replace (- IZR a * X - - IZR b * Y)%R with (- (IZR a * X - IZR b * Y))%R
    by ring.
  apply Rabs_Ropp.
Qed.

(** The value of a mantissa [m'] at the exponent [e + k] lies within the
    rounding error of the value of [m0] at the exponent [e]. *)
Lemma rounding_error (s : bool) (m0 m' e k : Z) :
  (0 ≤ k)%Z →
  (- 2 ^ k ≤ 2 * (m' * 2 ^ k) - 2 * m0 ≤ 2 ^ k)%Z →
  (Rabs (IZR (cond_Zopp s m') * powerRZ 2 (e + k)
         - IZR (cond_Zopp s m0) * powerRZ 2 e)
   <= powerRZ 2 (e + k) / 2)%R.
Proof.
  intros Hk [Hlo Hhi]. rewrite Rabs_signed_difference.
  rewrite powerRZ_2_split by done.
  pose proof (powerRZ_2_pos e) as He.
  apply IZR_le in Hlo, Hhi.
  rewrite minus_IZR, !mult_IZR in Hlo, Hhi. rewrite opp_IZR in Hlo.
  set (P := IZR (2 ^ k)) in *. set (E := powerRZ 2 e) in *.
  set (D := (IZR m' * P - IZR m0)%R).
  replace (IZR m' * (E * P) - IZR m0 * E)%R with (E * D)%R
    by (unfold D; ring).
  assert (- P <= 2 * D <= P)%R as [HD1 HD2] by (unfold D; lra).
  apply Rabs_le. split; nra.
Qed.

(** C9.  The cast of a float32 voxel to float16 always gives a float16
    value and never fails.  A finite voxel of magnitude 65520 or more
    becomes the infinity of its sign; a finite voxel of smaller
    magnitude becomes a finite value or a zero at a distance of at most
    half a unit in the last place; zeros, infinities and NaN are kept. *)
Theorem quantizer_rounds_to_nearest (x : spec_float) :
  valid_binary 24 128 x = true →
  valid_binary 11 16 (IEEE.as_float16 x) = true ∧
  match x with
  | S754_finite s m e =>
      ((65520 <= Rabs (float_value x))%R →
       IEEE.as_float16 x = S754_infinity s) ∧
      ((Rabs (float_value x) < 65520)%R →
       IEEE.is_finite (IEEE.as_float16 x) = true ∧
       (Rabs (float_value (IEEE.as_float16 x) - float_value x)
        <= ulp_float16 x / 2)%R)
  | _ => IEEE.as_float16 x = x
  end.
Proof.
  destruct x as [s|s| |s m e]; [done..|]. cbn [valid_binary]. intros Hb.
  rewrite Rabs_float_value.
  pose proof (float32_threshold m e Hb) as Hthreshold.
  destruct (float32_bounded m e Hb) as (Hd & He & Hn).
  pose proof (digits2_pos_bounds m) as [_ Hhi].
  assert (Zpos m < 16777216)%Z as Hm24.
  { eapply Z.lt_le_trans; [exact Hhi|].
    change 16777216%Z with (2 ^ 24)%Z. apply Z.pow_le_mono_r; lia. }
  destruct (as_float16_finite s m e Hb)
    as (mrs & Hshift & Hmin & Hmrs & Hm' & Hnormal & Heq).
  cbn zeta in Hm', Hnormal, Heq.
  pose proof (round_nearest_even_shifted (Zpos m)
                (fexp 11 16 (Zpos (digits2_pos m) + e) - e) mrs ltac:(lia)
                Hmrs)
    as (Hr1 & Hr2 & Hr3 & Hr4 & Hr5 & Hr6).
  cbn zeta in Hr1, Hr2, Hr3, Hr4, Hr5, Hr6.
  unfold IEEE.as_float16, IEEE.astype, ulp_float16, float_value at 2.
  rewrite Heq.
  set (e' := fexp 11 16 (Zpos (digits2_pos m) + e)) in *.
  set (m' := round_nearest_even (shr_m mrs) (loc_of_shr_record mrs)) in *.
  set (M := shr_m mrs) in *.
  assert (e' = Z.max (Zpos (digits2_pos m) + e - 11) (-24)) as He'
    by reflexivity.
  assert (Hcut : e = (-8)%Z → (2 ^ (e' - e) = 8192)%Z).
  { intros ->. replace (e' - -8)%Z with 13%Z by lia. reflexivity. }
  (* The value of the result in its finite cases. *)
  assert (Hvalue : ∀ X : R,
    (Rabs (X - IZR (cond_Zopp s (Zpos m)) * powerRZ 2 e) <= powerRZ 2 e' / 2)%R
    ↔ (Rabs (X - IZR (cond_Zopp s (Zpos m)) * powerRZ 2 e)
       <= powerRZ 2 (e + (e' - e)) / 2)%R).
  { intros X. by replace (e + (e' - e))%Z with e' by lia. }
  pose proof (rounding_error s (Zpos m) m' e (e' - e) ltac:(lia) Hr3) as Herr.
  replace (e + (e' - e))%Z with e' in Herr by lia. clear Hvalue.
  destruct (Z.eqb_spec m' 0) as [Hz|Hz];
    [|destruct (Z.eqb_spec m' 2048) as [Htop|Htop]].
  - (* the result is a zero *)
    split; [done|]. split.
    + intros Hge. apply Hthreshold in Hge. lia.
    + intros _. split; [done|].
      rewrite Hz in Herr. cbn [float_value].
      replace (IZR (cond_Zopp s 0)) with 0%R in Herr by by destruct s.
      by rewrite Rmult_0_l in Herr.
  - (* the mantissa was carried to 2048 *)
    destruct (Z.leb_spec (e' + 1) 5) as [Hfin|Hinf].
    + split.
      { cbn [valid_binary]. unfold bounded, canonical_mantissa, fexp, emin.
        apply andb_true_intro. split; [apply Z.eqb_eq|apply Z.leb_le].
        - change (Zpos (digits2_pos 1024)) with 11%Z. lia.
        - lia. }
      split.
      * intros Hge. apply Hthreshold in Hge. lia.
      * intros _. split; [done|]. cbn [float_value].
        rewrite Htop in Herr.
        replace (IZR (cond_Zopp s 1024) * powerRZ 2 (e' + 1))%R
          with (IZR (cond_Zopp s 2048) * powerRZ 2 e')%R; [done|].
        rewrite (powerRZ_2_split e' 1) by lia.
        destruct s; cbn [cond_Zopp]; change (2 ^ 1)%Z with 2%Z;
          rewrite ?opp_IZR; lra.
    + split; [done|]. split; [done|].
      intros Hlt. exfalso. apply Rlt_not_le in Hlt. apply Hlt.
      apply Hthreshold.
      destruct (Z.eq_dec e (-8)%Z) as [He8|He8]; [|lia].
      right. split; [done|]. specialize (Hcut He8).
      rewrite Hcut in *. lia.
  - (* any other mantissa is kept *)
    assert (0 < m' < 2048)%Z as Hrange by lia.
    destruct (Z.leb_spec e' 5) as [Hfin|Hinf].
    + assert (Zpos (Z.to_pos m') = m') as Hpos by (apply Z2Pos.id; lia).
      split.
      { cbn [valid_binary]. unfold bounded, canonical_mantissa, fexp, emin.
        apply andb_true_intro. split; [apply Z.eqb_eq|apply Z.leb_le; lia].
        assert (Zpos (digits2_pos (Z.to_pos m')) ≤ 11)%Z
          by (apply digits2_pos_le; [lia|];
              change (2 ^ 11)%Z with 2048%Z; lia).
        destruct (Z.eq_dec e' (-24)%Z) as [|Hne]; [lia|].
        assert (10 < Zpos (digits2_pos (Z.to_pos m')))%Z
          by (apply digits2_pos_ge; change (2 ^ 10)%Z with 1024%Z; lia).
        lia. }
      split.
      * intros Hge. exfalso. apply Hthreshold in Hge.
        destruct Hge as [|[He8 Hge]]; [lia|].
        specialize (Hcut He8). rewrite Hcut in *.
        assert (M = 2047)%Z as HM by lia.
        assert (m' = M) as Hdown by lia.
        assert (Zpos m = 16773120)%Z as Htie by lia.
        assert (Z.even m' = true) as Heven by (apply Hr6; lia).
        rewrite Hdown, HM in Heven. done.
      * intros _. split; [done|]. cbn [float_value]. by rewrite Hpos.
    + split; [done|]. split; [done|].
      intros Hlt. exfalso. apply Rlt_not_le in Hlt. apply Hlt.
      apply Hthreshold. lia.
Qed.

(** The voxel 2049 lies between the float16 values 2048 and 2050 and is
    rounded to 2048, one half of a unit in the last place away. *)
Lemma quantizer_rounds_to_nearest_witness :
  let x := IEEE.float32 2049 0 in
  valid_binary 24 128 x = true ∧
  (Rabs (float_value x) < 65520)%R ∧
  IEEE.as_float16 x = S754_finite false 1024 1 ∧
  (Rabs (float_value (IEEE.as_float16 x) - float_value x)
   <= ulp_float16 x / 2)%R.
Proof.
  intros x.
  assert (Hlt : (Rabs (float_value x) < 65520)%R).
  { unfold x. vm_compute IEEE.float32. rewrite Rabs_float_value.
    simpl. lra. }
  split; [reflexivity|]. split; [exact Hlt|]. split; [reflexivity|].
  exact (proj2 (proj2 (proj2 (quantizer_rounds_to_nearest x eq_refl)) Hlt)).
Defined.

(** C9, as stated, fails.  The float32 value 65519 exceeds the largest
    finite float16 value, 65504, and is cast to it, not to infinity;
    65520 is the first value that becomes infinite. *)
Lemma quantizer_keeps_65519_finite :
  let largest := SFmax_float 11 16 in
  valid_binary 24 128 (IEEE.float32 65519 0) = true ∧
  IEEE.as_float32 largest = IEEE.float32 65504 0 ∧
  SFltb (IEEE.float32 65504 0) (IEEE.float32 65519 0) = true ∧
  IEEE.as_float16 (IEEE.float32 65519 0) = largest ∧
  IEEE.as_float16 (IEEE.float32 65520 0) = S754_infinity false.
Proof. vm_compute. done. Qed.

(** C2, as stated, fails.  The cell of the float64 volume with the single
    voxel 0.7 holds the float32 value nearest to 0.7 as its maximum,
    which is smaller than the voxel. *)
Lemma chunk_maximum_is_rounded :
  let stored := IEEE.float32 11744051 (-24) in
  valid_binary 53 1024 py_0_7 = true ∧
  IEEE.compute_chunk_minmax [[[py_0_7]]] 16
  = Ok (IEEE.mkChunkGrid 1 1 1 [[[(IEEE.zero, stored)]]]) ∧
  SFltb (IEEE.as_float64 stored) py_0_7 = true.
Proof. vm_compute. done. Qed.

(** ** The solver and its coefficients in floating point *)

Lemma example_exp_zero : example_exp (S754_zero true) = IEEE.one.
Proof. reflexivity. Qed.

Lemma float_chunk_grid_of_the_scenario :
  IEEE.compute_chunk_minmax (full 32 32 32 float32_100) 32
  = Ok (IEEE.mkChunkGrid 1 1 1 [[[(float32_100, float32_100)]]]).
Proof. vm_compute. reflexivity. Qed.

(** C5.  A float32 volume with at least one voxel, all of whose voxels
    equal the same finite constant other than negative zero, is a fixed
    point of the solver for every iteration count, every [K > 0] and
    every time step whose float32 values are finite ([K] not rounding to
    zero) and either coefficient variant ([exp] being 1 at zero), with or
    without CuPy.  In the end-to-end scenario the 32 x 32 x 32 volume of
    100.0 is returned unchanged and its grid for chunks of edge 32 is the
    single cell (100.0, 100.0). *)
Theorem uniform_field_fixed_point :
  (∀ (cp_exp : spec_float → spec_float) (HAS_CUPY : bool)
     (volume : IEEE.Volume) (d h w : nat) (c : spec_float)
     (iterations : Z) (K lambda_param : spec_float) (diffusion_type : Z)
     (m : positive) (e : Z),
     has_shape volume d h w → 0 < d → 0 < h → 0 < w →
     (∀ z y x, z < d → y < h → x < w → get3 volume z y x = Some c) →
     valid_binary 24 128 c = true → IEEE.is_finite c = true →
     c ≠ S754_zero true →
     IEEE.as_float32 K = S754_finite false m e →
     IEEE.is_finite (IEEE.as_float32 lambda_param) = true →
     (diffusion_type = 1%Z → cp_exp (S754_zero true) = IEEE.one) →
     (IEEE.perona_malik_gpu cp_exp HAS_CUPY volume iterations K lambda_param
        diffusion_type).2
     = Ok volume) ∧
  (∀ (cp_exp : spec_float → spec_float) (HAS_CUPY : bool),
     (IEEE.perona_malik_gpu cp_exp HAS_CUPY (full 32 32 32 float32_100) 3
        py_50 py_0_1 2).2
     = Ok (full 32 32 32 float32_100)) ∧
  (∃ grid,
     IEEE.compute_chunk_minmax (full 32 32 32 float32_100) 32 = Ok grid ∧
     (IEEE.num_chunks_z grid, IEEE.num_chunks_y grid, IEEE.num_chunks_x grid)
     = (1, 1, 1) ∧
     IEEE.total_chunks grid = 1 ∧
     IEEE.cell grid 0 0 0 = Some (float32_100, float32_100)).
Proof.
  split_and!.
  - intros cp_exp HAS_CUPY volume d h w c iterations K lambda_param
      diffusion_type m e Hv Hd Hh Hw Hc Hvalid Hfinite Hneg HK Hlambda Hexp.
    rewrite (constant_array_full volume d h w c) by done.
    by apply (float_perona_malik_gpu_full cp_exp K lambda_param
                diffusion_type m e).
  - intros cp_exp HAS_CUPY.
    by apply (float_perona_malik_gpu_full cp_exp py_50 py_0_1 2 13107200%positive (-18)%Z);
      try lia.
  - eexists. split; [apply float_chunk_grid_of_the_scenario|]. done.
Qed.

(** Five iterations of the exponential variant on a 1 x 2 x 2 volume of
    sevens. *)
Lemma uniform_field_fixed_point_witness :
  let volume : IEEE.Volume :=
    [[[IEEE.float32 7 0; IEEE.float32 7 0];
      [IEEE.float32 7 0; IEEE.float32 7 0]]] in
  has_shape volume 1 2 2 ∧ 0 < 1 ∧ 0 < 2 ∧
  (∀ z y x, z < 1 → y < 2 → x < 2 → get3 volume z y x = Some (IEEE.float32 7 0)) ∧
  valid_binary 24 128 (IEEE.float32 7 0) = true ∧
  IEEE.is_finite (IEEE.float32 7 0) = true ∧
  IEEE.float32 7 0 ≠ S754_zero true ∧
  IEEE.as_float32 py_50 = S754_finite false 13107200%positive (-18)%Z ∧
  IEEE.is_finite (IEEE.as_float32 py_0_1) = true ∧
  example_exp (S754_zero true) = IEEE.one ∧
  (IEEE.perona_malik_gpu example_exp true volume 5 py_50 py_0_1 1).2
  = Ok volume.
Proof.
  intros volume.
  assert (Hshape : has_shape volume 1 2 2)
    by (split; [reflexivity|repeat constructor]).
  assert (Hconst : ∀ z y x, z < 1 → y < 2 → x < 2 →
                     get3 volume z y x = Some (IEEE.float32 7 0)).
  { intros z y x Hz Hy Hx.
    destruct z as [|z]; [|lia]. destruct y as [|[|y]]; [| |lia];
      (destruct x as [|[|x]]; [reflexivity|reflexivity|lia]). }
  split; [exact Hshape|]. split; [lia|]. split; [lia|].
  split; [exact Hconst|]. split; [reflexivity|]. split; [reflexivity|].
  split; [discriminate|]. split; [reflexivity|]. split; [reflexivity|].
  split; [reflexivity|].
  apply (proj1 uniform_field_fixed_point example_exp true volume 1 2 2
           (IEEE.float32 7 0) 5%Z py_50 py_0_1 1%Z 13107200%positive (-18)%Z);
    [exact Hshape|lia|lia|lia|exact Hconst|reflexivity|reflexivity
    |discriminate|reflexivity|reflexivity|intros _; reflexivity].
Defined.

(** C5, as stated, fails.  A float64 volume of 0.1 is not a fixed point:
    the solver returns the float32 value nearest to 0.1, which is not 0.1
    (it is larger).  Nor is a float32 volume of infinities, which comes
    back as NaN; and a volume of negative zeros comes back as positive
    zeros. *)
Lemma uniform_float64_field_is_rounded :
  let volume : IEEE.Volume := [[[py_0_1; py_0_1]]] in
  let rounded := IEEE.float32 13421773 (-27) in
  valid_binary 53 1024 py_0_1 = true ∧
  (IEEE.perona_malik_gpu example_exp true volume 3 py_50 py_0_1 2).2
  = Ok [[[rounded; rounded]]] ∧
  SFeqb (IEEE.as_float64 rounded) py_0_1 = false ∧
  SFltb py_0_1 (IEEE.as_float64 rounded) = true ∧
  (IEEE.perona_malik_gpu example_exp true
     [[[S754_infinity false; S754_infinity false]]] 1 py_50 py_0_1 2).2
  = Ok [[[S754_nan; S754_nan]]] ∧
  (IEEE.perona_malik_gpu example_exp true
     [[[S754_zero true; S754_zero true]]] 1 py_50 py_0_1 2).2
  = Ok [[[S754_zero false; S754_zero false]]].
Proof. vm_compute. done. Qed.

(** C6.  With [iterations = 0] the loop body never runs and the solver
    returns a float32 volume as it is, values that are not finite
    included, with or without CuPy. *)
Theorem zero_iterations_identity (cp_exp : spec_float → spec_float)
    (HAS_CUPY : bool) (volume : IEEE.Volume) (K lambda_param : spec_float)
    (diffusion_type : Z) :
  (∀ z y x a, get3 volume z y x = Some a → valid_binary 24 128 a = true) →
  (IEEE.perona_malik_gpu cp_exp HAS_CUPY volume 0 K lambda_param
     diffusion_type).2
  = Ok volume.
Proof.
  intros Hvalid. destruct HAS_CUPY; [|done].
  rewrite float_perona_malik_gpu_zero. by rewrite map3_as_float32_valid.
Qed.

Lemma zero_iterations_identity_witness :
  let volume : IEEE.Volume :=
    [[[IEEE.float32 3 (-1); S754_nan]; [S754_infinity true; S754_zero true]]] in
  (∀ z y x a, get3 volume z y x = Some a → valid_binary 24 128 a = true) ∧
  (IEEE.perona_malik_gpu example_exp true volume 0 py_50 py_0_1 1).2
  = Ok volume.
Proof.
  intros volume.
  assert (Hvalid : ∀ z y x a, get3 volume z y x = Some a →
                     valid_binary 24 128 a = true).
  { intros z y x a.
    destruct z as [|z]; [|done]. destruct y as [|[|y]]; [| |done];
      (destruct x as [|[|x]]; [| |done]); by intros [= <-]. }
  split; [exact Hvalid|].
  apply (zero_iterations_identity example_exp true volume py_50 py_0_1 1%Z
           Hvalid).
Defined.

(** C6, as stated, fails.  With no iteration at all the float64 voxel
    16777217 comes back as the float32 value 16777216. *)
Lemma zero_iterations_round_float64 :
  valid_binary 53 1024 (IEEE.py_float 16777217 0) = true ∧
  (IEEE.perona_malik_gpu example_exp true [[[IEEE.py_float 16777217 0]]] 0
     py_50 py_0_1 2).2
  = Ok [[[IEEE.float32 16777216 0]]] ∧
  SFeqb (IEEE.as_float64 (IEEE.float32 16777216 0))
    (IEEE.py_float 16777217 0) = false.
Proof. vm_compute. done. Qed.




